(** * Redirect mapper: fetcher, crawl coordinator, batch matcher, summary

    A shallow embedding of [app.py]: the page fetcher with its bounded
    retries ([fetch_page_content]), the sequential crawl loop
    ([crawl_urls]), the batched matching loop ([match_urls]) and the
    confidence bands of the results view.

    The program talks to four collaborators: the HTTP client together with
    the markup parser, the inference client, the JSON decoder and the
    display surface.  They are taken as variables of the development; every
    call the program makes is appended, with its reply, to a trace, and a
    collaborator may answer differently depending on everything that
    happened before.  Python exceptions are explicit: a computation either
    returns a value or raises, and [try_except] is the only way to stop an
    exception from escaping.

    Integers are unbounded, as in Python, and floats are IEEE binary64
    values; the depth of the call stack and the range of durations
    [time.sleep] accepts are not modelled, and the display calls and
    [time.sleep] return without raising. *)

From Stdlib Require Import List Arith Lia ZArith QArith Qround Bool String Ascii.
From Stdlib Require Import Floats.SpecFloat DecimalString.
From Equations Require Import Equations.
Import ListNotations.

Local Open Scope string_scope.
Local Open Scope nat_scope.
Local Open Scope list_scope.

(** ** Python strings

    A [string] is a sequence of characters; an [ascii] stands for one code
    point below 256. *)

Definition nl : string := String "010"%char EmptyString.
Definition dquote : string := String "034"%char EmptyString.

(** [str(n)] for a non-negative integer. *)
Definition str_of_nat (n : nat) : string :=
  NilEmpty.string_of_uint (Nat.to_uint n).

(** [sep.join(parts)] *)
Fixpoint join (sep : string) (parts : list string) : string :=
  match parts with
  | [] => EmptyString
  | [p] => p
  | p :: rest => String.append p (String.append sep (join sep rest))
  end.

(** An f-string, given as its literal and interpolated pieces in order. *)
Definition fstr (pieces : list string) : string :=
  fold_right String.append EmptyString pieces.

(** [s[:n]] *)
Definition slice_to (n : nat) (s : string) : string := substring 0 n s.

(** [str.isspace] on one character (code points below 256). *)
Definition isspace (c : ascii) : bool :=
  let n := nat_of_ascii c in
  ((9 <=? n) && (n <=? 13)) || ((28 <=? n) && (n <=? 32))
  || (n =? 133) || (n =? 160).

Fixpoint lstrip (s : string) : string :=
  match s with
  | EmptyString => EmptyString
  | String c s' => if isspace c then lstrip s' else s
  end.

(** Drops trailing white space: a character is kept when it is not white
    space or when something is kept after it. *)
Fixpoint rstrip (s : string) : string :=
  match s with
  | EmptyString => EmptyString
  | String c s' =>
      match rstrip s' with
      | EmptyString => if isspace c then EmptyString else String c EmptyString
      | kept => String c kept
      end
  end.

(** [s.strip()] *)
Definition strip (s : string) : string := rstrip (lstrip s).

(** [s.startswith(p)] *)
Fixpoint startswith (p s : string) : bool :=
  match p, s with
  | EmptyString, _ => true
  | String _ _, EmptyString => false
  | String a p', String b s' => Ascii.eqb a b && startswith p' s'
  end.

(** [sub in s] *)
Fixpoint contains (sub s : string) : bool :=
  startswith sub s ||
  match s with
  | EmptyString => false
  | String _ s' => contains sub s'
  end.

(** [s.replace(old, new)] for a non-empty [old]: occurrences are found from
    the left and do not overlap.  [skip] counts the characters of the
    occurrence just replaced that are still to be passed over. *)
Fixpoint replace_from (old new : string) (skip : nat) (s : string) : string :=
  match s with
  | EmptyString => EmptyString
  | String c s' =>
      match skip with
      | S k => replace_from old new k s'
      | O =>
          if startswith old s
          then String.append new
                 (replace_from old new (String.length old - 1) s')
          else String c (replace_from old new 0 s')
      end
  end.

Definition replace (old new s : string) : string := replace_from old new 0 s.

(** ** Exceptions

    Only subclasses of [Exception] are modelled: the three [except] clauses
    of the fetcher tell them apart by class. *)

Inductive ExcClass : Type :=
| Timeout
| HTTPError (status_code : nat)
| OtherException.

Record Exn : Type := mkExn { exc_class : ExcClass; exc_str : string }.

(** ** Data *)

Record Credentials : Type := mkCredentials
  { username : string; password : string }.

Inductive Status : Type := success | failed | auth_required.

Definition Status_eqb (a b : Status) : bool :=
  match a, b with
  | success, success | failed, failed | auth_required, auth_required => true
  | _, _ => false
  end.

(** The dictionary returned by [fetch_page_content]. *)
Record ContentSignal : Type := mkSignal
  { cs_url : string;
    cs_title : string;
    cs_heading : string;
    cs_description : string;
    cs_content : string;
    cs_status : Status;
    cs_error : option string }.

(** What the markup parser finds in a fetched page: the text of the first
    [title] and [h1] elements when present, the [content] attribute of the
    [description] meta tag when the tag, and then the attribute, is present,
    and the texts of the [p] elements in document order. *)
Record Soup : Type := mkSoup
  { soup_title : option string;
    soup_h1 : option string;
    soup_meta_description : option (option string);
    soup_paragraphs : list string }.

(** Values produced by [json.loads].  Floats are IEEE binary64 values. *)
Set Warnings "-register-all".
Inductive PyVal : Type :=
| PyNone
| PyBool (b : bool)
| PyInt (z : Z)
| PyFloat (f : spec_float)
| PyStr (s : string)
| PyList (items : list PyVal)
| PyDict (entries : list (string * PyVal)).

(** ** Collaborator calls and the trace *)

Inductive Call : Type :=
| CallGet (url user_agent : string) (auth : option Credentials)
| CallSleep (seconds : Q)
| CallStatusText (msg : string)
| CallProgress (value : spec_float)
| CallGenerate (model contents : string)
| CallStError (msg : string).

Inductive Reply : Type :=
| ReplyNone
| ReplyPage (r : Exn + Soup)
| ReplyText (r : Exn + option string).

Definition Event : Type := (Call * Reply)%type.
Definition Trace : Type := list Event.

(** ** Computations: a trace is threaded, an exception may be raised *)

Definition M (A : Type) : Type := Trace -> (Exn + A) * Trace.

Definition ret {A} (a : A) : M A := fun tr => (inr a, tr).

Definition bind {A B} (c : M A) (k : A -> M B) : M B :=
  fun tr =>
    match c tr with
    | (inr a, tr') => k a tr'
    | (inl e, tr') => (inl e, tr')
    end.

(** [try: body except Exception as e: handler(e)] *)
Definition try_except {A} (body : M A) (handler : Exn -> M A) : M A :=
  fun tr =>
    match body tr with
    | (inr a, tr') => (inr a, tr')
    | (inl e, tr') => handler e tr'
    end.

(** A call whose reply carries nothing: sleeping, progress, status, error
    display. *)
Definition tell (c : Call) : M unit := fun tr => (inr tt, tr ++ [(c, ReplyNone)]).

Declare Scope py_scope.
Delimit Scope py_scope with py.
Notation "x <- c1 ;; c2" := (bind c1 (fun x => c2))
  (at level 61, c1 at next level, right associativity) : py_scope.
Notation "c1 ;; c2" := (bind c1 (fun _ => c2))
  (at level 61, right associativity) : py_scope.
Local Open Scope py_scope.

(** ** The fetcher *)

Definition user_agents : list string :=
  [ "Mozilla/5.0 (Windows NT 10.0; Win64; x64) AppleWebKit/537.36";
    "Mozilla/5.0 (Macintosh; Intel Mac OS X 10_15_7) AppleWebKit/537.36";
    "Mozilla/5.0 (X11; Linux x86_64) AppleWebKit/537.36" ].

(** [user_agents[retry_count % len(user_agents)]] *)
Definition user_agent (retry_count : nat) : string :=
  nth (retry_count mod List.length user_agents) user_agents EmptyString.

(** [{'url': url, 'title': '', ..., 'status': status, 'error': error}] *)
Definition no_content (url : string) (st : Status) (err : string) : ContentSignal :=
  {| cs_url := url; cs_title := EmptyString; cs_heading := EmptyString;
     cs_description := EmptyString; cs_content := EmptyString;
     cs_status := st; cs_error := Some err |}.

(** The signals read off a parsed page (the part of the [try] block after
    the markup is parsed). *)
Definition extract (url : string) (soup : Soup) : ContentSignal :=
  let title_text :=
    match soup_title soup with Some t => strip t | None => EmptyString end in
  let h1_text :=
    match soup_h1 soup with Some t => strip t | None => EmptyString end in
  let meta_text :=
    match soup_meta_description soup with
    | Some (Some c) => strip c
    | Some None => strip EmptyString
    | None => EmptyString
    end in
  let paragraphs := map strip (firstn 3 (soup_paragraphs soup)) in
  let content_preview := slice_to 500 (join " " paragraphs) in
  {| cs_url := url; cs_title := title_text; cs_heading := h1_text;
     cs_description := meta_text; cs_content := content_preview;
     cs_status := success; cs_error := None |}.

Definition retryable_status (code : nat) : bool :=
  existsb (Nat.eqb code) [429; 500; 502; 503; 504].

Definition auth_status (code : nat) : bool :=
  existsb (Nat.eqb code) [401; 403].

Section Program.

(** [requests.get(url, headers=..., timeout=15, allow_redirects=True,
    auth=...)], [raise_for_status()] and the parsing of the body: the reply
    is the parsed page, or the exception raised on the way. *)
Variable requests_get :
  Trace -> string -> string -> option Credentials -> Exn + Soup.

(** [client.models.generate_content(model=..., contents=...)] followed by
    [.text], which is [None] when the response carries no text. *)
Variable generate_content : Trace -> string -> string -> Exn + option string.

(** [json.loads] *)
Variable json_loads : string -> Exn + PyVal.

Definition http_get (url ua : string) (auth : option Credentials) : M Soup :=
  fun tr =>
    let r := requests_get tr url ua auth in
    (r, tr ++ [(CallGet url ua auth, ReplyPage r)]).

(** The event of attempt [retry_count] made after the history [tr]. *)
Definition attempt_event (url : string) (retry_count : nat)
    (credentials : option Credentials) (tr : Trace) : Event :=
  (CallGet url (user_agent retry_count) credentials,
   ReplyPage (requests_get tr url (user_agent retry_count) credentials)).

(** The [try] block of [fetch_page_content]. *)
Definition fetch_try (url : string) (retry_count : nat)
    (credentials : option Credentials) : M ContentSignal :=
  soup <- http_get url (user_agent retry_count) credentials ;;
  ret (extract url soup).

Equations? fetch_page_content (url : string) (retry_count max_retries : nat)
    (credentials : option Credentials) : M ContentSignal
    by wf (max_retries - retry_count) lt :=
  fetch_page_content url retry_count max_retries credentials :=
    try_except (fetch_try url retry_count credentials)
      (fun e =>
         match exc_class e with
         | Timeout =>
             match lt_dec retry_count max_retries with
             | left _ =>
                 tell (CallSleep (inject_Z (2 ^ Z.of_nat retry_count))) ;;
                 fetch_page_content url (retry_count + 1) max_retries credentials
             | right _ => ret (no_content url failed "Timeout")
             end
         | HTTPError status_code =>
             if auth_status status_code
             then ret (no_content url auth_required
                         (fstr ["Authentication required (HTTP ";
                                str_of_nat status_code; ")"]))
             else
               match lt_dec retry_count max_retries with
               | left _ =>
                   if retryable_status status_code
                   then
                     tell (CallSleep (inject_Z (3 ^ Z.of_nat retry_count))) ;;
                     fetch_page_content url (retry_count + 1) max_retries
                       credentials
                   else ret (no_content url failed
                               (fstr ["HTTP "; str_of_nat status_code]))
               | right _ => ret (no_content url failed
                                   (fstr ["HTTP "; str_of_nat status_code]))
               end
         | OtherException => ret (no_content url failed (slice_to 100 (exc_str e)))
         end).
Proof. all: lia. Qed.

(** [fetch_page_content(url, credentials=credentials)]: the call made by
    the crawl loop, with the default [retry_count=0] and [max_retries=3]. *)
Definition fetch (url : string) (credentials : option Credentials)
  : M ContentSignal :=
  fetch_page_content url 0 3 credentials.

(** ** The crawl loop *)

(** [for x in xs: ...] where the body updates the loop's local state. *)
Fixpoint for_loop {A S} (xs : list A) (body : A -> S -> M S) (s : S) : M S :=
  match xs with
  | [] => ret s
  | x :: rest => s' <- body x s ;; for_loop rest body s'
  end.

(** [list(enumerate(xs))] *)
Definition enumerate {A} (xs : list A) : list (nat * A) :=
  combine (seq 0 (List.length xs)) xs.

(** [float(n)] for a non-negative integer; exact below [2 ^ 53]. *)
Definition float_of_nat (n : nat) : spec_float :=
  binary_normalize 53 1024 (Z.of_nat n) 0 false.

(** [a / b] for two non-negative integers below [2 ^ 53], [b] positive:
    the binary64 quotient of the two, rounded to nearest. *)
Definition truediv (a b : nat) : spec_float :=
  SFdiv 53 1024 (float_of_nat a) (float_of_nat b).

Arguments truediv : simpl never.

(** [content['status'] == 'auth_required'] *)
Definition needs_auth (content : ContentSignal) : bool :=
  Status_eqb (cs_status content) auth_required.

(** One turn of the loop of [crawl_urls]; the state is the pair of lists
    [results], [auth_required]. *)
Definition crawl_step (total : nat) (credentials : option Credentials)
    (ix : nat * string) (acc : list ContentSignal * list string)
  : M (list ContentSignal * list string) :=
  let '(i, url) := ix in
  let '(results, auth_required_urls) := acc in
  tell (CallStatusText
          (fstr ["Crawling "; str_of_nat (i + 1); "/"; str_of_nat total; ": ";
                 slice_to 50 url; "..."])) ;;
  tell (CallProgress (truediv (i + 1) total)) ;;
  content <- fetch url credentials ;;
  let results := results ++ [content] in
  let auth_required_urls :=
    if needs_auth content
    then auth_required_urls ++ [url]
    else auth_required_urls in
  tell (CallSleep 1) ;;
  ret (results, auth_required_urls).

Definition crawl_urls (url_list : list string)
    (credentials : option Credentials)
  : M (list ContentSignal * list string) :=
  let total := List.length url_list in
  for_loop (enumerate url_list) (crawl_step total credentials) ([], []).

(** ** Batches *)

(** [items[start:stop]] for non-negative indices. *)
Definition slice {A} (start stop : nat) (items : list A) : list A :=
  skipn start (firstn stop items).

(** The exact quotient of [a] by a positive [b], as a rational number. *)
Definition fraction (a b : nat) : Q := Z.of_nat a # Pos.of_nat b.

(** [(len(old_data) + batch_size - 1) // batch_size] *)
Definition total_batches {A} (old_data : list A) (batch_size : nat) : nat :=
  (List.length old_data + batch_size - 1) / batch_size.

(** The slice taken at turn [batch_num] of the loop of [match_urls]. *)
Definition old_batch {A} (old_data : list A) (batch_size batch_num : nat)
  : list A :=
  let start_idx := batch_num * batch_size in
  let end_idx := Nat.min (start_idx + batch_size) (List.length old_data) in
  slice start_idx end_idx old_data.

(** The batches in the order the loop visits them. *)
Definition batches {A} (old_data : list A) (batch_size : nat) : list (list A) :=
  map (old_batch old_data batch_size) (seq 0 (total_batches old_data batch_size)).

(** [100 if 'flash' in model_name else 50] *)
Definition batch_size_for (model_name : string) : nat :=
  if contains "flash" model_name then 100 else 50.

(** ** Prompts *)

Definition is_success (item : ContentSignal) : bool :=
  Status_eqb (cs_status item) success.

(** The labelled block of one crawled item. *)
Definition render_item (item : ContentSignal) : string :=
  fstr ["URL: "; cs_url item; nl; "Title: "; cs_title item; nl;
        "Heading: "; cs_heading item; nl;
        "Description: "; cs_description item; nl;
        "Content: "; cs_content item].

Definition quoted (s : string) : string := fstr [dquote; s; dquote].

(** The lines of the prompt after the two URL sections; [reason] is the
    sample reason, the only place where the two prompts differ there. *)
Definition answer_format (reason : string) : list string :=
  [ EmptyString;
    "Return ONLY a JSON array with this exact structure (no markdown, no preamble):";
    "[";
    "  {";
    fstr ["    "; quoted "oldUrl"; ": "; quoted "old-url-here"; ","];
    fstr ["    "; quoted "newUrl"; ": "; quoted "new-url-here"; ","];
    fstr ["    "; quoted "confidence"; ": 0.95,"];
    fstr ["    "; quoted "reason"; ": "; quoted reason];
    "  }";
    "]";
    EmptyString;
    "Match as many old URLs as possible. Use confidence scores: 1.0 = perfect match, 0.7-0.9 = good match, 0.5-0.6 = uncertain match." ].

(** The prompt of crawled mode, from the two texts already rendered. *)
Definition crawled_template (old_urls_text new_urls_text : string) : string :=
  join nl
    ([ "You are a URL redirect mapping expert. Match old URLs to new URLs based on semantic similarity, content analysis, and URL structure.";
       EmptyString;
       "Old URLs with content:";
       old_urls_text;
       EmptyString;
       "New URLs with content:";
       new_urls_text ]
     ++ answer_format "brief reason for match based on content similarity").

(** The prompt of URL-only mode. *)
Definition url_template (old_urls_text new_urls_text : string) : string :=
  join nl
    ([ "You are a URL redirect mapping expert. Match old URLs to new URLs based on semantic similarity, content keywords, and URL structure.";
       EmptyString;
       "Old URLs:";
       old_urls_text;
       EmptyString;
       "New URLs:";
       new_urls_text ]
     ++ answer_format "brief reason for match").

(** The blocks of a list of crawled items, separated by an empty line. *)
Definition render_items (items : list ContentSignal) : string :=
  join (String.append nl nl) (map render_item items).

Definition crawled_prompt (old_batch new_data : list ContentSignal) : string :=
  let old_urls_text := render_items old_batch in
  let new_urls_text := render_items (filter is_success new_data) in
  crawled_template old_urls_text new_urls_text.

(** [{'url': url}] *)
Record UrlItem : Type := mkUrlItem { item_url : string }.

Definition url_prompt (old_batch new_data : list UrlItem) : string :=
  let old_urls_text := join nl (map item_url old_batch) in
  let new_urls_text := join nl (map item_url new_data) in
  url_template old_urls_text new_urls_text.

(** ** The matching loop *)

Definition type_error {A} (msg : string) : Exn + A :=
  inl (mkExn OtherException msg).

(** The elements [list.extend] takes from its argument. *)
Definition py_iter (v : PyVal) : Exn + list PyVal :=
  match v with
  | PyList items => inr items
  | PyDict entries => inr (map (fun kv => PyStr (fst kv)) entries)
  | PyStr s => inr (map (fun c => PyStr (String c EmptyString)) (list_ascii_of_string s))
  | PyNone => type_error "'NoneType' object is not iterable"
  | PyBool _ => type_error "'bool' object is not iterable"
  | PyInt _ => type_error "'int' object is not iterable"
  | PyFloat _ => type_error "'float' object is not iterable"
  end.

(** [response_text.replace('```json', '').replace('```', '').strip()] *)
Definition clean (response_text : option string) : Exn + string :=
  match response_text with
  | Some t =>
      inr (strip (replace "```" EmptyString (replace "```json" EmptyString t)))
  | None => type_error "'NoneType' object has no attribute 'replace'"
  end.

(** Everything between the reply of the inference collaborator and the
    call of [extend]: cleaning, decoding, and iterating the decoded value. *)
Definition parse_matches (response_text : option string) : Exn + list PyVal :=
  match clean response_text with
  | inl e => inl e
  | inr clean_text =>
      match json_loads clean_text with
      | inl e => inl e
      | inr batch_matches => py_iter batch_matches
      end
  end.

Definition lift {A} (r : Exn + A) : M A := fun tr => (r, tr).

(** What a reply of the inference collaborator yields: the decoded
    elements, or the exception that the [except] clause will catch. *)
Definition yield (reply : Exn + option string) : Exn + list PyVal :=
  match reply with
  | inl e => inl e
  | inr response_text => parse_matches response_text
  end.

(** What the batch answered by [reply] adds to [all_matches]. *)
Definition contributed (reply : Exn + option string) : list PyVal :=
  match yield reply with
  | inr new_items => new_items
  | inl _ => []
  end.

Definition generate (model_name prompt : string) : M (option string) :=
  fun tr =>
    let r := generate_content tr model_name prompt in
    (r, tr ++ [(CallGenerate model_name prompt, ReplyText r)]).

(** The [try] block of the loop: the list [all_matches] after the batch. *)
Definition batch_try (model_name prompt : string) (all_matches : list PyVal)
  : M (list PyVal) :=
  response_text <- generate model_name prompt ;;
  new_items <- lift (parse_matches response_text) ;;
  ret (all_matches ++ new_items).

(** One turn of the loop of [match_urls].  [build_prompt] is the branch on
    [crawled] that renders the prompt of a batch.  The [try] block yields
    [Some] of the extended list; the handler reports the error and yields
    [None], after which [continue] skips the pause. *)
Definition match_step {I} (model_name : string) (old_data : list I)
    (build_prompt : list I -> string) (batch_size n_batches : nat)
    (batch_num : nat) (all_matches : list PyVal) : M (list PyVal) :=
  let batch := old_batch old_data batch_size batch_num in
  tell (CallStatusText
          (fstr ["Processing batch "; str_of_nat (batch_num + 1); "/";
                 str_of_nat n_batches; " (";
                 str_of_nat (List.length batch); " URLs)..."])) ;;
  tell (CallProgress (truediv (batch_num + 1) n_batches)) ;;
  let prompt := build_prompt batch in
  outcome <-
    try_except
      (extended <- batch_try model_name prompt all_matches ;; ret (Some extended))
      (fun e =>
         tell (CallStError
                 (fstr ["Error in batch "; str_of_nat (batch_num + 1); ": ";
                        exc_str e])) ;;
         ret None) ;;
  match outcome with
  | Some extended => tell (CallSleep (3 # 2)) ;; ret extended
  | None => ret all_matches
  end.

(** The part of [match_urls] from [batch_size = ...] on. *)
Definition match_loop {I} (model_name : string) (old_data : list I)
    (build_prompt : list I -> string) : M (list PyVal) :=
  let batch_size := batch_size_for model_name in
  let n_batches := total_batches old_data batch_size in
  for_loop (seq 0 n_batches)
    (match_step model_name old_data build_prompt batch_size n_batches) [].

(** The arguments [old_data], [new_data] and [crawled] of [match_urls]:
    lists of URLs when [crawled] is false, crawl results when it is true. *)
Inductive MatchData : Type :=
| UrlLists (old_data new_data : list string)
| CrawlResults (old_data new_data : list ContentSignal).

Definition match_urls (model_name : string) (data : MatchData)
  : M (list PyVal) :=
  match data with
  | UrlLists old_data new_data =>
      let old_data := map mkUrlItem old_data in
      let new_data := map mkUrlItem new_data in
      match_loop model_name old_data
        (fun old_batch => url_prompt old_batch new_data)
  | CrawlResults old_data new_data =>
      let old_data := filter is_success old_data in
      match_loop model_name old_data
        (fun old_batch => crawled_prompt old_batch new_data)
  end.

(** The number of turns of the loop of [match_urls]. *)
Definition n_batches_of (model_name : string) (data : MatchData) : nat :=
  match data with
  | UrlLists old_data _ =>
      total_batches old_data (batch_size_for model_name)
  | CrawlResults old_data _ =>
      total_batches (filter is_success old_data) (batch_size_for model_name)
  end.

End Program.

(** ** Confidence bands of the results view *)

(** The binary64 values of the literals [0.8] and [0.6]:
    [0x1.999999999999ap-1] and [0x1.3333333333333p-1]. *)
Definition float_0_8 : spec_float := S754_finite false 7205759403792794 (-53).
Definition float_0_6 : spec_float := S754_finite false 5404319552844595 (-53).

(** An integer against a float, compared exactly as Python does. *)
Definition Z_SF_compare (z : Z) (f : spec_float) : option comparison :=
  match f with
  | S754_nan => None
  | S754_zero _ => Some (z ?= 0)%Z
  | S754_infinity s => Some (if s then Gt else Lt)
  | S754_finite s m e =>
      let sm := if s then Z.neg m else Z.pos m in
      Some (if (0 <=? e)%Z
            then (z ?= sm * 2 ^ e)%Z
            else (z * 2 ^ (- e) ?= sm)%Z)
  end.

(** The order of the number [v] relative to the float [f]; [None] when a
    NaN makes them unordered; a [TypeError] when [v] is not a number. *)
Definition compare_to_float (v : PyVal) (f : spec_float)
  : Exn + option comparison :=
  match v with
  | PyFloat x => inr (SFcompare x f)
  | PyInt z => inr (Z_SF_compare z f)
  | PyBool b => inr (Z_SF_compare (if b then 1 else 0)%Z f)
  | _ => type_error "comparison not supported between these types"
  end.

(** [v >= f] and, what is the same comparison, [f <= v] *)
Definition py_ge (v : PyVal) (f : spec_float) : Exn + bool :=
  match compare_to_float v f with
  | inl e => inl e
  | inr (Some Gt) | inr (Some Eq) => inr true
  | inr _ => inr false
  end.

(** [v < f] *)
Definition py_lt (v : PyVal) (f : spec_float) : Exn + bool :=
  match compare_to_float v f with
  | inl e => inl e
  | inr (Some Lt) => inr true
  | inr _ => inr false
  end.

(** [m[key]] for a string key. *)
Definition getitem (m : PyVal) (key : string) : Exn + PyVal :=
  match m with
  | PyDict entries =>
      match find (fun kv => String.eqb (fst kv) key) entries with
      | Some kv => inr (snd kv)
      | None => inl (mkExn OtherException (fstr ["'"; key; "'"]))
      end
  | PyList _ => type_error "list indices must be integers or slices, not str"
  | PyStr _ => type_error "string indices must be integers, not 'str'"
  | _ => type_error "object is not subscriptable"
  end.

(** [sum(1 for m in matches if cond(m))] *)
Fixpoint count_where (cond : PyVal -> Exn + bool) (matches : list PyVal)
  : Exn + nat :=
  match matches with
  | [] => inr 0
  | m :: rest =>
      match cond m with
      | inl e => inl e
      | inr b =>
          match count_where cond rest with
          | inl e => inl e
          | inr n => inr ((if b then 1 else 0) + n)
          end
      end
  end.

(** [m['confidence'] >= 0.8] *)
Definition is_high (m : PyVal) : Exn + bool :=
  match getitem m "confidence" with
  | inl e => inl e
  | inr c => py_ge c float_0_8
  end.

(** [0.6 <= m['confidence'] < 0.8]: the second comparison is made only when
    the first holds. *)
Definition is_medium (m : PyVal) : Exn + bool :=
  match getitem m "confidence" with
  | inl e => inl e
  | inr c =>
      match py_ge c float_0_6 with
      | inl e => inl e
      | inr true => py_lt c float_0_8
      | inr false => inr false
      end
  end.

(** [m['confidence'] < 0.6] *)
Definition is_low (m : PyVal) : Exn + bool :=
  match getitem m "confidence" with
  | inl e => inl e
  | inr c => py_lt c float_0_6
  end.

Definition high_conf (matches : list PyVal) : Exn + nat :=
  count_where is_high matches.
Definition medium_conf (matches : list PyVal) : Exn + nat :=
  count_where is_medium matches.
Definition low_conf (matches : list PyVal) : Exn + nat :=
  count_where is_low matches.

Record Summary : Type := mkSummary
  { total : nat; high : nat; medium : nat; low : nat }.

(** The four figures of the results view, computed in the order of the
    source: the three bands, then the total. *)
Definition summarize (matches : list PyVal) : Exn + Summary :=
  match high_conf matches with
  | inl e => inl e
  | inr h =>
      match medium_conf matches with
      | inl e => inl e
      | inr m =>
          match low_conf matches with
          | inl e => inl e
          | inr l => inr (mkSummary (List.length matches) h m l)
          end
      end
  end.

(** ** Reading a trace *)

Definition is_get (c : Call) : bool :=
  match c with CallGet _ _ _ => true | _ => false end.

(** The fetch attempts made, in order. *)
Definition attempts (tr : Trace) : list Call := filter is_get (map fst tr).

(** The pauses taken, in order. *)
Definition sleeps (tr : Trace) : list Q :=
  flat_map (fun c => match c with CallSleep d => [d] | _ => [] end) (map fst tr).

(** The prompts sent to the inference collaborator, in order. *)
Definition prompts (tr : Trace) : list string :=
  flat_map (fun c => match c with CallGenerate _ p => [p] | _ => [] end)
    (map fst tr).

(** The replies of the inference collaborator, in order. *)
Definition generate_replies (tr : Trace) : list (Exn + option string) :=
  flat_map (fun ev => match ev with
                      | (CallGenerate _ _, ReplyText r) => [r]
                      | _ => []
                      end) tr.

(** A reply of the HTTP collaborator that is a timeout. *)
Definition raises_timeout (r : Exn + Soup) : Prop :=
  exists e, r = inl e /\ exc_class e = Timeout.

(** The calls of a fetch whose attempts all time out, from attempt
    [retry_count] on: an attempt and its pause for every attempt that is
    retried, then the last attempt. *)
Definition timeout_schedule (url : string) (credentials : option Credentials)
    (retry_count max_retries : nat) : list Call :=
  flat_map (fun k => [CallGet url (user_agent k) credentials;
                      CallSleep (inject_Z (2 ^ Z.of_nat k))])
    (seq retry_count (max_retries - retry_count))
  ++ [CallGet url (user_agent max_retries) credentials].

(** A fetch result carries its failure in its fields: a success has no
    error detail, anything else has one. *)
Definition well_formed_signal (page : ContentSignal) : Prop :=
  match cs_status page with
  | success => cs_error page = None
  | failed | auth_required => exists detail, cs_error page = Some detail
  end.

(** The result that stands for the reply to the last attempt of a fetch:
    the page's signals, or the failure written into [status] and [error]. *)
Definition signal_of (url : string) (r : Exn + Soup) : ContentSignal :=
  match r with
  | inr soup => extract url soup
  | inl e =>
      match exc_class e with
      | Timeout => no_content url failed "Timeout"
      | HTTPError code =>
          if auth_status code
          then no_content url auth_required
                 (fstr ["Authentication required (HTTP "; str_of_nat code; ")"])
          else no_content url failed (fstr ["HTTP "; str_of_nat code])
      | OtherException => no_content url failed (slice_to 100 (exc_str e))
      end
  end.

(** What every fetch delivers: it returns, its trace extends the one it
    started from and ends with an attempt on the URL, and its result is the
    one that stands for the reply to that attempt. *)
Definition delivers (url : string) (credentials : option Credentials)
    (tr : Trace) (out : (Exn + ContentSignal) * Trace) : Prop :=
  exists page earlier ua r,
    out = (inr page, tr ++ earlier ++ [(CallGet url ua credentials, ReplyPage r)])
    /\ page = signal_of url r.

(** ** Sample collaborators, used to run the program on concrete inputs *)

Definition always_timeout (_ : Trace) (_ _ : string)
    (_ : option Credentials) : Exn + Soup :=
  inl (mkExn Timeout "HTTPSConnectionPool(host='old.example', port=443): Read timed out. (read timeout=15)").

Definition always_status (code : nat) (_ : Trace) (_ _ : string)
    (_ : option Credentials) : Exn + Soup :=
  inl (mkExn (HTTPError code)
         (fstr [str_of_nat code; " Client Error for url: https://old.example/a"])).

Definition long_message : string :=
  "HTTPSConnectionPool(host='old.example', port=443): Max retries exceeded with url: /a (Caused by NameResolutionError: Failed to resolve 'old.example')".

Definition always_unreachable (_ : Trace) (_ _ : string)
    (_ : option Credentials) : Exn + Soup :=
  inl (mkExn OtherException long_message).

Definition no_json (_ : string) : Exn + PyVal :=
  inl (mkExn OtherException "Expecting value: line 1 column 1 (char 0)").

(** ** The bands in the words of the specification *)

(** A number other than NaN. *)
Definition is_number (c : PyVal) : bool :=
  match c with
  | PyFloat S754_nan => false
  | PyFloat _ | PyInt _ | PyBool _ => true
  | _ => false
  end.

(** A record whose [confidence] is a number other than NaN. *)
Definition has_numeric_confidence (m : PyVal) : bool :=
  match getitem m "confidence" with
  | inr c => is_number c
  | inl _ => false
  end.

(** [confidence >= f], false when the comparison cannot be made. *)
Definition at_least (f : spec_float) (m : PyVal) : bool :=
  match getitem m "confidence" with
  | inr c => match py_ge c f with inr b => b | inl _ => false end
  | inl _ => false
  end.

(** [confidence < f], false when the comparison cannot be made. *)
Definition below (f : spec_float) (m : PyVal) : bool :=
  match getitem m "confidence" with
  | inr c => match py_lt c f with inr b => b | inl _ => false end
  | inl _ => false
  end.

Definition in_high (m : PyVal) : bool := at_least float_0_8 m.
Definition in_medium (m : PyVal) : bool :=
  at_least float_0_6 m && below float_0_8 m.
Definition in_low (m : PyVal) : bool := below float_0_6 m.

(** [{'confidence': c}] *)
Definition with_confidence (c : spec_float) : PyVal :=
  PyDict [("confidence", PyFloat c)].

(** The binary64 values of [0.9], [0.7] and [0.3]. *)
Definition float_0_9 : spec_float := S754_finite false 8106479329266893 (-53).
Definition float_0_7 : spec_float := S754_finite false 6305039478318694 (-53).
Definition float_0_3 : spec_float := S754_finite false 5404319552844595 (-54).

(** The binary64 values of [0.0], [1.0], [0.95] and [1.5]. *)
Definition float_0 : spec_float := S754_zero false.
Definition float_1 : spec_float := S754_finite false 4503599627370496 (-52).
Definition float_0_95 : spec_float := S754_finite false 8556839292003942 (-53).
Definition float_1_5 : spec_float := S754_finite false 6755399441055744 (-52).

(** The invariant the data model asks of a match record: [oldUrl] and
    [newUrl] are non-empty strings and [confidence] is a number between 0
    and 1. *)
Definition in_unit_interval (c : PyVal) : bool :=
  match compare_to_float c float_0, compare_to_float c float_1 with
  | inr (Some (Gt | Eq)), inr (Some (Lt | Eq)) => true
  | _, _ => false
  end.

Definition non_empty_string (v : Exn + PyVal) : bool :=
  match v with
  | inr (PyStr EmptyString) => false
  | inr (PyStr _) => true
  | _ => false
  end.

Definition valid_record (m : PyVal) : bool :=
  non_empty_string (getitem m "oldUrl")
  && non_empty_string (getitem m "newUrl")
  && match getitem m "confidence" with
     | inr c => in_unit_interval c
     | inl _ => false
     end.

Definition match_record (old_url new_url : string) (confidence : spec_float)
    (reason : string) : PyVal :=
  PyDict [("oldUrl", PyStr old_url); ("newUrl", PyStr new_url);
          ("confidence", PyFloat confidence); ("reason", PyStr reason)].

(** The JSON text of an array holding one record; [confidence] is the
    literal as written. *)
Definition match_array_text (old_url new_url confidence reason : string)
  : string :=
  fstr ["[{"; quoted "oldUrl"; ": "; quoted old_url; ", ";
        quoted "newUrl"; ": "; quoted new_url; ", ";
        quoted "confidence"; ": "; confidence; ", ";
        quoted "reason"; ": "; quoted reason; "}]"].

Definition sample_match : PyVal :=
  match_record "https://old.example/a" "https://new.example/a" float_0_95
    "slug match".
Definition sample_match_text : string :=
  match_array_text "https://old.example/a" "https://new.example/a" "0.95"
    "slug match".

Definition overconfident_match : PyVal :=
  match_record "https://old.example/a" "https://new.example/a" float_1_5
    "slug match".
Definition overconfident_match_text : string :=
  match_array_text "https://old.example/a" "https://new.example/a" "1.5"
    "slug match".

(** [json.loads] on the texts decoded in the sample run below: the sample
    array; the text of a refusal, like every other text here, is answered
    with the decoder's error. *)
Definition sample_json_loads (s : string) : Exn + PyVal :=
  if String.eqb s sample_match_text then inr (PyList [sample_match])
  else no_json s.

(** [json.loads] on the array with a confidence of 1.5. *)
Definition overconfident_json_loads (s : string) : Exn + PyVal :=
  if String.eqb s overconfident_match_text
  then inr (PyList [overconfident_match])
  else no_json s.

(** An inference collaborator whose first reply is a refusal in prose and
    whose later replies are the sample array inside a code fence. *)
Definition flaky_generate (tr : Trace) (_ _ : string) : Exn + option string :=
  match generate_replies tr with
  | [] => inr (Some "Sorry, I cannot help with that.")
  | _ :: _ => inr (Some (fstr ["```json"; nl; sample_match_text; nl; "```"]))
  end.

(** An inference collaborator that answers with a confidence of 1.5. *)
Definition overconfident_generate (_ : Trace) (_ _ : string)
  : Exn + option string :=
  inr (Some overconfident_match_text).

(** [count] old URLs. *)
Definition sample_old_urls (count : nat) : list string :=
  map (fun k => fstr ["https://old.example/"; str_of_nat k]) (seq 0 count).

(** * The rest of the program

    What follows covers the code around the functions above: the reading of
    the uploaded URL lists, the table export, and the start button with
    its handler, together with what is needed to state how
    the fetcher and the two loops behave in general. *)

(** ** Reading the URL lists *)

(** [s.split(sep)] for a one-character separator. *)
Fixpoint split_on (sep : ascii) (s : string) : list string :=
  match s with
  | EmptyString => [EmptyString]
  | String c s' =>
      if Ascii.eqb c sep then EmptyString :: split_on sep s'
      else match split_on sep s' with
           | piece :: pieces => String c piece :: pieces
           | [] => [String c EmptyString]
           end
  end.

(** [not s] for a string. *)
Definition is_empty (s : string) : bool :=
  match s with EmptyString => true | String _ _ => false end.

(** [line.strip() and not line.startswith('#')] *)
Definition keeps_line (line : string) : bool :=
  negb (is_empty (strip line)) && negb (startswith "#" line).

(** [parse_urls(content)], from the decoded text [content.decode('utf-8')]
    on. *)
Definition parse_urls (text : string) : list string :=
  let lines := split_on "010" (strip text) in
  map strip (filter keeps_line lines).

(** A character occurs in a string. *)
Fixpoint has_char (c : ascii) (s : string) : bool :=
  match s with
  | EmptyString => false
  | String a s' => Ascii.eqb a c || has_char c s'
  end.

(** A line that [parse_urls] hands back as it is: not empty, free of white
    space at both ends, on one line, and not a comment. *)
Definition clean_url (u : string) : Prop :=
  u <> EmptyString /\ strip u = u /\ has_char "010" u = false
  /\ startswith "#" u = false.

(** ** The shape of a fetch *)

(** The base of the pause a reply asks for when the fetcher retries it:
    2 after a timeout, 3 after one of the HTTP statuses that are retried;
    [None] for a reply that ends the fetch. *)
Definition retry_base (r : Exn + Soup) : option Z :=
  match r with
  | inr _ => None
  | inl e =>
      match exc_class e with
      | Timeout => Some 2%Z
      | HTTPError code =>
          if auth_status code then None
          else if retryable_status code then Some 3%Z else None
      | OtherException => None
      end
  end.

(** The events of a fetch for [url] that starts at attempt [retry_count]
    and whose last attempt is answered by [last]: every attempt but the
    last got a reply that is retried, within the budget, and is followed by
    its pause; the last attempt got a reply that ends the fetch, or came
    when the budget was used up. *)
Inductive fetch_events (url : string) (credentials : option Credentials)
    (max_retries : nat) : nat -> Trace -> Exn + Soup -> Prop :=
| fetch_stops retry_count last :
    retry_base last = None \/ ~ retry_count < max_retries ->
    fetch_events url credentials max_retries retry_count
      [(CallGet url (user_agent retry_count) credentials, ReplyPage last)] last
| fetch_retries retry_count r base rest last :
    retry_base r = Some base ->
    retry_count < max_retries ->
    fetch_events url credentials max_retries (S retry_count) rest last ->
    fetch_events url credentials max_retries retry_count
      ((CallGet url (user_agent retry_count) credentials, ReplyPage r)
       :: (CallSleep (inject_Z (base ^ Z.of_nat retry_count)), ReplyNone)
       :: rest) last.

(** The calls of a fetch whose attempts are all answered with an HTTP
    status that is retried. *)
Definition status_schedule (url : string) (credentials : option Credentials)
    (retry_count max_retries : nat) : list Call :=
  flat_map (fun k => [CallGet url (user_agent k) credentials;
                      CallSleep (inject_Z (3 ^ Z.of_nat k))])
    (seq retry_count (max_retries - retry_count))
  ++ [CallGet url (user_agent max_retries) credentials].

(** A reply of the HTTP collaborator that is the HTTP error [code]. *)
Definition raises_status (code : nat) (r : Exn + Soup) : Prop :=
  exists e, r = inl e /\ exc_class e = HTTPError code.

(** ** More readings of a trace *)

(** The values passed to the progress bar, in order. *)
Definition progress_values (tr : Trace) : list spec_float :=
  flat_map (fun c => match c with CallProgress v => [v] | _ => [] end)
    (map fst tr).

(** The messages passed to [st.error], in order. *)
Definition error_reports (tr : Trace) : list string :=
  flat_map (fun c => match c with CallStError msg => [msg] | _ => [] end)
    (map fst tr).

(** The attempts of [count] tries at [url], numbered from 0. *)
Definition tries (url : string) (credentials : option Credentials)
    (count : nat) : list Call :=
  map (fun k => CallGet url (user_agent k) credentials) (seq 0 count).

(** A page that is always served. *)
Definition sample_soup : Soup :=
  {| soup_title := Some "  Old page  ";
     soup_h1 := None;
     soup_meta_description := Some None;
     soup_paragraphs := ["first "; " second"; "third"; "fourth"] |}.

(** An HTTP collaborator whose first reply is a timeout and whose later
    replies are the sample page. *)
Definition slow_start (tr : Trace) (_ _ : string) (_ : option Credentials)
  : Exn + Soup :=
  match attempts tr with
  | [] => inl (mkExn Timeout "Read timed out. (read timeout=15)")
  | _ :: _ => inr sample_soup
  end.

(** ** The events of the two loops *)

(** The events of the turn of the loop of [crawl_urls] for the URL at
    index [i], around the events [fetched] of its fetch. *)
Definition crawl_turn_events (total i : nat) (url : string) (fetched : Trace)
  : Trace :=
  (CallStatusText
     (fstr ["Crawling "; str_of_nat (i + 1); "/"; str_of_nat total; ": ";
            slice_to 50 url; "..."]), ReplyNone)
  :: (CallProgress (truediv (i + 1) total), ReplyNone)
  :: fetched ++ [(CallSleep 1, ReplyNone)].

(** The replies recorded in [events] are those of the HTTP collaborator:
    every request is recorded with what [requests_get] answers to it after
    [history] and the events before it. *)
Fixpoint replies_agree
    (requests_get : Trace -> string -> string -> option Credentials -> Exn + Soup)
    (history events : Trace) : Prop :=
  match events with
  | [] => True
  | event :: rest =>
      match fst event with
      | CallGet url ua auth =>
          snd event = ReplyPage (requests_get history url ua auth)
      | _ => True
      end
      /\ replies_agree requests_get (history ++ [event]) rest
  end.

(** The fetch of one URL as the crawl loop sees it: the events of the
    fetch and the reply to its last attempt. *)
Definition FetchRun : Type := (Trace * (Exn + Soup))%type.

(** [fetches] are fetches of the URLs of [url_list], one for each URL and
    in the same order, each started at attempt 0 with the default budget
    of 3 retries. *)
Definition fetches_of (credentials : option Credentials)
    (url_list : list string) (fetches : list FetchRun) : Prop :=
  Forall2 (fun url run => fetch_events url credentials 3 0 (fst run) (snd run))
    url_list fetches.

(** The events of the loop of [crawl_urls] over [url_list], whose first
    URL has index [first]: one turn for each URL, in order, around the
    events of its fetch. *)
Fixpoint crawl_events (total first : nat) (url_list : list string)
    (fetches : list FetchRun) : Trace :=
  match url_list, fetches with
  | url :: urls, run :: runs =>
      crawl_turn_events total first url (fst run)
      ++ crawl_events total (S first) urls runs
  | _, _ => []
  end.

(** The results of a crawl with these fetches: for each URL, in order, the
    result standing for the reply to the last attempt of its fetch. *)
Definition crawl_results (url_list : list string) (fetches : list FetchRun)
  : list ContentSignal :=
  map (fun fetched => signal_of (fst fetched) (snd (snd fetched)))
    (combine url_list fetches).

(** The report of a failed batch. *)
Definition batch_error (batch_num : nat) (e : Exn) : string :=
  fstr ["Error in batch "; str_of_nat (batch_num + 1); ": "; exc_str e].

(** The events of the turn of the loop of [match_urls] for batch
    [batch_num], answered by [reply]: status, progress, the call, and then
    the pause when the reply could be used, the report when it could not. *)
Definition match_turn_events {I} (json_loads : string -> Exn + PyVal)
    (model_name : string) (old_data : list I) (build_prompt : list I -> string)
    (batch_size n_batches : nat) (batch_num : nat)
    (reply : Exn + option string) : Trace :=
  let batch := old_batch old_data batch_size batch_num in
  [ (CallStatusText
       (fstr ["Processing batch "; str_of_nat (batch_num + 1); "/";
              str_of_nat n_batches; " (";
              str_of_nat (List.length batch); " URLs)..."]), ReplyNone);
    (CallProgress (truediv (batch_num + 1) n_batches), ReplyNone);
    (CallGenerate model_name (build_prompt batch), ReplyText reply);
    match yield json_loads reply with
    | inr _ => (CallSleep (3 # 2), ReplyNone)
    | inl e => (CallStError (batch_error batch_num e), ReplyNone)
    end ].

(** [0 < v <= 1] for a float: a value inside the range from 0.0 to 1.0
    that the progress bar accepts, and not 0. *)
Definition in_unit_range (v : spec_float) : bool :=
  SFltb float_0 v && SFleb v float_1.

(** The progress values of a loop of [n] turns: the binary64 quotients
    [1 / n], [2 / n], ..., [n / n]. *)
Definition progress_steps (n : nat) : list spec_float :=
  map (fun i => truediv (i + 1) n) (seq 0 n).

(** The reports of the batches whose replies could not be used, given the
    replies in batch order from batch [first] on. *)
Definition failure_reports (json_loads : string -> Exn + PyVal)
    (first : nat) (replies : list (Exn + option string)) : list string :=
  flat_map (fun kr => match yield json_loads (snd kr) with
                      | inl e => [batch_error (fst kr) e]
                      | inr _ => []
                      end)
    (combine (seq first (List.length replies)) replies).

(** The pauses after the batches whose replies could be used. *)
Definition success_pauses (json_loads : string -> Exn + PyVal)
    (replies : list (Exn + option string)) : list Q :=
  flat_map (fun r => match yield json_loads r with
                     | inl _ => []
                     | inr _ => [3 # 2]
                     end) replies.

(** ** When the results view and the export raise *)

(** A record whose [confidence] can be compared with a float: a number,
    NaN included. *)
Definition comparable (m : PyVal) : bool :=
  match getitem m "confidence" with
  | inr (PyFloat _) | inr (PyInt _) | inr (PyBool _) => true
  | _ => false
  end.

(** [m[key]] can be read. *)
Definition has_key (key : string) (m : PyVal) : bool :=
  match getitem m key with inr _ => true | inl _ => false end.

(** A record with the four keys the export reads. *)
Definition exportable (m : PyVal) : bool :=
  has_key "oldUrl" m && has_key "newUrl" m && has_key "confidence" m
  && has_key "reason" m.

Section CsvExport.

(** What [writer.writerow] appends to the buffer for a row of values. *)
Variable csv_row : list PyVal -> string.

(** [[m['oldUrl'], m['newUrl'], m['confidence'], m['reason']]], read from
    left to right. *)
Definition export_values (m : PyVal) : Exn + list PyVal :=
  match getitem m "oldUrl" with
  | inl e => inl e
  | inr old_url =>
      match getitem m "newUrl" with
      | inl e => inl e
      | inr new_url =>
          match getitem m "confidence" with
          | inl e => inl e
          | inr confidence =>
              match getitem m "reason" with
              | inl e => inl e
              | inr reason => inr [old_url; new_url; confidence; reason]
              end
          end
      end
  end.

(** The loop of [export_csv]: the text of the rows written. *)
Fixpoint export_rows (matches : list PyVal) : Exn + string :=
  match matches with
  | [] => inr EmptyString
  | m :: rest =>
      match export_values m with
      | inl e => inl e
      | inr values =>
          match export_rows rest with
          | inl e => inl e
          | inr text => inr (String.append (csv_row values) text)
          end
      end
  end.

Definition csv_header : string :=
  csv_row [PyStr "Old URL"; PyStr "New URL"; PyStr "Confidence"; PyStr "Reason"].

Definition export_csv (matches : list PyVal) : Exn + string :=
  match export_rows matches with
  | inl e => inl e
  | inr text => inr (String.append csv_header text)
  end.

(** The rows of records that all can be exported. *)
Definition rows_of (matches : list PyVal) : list string :=
  flat_map (fun m => match export_values m with
                     | inr values => [csv_row values]
                     | inl _ => []
                     end) matches.

End CsvExport.

(** ** The handler of the start button

    The session state, the button with the condition that disables it, the
    two guards of the handler, and the branch that runs with a key and both
    lists present.  The calls that only write on the page when things go
    well (headers, columns, messages of success, the list of the URLs that
    need authentication) are left out: nothing is read back from them.
    What is kept is the session state, every collaborator call of the crawl
    and of the matching, the errors shown with [st.error], and the [try],
    [except] and [finally] around them. *)

Record Session : Type := mkSession
  { st_matches : list PyVal;
    st_crawl_results_old : list ContentSignal;
    st_crawl_results_new : list ContentSignal;
    st_processing : bool;
    st_processing_complete : bool;
    st_auth_required_urls : list string;
    st_credentials : option Credentials }.

Definition set_matches (v : list PyVal) (s : Session) : Session :=
  mkSession v (st_crawl_results_old s) (st_crawl_results_new s)
    (st_processing s) (st_processing_complete s) (st_auth_required_urls s)
    (st_credentials s).

Definition set_crawl_results_old (v : list ContentSignal) (s : Session)
  : Session :=
  mkSession (st_matches s) v (st_crawl_results_new s)
    (st_processing s) (st_processing_complete s) (st_auth_required_urls s)
    (st_credentials s).

Definition set_crawl_results_new (v : list ContentSignal) (s : Session)
  : Session :=
  mkSession (st_matches s) (st_crawl_results_old s) v
    (st_processing s) (st_processing_complete s) (st_auth_required_urls s)
    (st_credentials s).

Definition set_processing (v : bool) (s : Session) : Session :=
  mkSession (st_matches s) (st_crawl_results_old s) (st_crawl_results_new s)
    v (st_processing_complete s) (st_auth_required_urls s) (st_credentials s).

Definition set_processing_complete (v : bool) (s : Session) : Session :=
  mkSession (st_matches s) (st_crawl_results_old s) (st_crawl_results_new s)
    (st_processing s) v (st_auth_required_urls s) (st_credentials s).

Definition set_auth_required_urls (v : list string) (s : Session) : Session :=
  mkSession (st_matches s) (st_crawl_results_old s) (st_crawl_results_new s)
    (st_processing s) (st_processing_complete s) v (st_credentials s).

Definition set_credentials (v : option Credentials) (s : Session) : Session :=
  mkSession (st_matches s) (st_crawl_results_old s) (st_crawl_results_new s)
    (st_processing s) (st_processing_complete s) (st_auth_required_urls s) v.

(** The credentials the sidebar stores: the pair when both fields are
    filled in, the empty dictionary, which counts as no credentials,
    otherwise. *)
Definition sidebar_credentials (auth_username auth_password : string)
  : option Credentials :=
  if negb (is_empty auth_username) && negb (is_empty auth_password)
  then Some (mkCredentials auth_username auth_password)
  else None.

(** Computations that also read and write the session state; what was
    written before an exception stays written. *)
Definition R (A : Type) : Type :=
  Session -> Trace -> (Exn + A) * Session * Trace.

Definition rret {A} (a : A) : R A := fun s tr => (inr a, s, tr).

Definition rbind {A B} (c : R A) (k : A -> R B) : R B :=
  fun s tr =>
    match c s tr with
    | (inr a, s', tr') => k a s' tr'
    | (inl e, s', tr') => (inl e, s', tr')
    end.

(** A computation that leaves the session state alone. *)
Definition run {A} (c : M A) : R A :=
  fun s tr => let '(r, tr') := c tr in (r, s, tr').

Definition get : R Session := fun s tr => (inr s, s, tr).

Definition modify (f : Session -> Session) : R unit :=
  fun s tr => (inr tt, f s, tr).

Declare Scope run_scope.
Delimit Scope run_scope with run.
Notation "x <== c1 ;; c2" := (rbind c1 (fun x => c2))
  (at level 61, c1 at next level, right associativity) : run_scope.
Notation "c1 ;;; c2" := (rbind c1 (fun _ => c2))
  (at level 61, right associativity) : run_scope.

Section Handler.

Variable requests_get :
  Trace -> string -> string -> option Credentials -> Exn + Soup.
Variable generate_content : Trace -> string -> string -> Exn + option string.
Variable json_loads : string -> Exn + PyVal.

(** [genai.Client(api_key=api_key)]: the client, or the exception raised
    when it cannot be made. *)
Variable new_client : string -> Exn + unit.

Local Open Scope run_scope.

(** One column of the crawling phase: the crawl of a list, its results
    stored by [store], and the URLs that need authentication added to the
    session when there are any. *)
Definition crawl_column (url_list : list string)
    (creds : option Credentials)
    (store : list ContentSignal -> Session -> Session)
    (stored : Session -> list ContentSignal) : R unit :=
  crawled <== run (crawl_urls requests_get url_list creds) ;;
  let '(crawl_results, auth_urls) := crawled in
  modify (store crawl_results) ;;;
  s <== get ;;
  let auth_required_count := List.length (filter needs_auth (stored s)) in
  if 0 <? auth_required_count
  then modify (fun s => set_auth_required_urls
                          (st_auth_required_urls s ++ auth_urls) s)
  else rret tt.

(** The [try] block of the handler. *)
Definition start_try (api_key model_choice : string)
    (old_urls new_urls : list string) (crawl_enabled : bool) : R unit :=
  _ <== run (lift (new_client api_key)) ;;
  data <== (if crawl_enabled
            then
              s <== get ;;
              let creds := st_credentials s in
              crawl_column old_urls creds
                set_crawl_results_old st_crawl_results_old ;;;
              crawl_column new_urls creds
                set_crawl_results_new st_crawl_results_new ;;;
              s <== get ;;
              rret (CrawlResults (st_crawl_results_old s)
                      (st_crawl_results_new s))
            else rret (UrlLists old_urls new_urls)) ;;
  matches <== run (match_urls generate_content json_loads model_choice data) ;;
  modify (set_matches matches) ;;;
  modify (set_processing_complete true).

(** The [else] branch of the handler, which runs with a key and both
    lists: the resets, the [try] block, [except], which shows the error,
    and [finally]. *)
Definition start_matching (api_key model_choice : string)
    (old_urls new_urls : list string) (crawl_enabled : bool)
    (s : Session) (tr : Trace) : Session * Trace :=
  let s := set_auth_required_urls []
             (set_matches []
                (set_processing_complete false (set_processing true s))) in
  let '(outcome, s, tr) :=
    start_try api_key model_choice old_urls new_urls crawl_enabled s tr in
  let '(s, tr) :=
    match outcome with
    | inr _ => (s, tr)
    | inl e =>
        (set_processing_complete false s,
         tr ++ [(CallStError (fstr ["Error: "; exc_str e]), ReplyNone)])
    end in
  (set_processing false s, tr).

(** [if x] for an uploaded file: [None] when nothing is uploaded. *)
Definition uploaded (file : option string) : bool :=
  match file with Some _ => true | None => false end.

(** [st.session_state.processing or not (old_file and new_file and
    api_key)] *)
Definition start_button_disabled (api_key : string)
    (old_file new_file : option string) (s : Session) : bool :=
  st_processing s
  || negb (uploaded old_file && uploaded new_file && negb (is_empty api_key)).

(** [if st.button("Start Matching", ..., disabled=start_button_disabled):]
    and the handler under it.  [clicked] says whether the user pressed the
    button; a disabled button is never reported as pressed.  An uploaded
    file is given by its decoded text, from which the list of URLs was
    read with [parse_urls]. *)
Definition start_button (clicked : bool) (api_key model_choice : string)
    (old_file new_file : option string) (crawl_enabled : bool)
    (s : Session) (tr : Trace) : Session * Trace :=
  if clicked && negb (start_button_disabled api_key old_file new_file s)
  then
    if is_empty api_key
    then (s, tr ++ [(CallStError
                       "Please enter your Google AI Studio API key in the sidebar",
                     ReplyNone)])
    else
      match old_file, new_file with
      | Some old_text, Some new_text =>
          start_matching api_key model_choice
            (parse_urls old_text) (parse_urls new_text) crawl_enabled s tr
      | _, _ =>
          (s, tr ++ [(CallStError "Please upload both old and new URL files",
                      ReplyNone)])
      end
  else (s, tr).

End Handler.


Definition any_client (_ : string) : Exn + unit := inr tt.

(** A session as the script initialises it. *)
Definition fresh_session : Session :=
  mkSession [] [] [] false false [] None.

(** A session after an earlier run that found a match and a URL that
    needs authentication. *)
Definition earlier_session : Session :=
  mkSession [sample_match] [] [] false true ["https://old.example/locked"] None.

(** An HTTP collaborator that serves the sample page at every URL but
    [locked], which it answers with the status 403. *)
Definition locked_at (locked : string) (_ : Trace) (url _ : string)
    (_ : option Credentials) : Exn + Soup :=
  if String.eqb url locked
  then inl (mkExn (HTTPError 403)
              (fstr ["403 Client Error: Forbidden for url: "; url]))
  else inr sample_soup.

(** ** More sample values *)

Definition sample_urls : list string :=
  ["https://old.example/a"; "https://old.example/b"].

(** A reply that is a JSON object, and [json.loads] on it. *)
Definition object_text : string :=
  fstr ["{"; quoted "matches"; ": []}"].

Definition object_generate (_ : Trace) (_ _ : string) : Exn + option string :=
  inr (Some object_text).

Definition object_json_loads (s : string) : Exn + PyVal :=
  if String.eqb s object_text then inr (PyDict [("matches", PyList [])])
  else no_json s.

(** A row writer for rows of plain strings without commas, quotes or line
    breaks: the strings joined by commas and ended by the line
    terminator. *)
Definition plain_row (values : list PyVal) : string :=
  String.append
    (join "," (map (fun v => match v with PyStr s => s | _ => EmptyString end)
                 values))
    (String "013" (String "010" EmptyString)).

(** A record whose four fields are strings. *)
Definition text_record : PyVal :=
  PyDict [("oldUrl", PyStr "https://old.example/a");
          ("newUrl", PyStr "https://new.example/a");
          ("confidence", PyStr "0.95"); ("reason", PyStr "slug match")].

(** * The helpers on sample values *)

Example strip_sample :
  strip (String.append nl "  [1, 2] ") = "[1, 2]".
Proof. reflexivity. Qed.

Example replace_sample : replace "ab" "-" "cababab." = "c---.".
Proof. reflexivity. Qed.

Example clean_sample :
  clean (Some (fstr ["```json"; nl; "[]"; nl; "```"])) = inr "[]".
Proof. reflexivity. Qed.

Example batch_size_flash : batch_size_for "gemini-3-flash-preview" = 100.
Proof. reflexivity. Qed.

Example batch_size_pro : batch_size_for "gemini-3-pro-preview" = 50.
Proof. reflexivity. Qed.

Example integer_confidence_high :
  is_high (PyDict [("confidence", PyInt 1)]) = inr true.
Proof. reflexivity. Qed.

Example text_confidence_raises :
  exists e, is_high (PyDict [("confidence", PyStr "0.9")]) = inl e.
Proof. eexists. reflexivity. Qed.

(** * Facts about the fetcher *)

Section FetcherFacts.

Variable requests_get :
  Trace -> string -> string -> option Credentials -> Exn + Soup.

Lemma fetch_on_page url retry_count max_retries credentials tr soup :
  requests_get tr url (user_agent retry_count) credentials = inr soup ->
  fetch_page_content requests_get url retry_count max_retries credentials tr
  = (inr (extract url soup),
     tr ++ [attempt_event requests_get url retry_count credentials tr]).
Proof.
  intros Hget. rewrite fetch_page_content_equation_1.
  unfold try_except, fetch_try, bind, http_get, ret, attempt_event.
  now rewrite Hget.
Qed.

Lemma fetch_on_timeout_retry url retry_count max_retries credentials tr e :
  requests_get tr url (user_agent retry_count) credentials = inl e ->
  exc_class e = Timeout ->
  retry_count < max_retries ->
  fetch_page_content requests_get url retry_count max_retries credentials tr
  = fetch_page_content requests_get url (retry_count + 1) max_retries credentials
      (tr ++ [attempt_event requests_get url retry_count credentials tr]
          ++ [(CallSleep (inject_Z (2 ^ Z.of_nat retry_count)), ReplyNone)]).
Proof.
  intros Hget Hcls Hlt. rewrite fetch_page_content_equation_1.
  unfold try_except, fetch_try, bind, http_get, ret, attempt_event.
  rewrite Hget, Hcls.
  destruct (lt_dec retry_count max_retries) as [_ | Hge]; [| lia].
  unfold tell. now rewrite <- app_assoc.
Qed.

Lemma fetch_on_timeout_last url retry_count max_retries credentials tr e :
  requests_get tr url (user_agent retry_count) credentials = inl e ->
  exc_class e = Timeout ->
  ~ retry_count < max_retries ->
  fetch_page_content requests_get url retry_count max_retries credentials tr
  = (inr (no_content url failed "Timeout"),
     tr ++ [attempt_event requests_get url retry_count credentials tr]).
Proof.
  intros Hget Hcls Hge. rewrite fetch_page_content_equation_1.
  unfold try_except, fetch_try, bind, http_get, ret, attempt_event.
  rewrite Hget, Hcls.
  destruct (lt_dec retry_count max_retries) as [Hlt | _]; [contradiction |].
  reflexivity.
Qed.

Lemma fetch_on_auth_status url retry_count max_retries credentials tr e code :
  requests_get tr url (user_agent retry_count) credentials = inl e ->
  exc_class e = HTTPError code ->
  auth_status code = true ->
  fetch_page_content requests_get url retry_count max_retries credentials tr
  = (inr (no_content url auth_required
            (fstr ["Authentication required (HTTP "; str_of_nat code; ")"])),
     tr ++ [attempt_event requests_get url retry_count credentials tr]).
Proof.
  intros Hget Hcls Hauth. rewrite fetch_page_content_equation_1.
  unfold try_except, fetch_try, bind, http_get, ret, attempt_event.
  now rewrite Hget, Hcls, Hauth.
Qed.

Lemma fetch_on_status_retry url retry_count max_retries credentials tr e code :
  requests_get tr url (user_agent retry_count) credentials = inl e ->
  exc_class e = HTTPError code ->
  auth_status code = false ->
  retry_count < max_retries ->
  retryable_status code = true ->
  fetch_page_content requests_get url retry_count max_retries credentials tr
  = fetch_page_content requests_get url (retry_count + 1) max_retries credentials
      (tr ++ [attempt_event requests_get url retry_count credentials tr]
          ++ [(CallSleep (inject_Z (3 ^ Z.of_nat retry_count)), ReplyNone)]).
Proof.
  intros Hget Hcls Hauth Hlt Hretry. rewrite fetch_page_content_equation_1.
  unfold try_except, fetch_try, bind, http_get, ret, attempt_event.
  rewrite Hget, Hcls, Hauth.
  destruct (lt_dec retry_count max_retries) as [_ | Hge]; [| lia].
  rewrite Hretry. unfold tell. now rewrite <- app_assoc.
Qed.

Lemma fetch_on_status_last url retry_count max_retries credentials tr e code :
  requests_get tr url (user_agent retry_count) credentials = inl e ->
  exc_class e = HTTPError code ->
  auth_status code = false ->
  ~ (retry_count < max_retries /\ retryable_status code = true) ->
  fetch_page_content requests_get url retry_count max_retries credentials tr
  = (inr (no_content url failed (fstr ["HTTP "; str_of_nat code])),
     tr ++ [attempt_event requests_get url retry_count credentials tr]).
Proof.
  intros Hget Hcls Hauth Hno. rewrite fetch_page_content_equation_1.
  unfold try_except, fetch_try, bind, http_get, ret, attempt_event.
  rewrite Hget, Hcls, Hauth.
  destruct (lt_dec retry_count max_retries) as [Hlt | _]; [| reflexivity].
  destruct (retryable_status code); [| reflexivity].
  exfalso. apply Hno. now split.
Qed.

Lemma fetch_on_other url retry_count max_retries credentials tr e :
  requests_get tr url (user_agent retry_count) credentials = inl e ->
  exc_class e = OtherException ->
  fetch_page_content requests_get url retry_count max_retries credentials tr
  = (inr (no_content url failed (slice_to 100 (exc_str e))),
     tr ++ [attempt_event requests_get url retry_count credentials tr]).
Proof.
  intros Hget Hcls. rewrite fetch_page_content_equation_1.
  unfold try_except, fetch_try, bind, http_get, ret, attempt_event.
  now rewrite Hget, Hcls.
Qed.

Lemma delivers_later url credentials tr mid out :
  delivers url credentials (tr ++ mid) out -> delivers url credentials tr out.
Proof.
  intros (page & earlier & ua & r & -> & Hpage).
  exists page, (mid ++ earlier), ua, r. now rewrite <- !app_assoc.
Qed.

Lemma delivers_now url retry_count credentials tr page :
  page = signal_of url
           (requests_get tr url (user_agent retry_count) credentials) ->
  delivers url credentials tr
    (inr page, tr ++ [attempt_event requests_get url retry_count credentials tr]).
Proof.
  intros ->. eexists _, [], _, _. split; reflexivity.
Qed.

Lemma fetch_delivers budget :
  forall url retry_count max_retries credentials tr,
    max_retries - retry_count <= budget ->
    delivers url credentials tr
      (fetch_page_content requests_get url retry_count max_retries credentials tr).
Proof.
  induction budget as [| budget IH]; intros url rc mr creds tr Hb.
  all: destruct (requests_get tr url (user_agent rc) creds) as [e | soup] eqn:Hget.
  all: try (rewrite (fetch_on_page _ _ _ _ _ _ Hget);
            apply delivers_now; now rewrite Hget).
  all: destruct (exc_class e) as [| code |] eqn:Hcls.
  all: try (rewrite (fetch_on_other _ _ _ _ _ _ Hget Hcls);
            apply delivers_now; rewrite Hget; simpl; now rewrite Hcls).
  all: try (destruct (auth_status code) eqn:Hauth;
            [ rewrite (fetch_on_auth_status _ _ _ _ _ _ _ Hget Hcls Hauth);
              apply delivers_now; rewrite Hget; simpl; now rewrite Hcls, Hauth
            | ]).
  - rewrite (fetch_on_timeout_last _ _ _ _ _ _ Hget Hcls) by lia.
    apply delivers_now; rewrite Hget; simpl; now rewrite Hcls.
  - rewrite (fetch_on_status_last _ _ _ _ _ _ _ Hget Hcls Hauth) by lia.
    apply delivers_now; rewrite Hget; simpl; now rewrite Hcls, Hauth.
  - destruct (lt_dec rc mr) as [Hlt | Hge].
    + rewrite (fetch_on_timeout_retry _ _ _ _ _ _ Hget Hcls Hlt).
      rewrite app_assoc. eapply delivers_later.
      rewrite <- app_assoc. apply IH. lia.
    + rewrite (fetch_on_timeout_last _ _ _ _ _ _ Hget Hcls Hge).
      apply delivers_now; rewrite Hget; simpl; now rewrite Hcls.
  - destruct (lt_dec rc mr) as [Hlt | Hge];
      [destruct (retryable_status code) eqn:Hretry |].
    + rewrite (fetch_on_status_retry _ _ _ _ _ _ _ Hget Hcls Hauth Hlt Hretry).
      rewrite app_assoc. eapply delivers_later.
      rewrite <- app_assoc. apply IH. lia.
    + rewrite (fetch_on_status_last _ _ _ _ _ _ _ Hget Hcls Hauth)
        by (intros [_ H]; congruence).
      apply delivers_now; rewrite Hget; simpl; now rewrite Hcls, Hauth.
    + rewrite (fetch_on_status_last _ _ _ _ _ _ _ Hget Hcls Hauth)
        by (intros [H _]; contradiction).
      apply delivers_now; rewrite Hget; simpl; now rewrite Hcls, Hauth.
Qed.

Lemma signal_of_url url r : cs_url (signal_of url r) = url.
Proof.
  destruct r as [e | soup]; simpl; [| reflexivity].
  destruct (exc_class e) as [| code |]; try reflexivity.
  now destruct (auth_status code).
Qed.

Lemma signal_of_well_formed url r : well_formed_signal (signal_of url r).
Proof.
  unfold well_formed_signal.
  destruct r as [e | soup]; simpl; [| reflexivity].
  destruct (exc_class e) as [| code |]; simpl; eauto.
  destruct (auth_status code); simpl; eauto.
Qed.

(** C3: [fetch_page_content] never raises.  Whatever the HTTP collaborator
    does, for every URL, retry state and credentials the call returns a
    result for that URL; the result is the one standing for the reply to
    the last attempt, so every failure is written into [status] and
    [error]; and when that reply is an exception other than a timeout or
    an HTTP error, the status is [failed] and the error detail is the first
    100 characters of the exception's message. *)
Theorem fetch_never_raises url retry_count max_retries credentials tr :
  exists page earlier ua r,
    fetch_page_content requests_get url retry_count max_retries credentials tr
    = (inr page, tr ++ earlier ++ [(CallGet url ua credentials, ReplyPage r)])
    /\ page = signal_of url r
    /\ cs_url page = url
    /\ well_formed_signal page
    /\ (forall e, r = inl e -> exc_class e = OtherException ->
          cs_status page = failed
          /\ cs_error page = Some (slice_to 100 (exc_str e))).
Proof.
  destruct (fetch_delivers (max_retries - retry_count) url retry_count
              max_retries credentials tr (Nat.le_refl _))
    as (page & earlier & ua & r & Hrun & Hpage).
  exists page, earlier, ua, r. split; [exact Hrun |].
  split; [exact Hpage |]. subst page.
  split; [apply signal_of_url |].
  split; [apply signal_of_well_formed |].
  intros e -> Hcls. simpl. rewrite Hcls. now split.
Qed.

(** The calls made when every attempt times out. *)
Lemma fetch_all_timeouts url credentials
    (Hdown : forall h ua, raises_timeout (requests_get h url ua credentials))
    budget :
  forall retry_count max_retries tr,
    max_retries - retry_count <= budget ->
    retry_count <= max_retries ->
    exists new_events,
      fetch_page_content requests_get url retry_count max_retries credentials tr
      = (inr (no_content url failed "Timeout"), tr ++ new_events)
      /\ map fst new_events
         = timeout_schedule url credentials retry_count max_retries.
Proof.
  induction budget as [| budget IH]; intros rc mr tr Hb Hle.
  all: destruct (Hdown tr (user_agent rc)) as (e & Hget & Hcls).
  - rewrite (fetch_on_timeout_last _ _ _ _ _ _ Hget Hcls) by lia.
    eexists; split; [reflexivity |].
    unfold timeout_schedule. replace (mr - rc) with 0 by lia.
    replace mr with rc by lia. reflexivity.
  - destruct (lt_dec rc mr) as [Hlt | Hge].
    + rewrite (fetch_on_timeout_retry _ _ _ _ _ _ Hget Hcls Hlt).
      destruct (IH (rc + 1) mr
                  (tr ++ [attempt_event requests_get url rc credentials tr]
                      ++ [(CallSleep (inject_Z (2 ^ Z.of_nat rc)), ReplyNone)]))
        as (ev & Hrun & Hcalls); [lia | lia |].
      rewrite Hrun.
      exists (attempt_event requests_get url rc credentials tr
              :: (CallSleep (inject_Z (2 ^ Z.of_nat rc)), ReplyNone) :: ev).
      split; [now rewrite <- app_assoc |].
      simpl. rewrite Hcalls. unfold timeout_schedule.
      replace (mr - rc) with (S (mr - (rc + 1))) by lia.
      replace (rc + 1) with (S rc) by lia. reflexivity.
    + rewrite (fetch_on_timeout_last _ _ _ _ _ _ Hget Hcls Hge).
      eexists; split; [reflexivity |].
      unfold timeout_schedule. replace (mr - rc) with 0 by lia.
      replace mr with rc by lia. reflexivity.
Qed.

Lemma attempts_schedule url credentials n :
  forall retry_count,
    filter is_get
      (flat_map (fun k => [CallGet url (user_agent k) credentials;
                           CallSleep (inject_Z (2 ^ Z.of_nat k))])
         (seq retry_count n))
    = map (fun k => CallGet url (user_agent k) credentials) (seq retry_count n).
Proof.
  induction n as [| n IH]; intros rc; simpl; [reflexivity |].
  now rewrite IH.
Qed.

Lemma sleeps_schedule url credentials n :
  forall retry_count,
    flat_map (fun c => match c with CallSleep d => [d] | _ => [] end)
      (flat_map (fun k => [CallGet url (user_agent k) credentials;
                           CallSleep (inject_Z (2 ^ Z.of_nat k))])
         (seq retry_count n))
    = map (fun k => inject_Z (2 ^ Z.of_nat k)) (seq retry_count n).
Proof.
  induction n as [| n IH]; intros rc; simpl; [reflexivity |].
  now rewrite IH.
Qed.

(** C4: when the request for a URL times out at every attempt, a fetch
    started at attempt 0 makes exactly [max_retries + 1] attempts, pauses
    [2 ^ k] before retrying attempt [k] (for [k] from 0 to
    [max_retries - 1]), and returns status [failed] with error detail
    "Timeout".  With the default [max_retries = 3] that is four attempts
    and the pauses 1, 2 and 4. *)
Theorem fetch_timeout_attempts url credentials max_retries tr
    (Hdown : forall h ua, raises_timeout (requests_get h url ua credentials)) :
  exists new_events,
    fetch_page_content requests_get url 0 max_retries credentials tr
    = (inr (no_content url failed "Timeout"), tr ++ new_events)
    /\ map fst new_events = timeout_schedule url credentials 0 max_retries
    /\ List.length (attempts new_events) = max_retries + 1
    /\ sleeps new_events
       = map (fun k => inject_Z (2 ^ Z.of_nat k)) (seq 0 max_retries).
Proof.
  destruct (fetch_all_timeouts url credentials Hdown max_retries 0 max_retries tr)
    as (ev & Hrun & Hcalls); [lia | lia |].
  exists ev. split; [exact Hrun |]. split; [exact Hcalls |].
  unfold attempts, sleeps. rewrite Hcalls. unfold timeout_schedule.
  rewrite Nat.sub_0_r. split.
  - rewrite filter_app, attempts_schedule, length_app, length_map, length_seq.
    reflexivity.
  - rewrite flat_map_app, sleeps_schedule. simpl. apply app_nil_r.
Qed.

(** C5: when the reply to an attempt is an HTTP error with status 401 or
    403, the fetch returns status [auth_required] at once: that attempt is
    the only call it makes, whatever the retry count and the retry budget,
    and no pause is taken. *)
Theorem fetch_auth_required_no_retry url retry_count max_retries credentials
    tr e code :
  requests_get tr url (user_agent retry_count) credentials = inl e ->
  exc_class e = HTTPError code ->
  code = 401 \/ code = 403 ->
  exists new_events,
    fetch_page_content requests_get url retry_count max_retries credentials tr
    = (inr (no_content url auth_required
              (fstr ["Authentication required (HTTP "; str_of_nat code; ")"])),
       tr ++ new_events)
    /\ map fst new_events
       = [CallGet url (user_agent retry_count) credentials]
    /\ List.length (attempts new_events) = 1
    /\ sleeps new_events = [].
Proof.
  intros Hget Hcls Hcode.
  assert (Hauth : auth_status code = true) by (destruct Hcode; now subst).
  rewrite (fetch_on_auth_status _ _ _ _ _ _ _ Hget Hcls Hauth).
  eexists; split; [reflexivity |]. repeat split.
Qed.

End FetcherFacts.

(** * Facts about the crawl loop *)

Section CrawlFacts.

Variable requests_get :
  Trace -> string -> string -> option Credentials -> Exn + Soup.

Lemma filter_by_result (pages : list ContentSignal) :
  map fst (filter (fun p => needs_auth (snd p))
             (combine (map cs_url pages) pages))
  = map cs_url (filter needs_auth pages).
Proof.
  induction pages as [| page rest IH]; simpl; [reflexivity |].
  destruct (needs_auth page); simpl; now rewrite IH.
Qed.

Lemma replies_agree_app history events more :
  replies_agree requests_get history events ->
  replies_agree requests_get (history ++ events) more ->
  replies_agree requests_get history (events ++ more).
Proof.
  revert history.
  induction events as [| event events IH]; intros history Hevents Hmore.
  - now rewrite app_nil_r in Hmore.
  - destruct Hevents as (Hevent & Hevents). split; [exact Hevent |].
    apply IH; [exact Hevents |]. now rewrite <- app_assoc.
Qed.

(** One attempt of the fetcher: the request, and then either the retry
    after the pause or the result standing for the reply. *)
Lemma fetch_attempt url retry_count max_retries credentials tr :
  fetch_page_content requests_get url retry_count max_retries credentials tr
  = match retry_base (requests_get tr url (user_agent retry_count) credentials)
    with
    | Some base =>
        if retry_count <? max_retries
        then fetch_page_content requests_get url (retry_count + 1) max_retries
               credentials
               (tr ++ [attempt_event requests_get url retry_count credentials tr]
                   ++ [(CallSleep (inject_Z (base ^ Z.of_nat retry_count)),
                        ReplyNone)])
        else (inr (signal_of url
                     (requests_get tr url (user_agent retry_count) credentials)),
              tr ++ [attempt_event requests_get url retry_count credentials tr])
    | None =>
        (inr (signal_of url
                (requests_get tr url (user_agent retry_count) credentials)),
         tr ++ [attempt_event requests_get url retry_count credentials tr])
    end.
Proof.
  destruct (requests_get tr url (user_agent retry_count) credentials)
    as [e | soup] eqn:Hget; simpl.
  - destruct (exc_class e) as [| code |] eqn:Hcls.
    + destruct (Nat.ltb_spec retry_count max_retries) as [Hlt | Hge].
      * apply (fetch_on_timeout_retry _ _ _ _ _ _ _ Hget Hcls Hlt).
      * apply (fetch_on_timeout_last _ _ _ _ _ _ _ Hget Hcls). lia.
    + destruct (auth_status code) eqn:Hauth.
      * apply (fetch_on_auth_status _ _ _ _ _ _ _ _ Hget Hcls Hauth).
      * destruct (retryable_status code) eqn:Hretry;
          [destruct (Nat.ltb_spec retry_count max_retries) as [Hlt | Hge] |].
        -- apply (fetch_on_status_retry _ _ _ _ _ _ _ _ Hget Hcls Hauth Hlt Hretry).
        -- apply (fetch_on_status_last _ _ _ _ _ _ _ _ Hget Hcls Hauth).
           intros [Hlt _]. lia.
        -- apply (fetch_on_status_last _ _ _ _ _ _ _ _ Hget Hcls Hauth).
           intros [_ H]. congruence.
    + apply (fetch_on_other _ _ _ _ _ _ _ Hget Hcls).
  - apply (fetch_on_page _ _ _ _ _ _ _ Hget).
Qed.

(** Every fetch returns the result standing for the reply to its last
    attempt; its events have the shape [fetch_events], and the replies
    recorded in them are the collaborator's. *)
Lemma fetch_run url credentials budget :
  forall retry_count max_retries tr,
    max_retries - retry_count <= budget ->
    exists fetched last,
      fetch_page_content requests_get url retry_count max_retries credentials tr
      = (inr (signal_of url last), tr ++ fetched)
      /\ fetch_events url credentials max_retries retry_count fetched last
      /\ replies_agree requests_get tr fetched.
Proof.
  induction budget as [| budget IH]; intros rc mr tr Hb.
  all: rewrite fetch_attempt.
  all: destruct (retry_base (requests_get tr url (user_agent rc) credentials))
         as [base |] eqn:Hbase.
  all: try destruct (Nat.ltb_spec rc mr) as [Hlt | Hge]; try lia.
  all: try (exists [attempt_event requests_get url rc credentials tr],
              (requests_get tr url (user_agent rc) credentials);
            split; [reflexivity |];
            split; [constructor; (now left) || (right; lia) | now split]).
  destruct (IH (rc + 1) mr
              (tr ++ [attempt_event requests_get url rc credentials tr]
                  ++ [(CallSleep (inject_Z (base ^ Z.of_nat rc)), ReplyNone)]))
    as (fetched & last & Hrun & Hshape & Hagree); [lia |].
  rewrite Hrun.
  exists (attempt_event requests_get url rc credentials tr
          :: (CallSleep (inject_Z (base ^ Z.of_nat rc)), ReplyNone) :: fetched),
    last.
  split; [now rewrite <- !app_assoc |]. split.
  - apply fetch_retries with (r := requests_get tr url (user_agent rc) credentials);
      [exact Hbase | exact Hlt |].
    now replace (S rc) with (rc + 1) by lia.
  - split; [reflexivity |]. split; [exact I |].
    now rewrite <- app_assoc.
Qed.

(** One turn of the loop: the fetch of the URL, and its result appended. *)
Lemma crawl_step_run total credentials i url results auth_urls tr :
  exists fetched last,
    crawl_step requests_get total credentials (i, url) (results, auth_urls) tr
    = (inr (results ++ [signal_of url last],
            if needs_auth (signal_of url last)
            then auth_urls ++ [url] else auth_urls),
       tr ++ crawl_turn_events total i url fetched)
    /\ fetch_events url credentials 3 0 fetched last
    /\ replies_agree requests_get tr (crawl_turn_events total i url fetched).
Proof.
  unfold crawl_step, bind, tell, fetch.
  match goal with
  | |- context [fetch_page_content requests_get url 0 3 credentials ?t] =>
      destruct (fetch_run url credentials 3 0 3 t (Nat.le_refl _))
        as (fetched & last & Hrun & Hshape & Hagree)
  end.
  rewrite Hrun. exists fetched, last. split; [| split; [exact Hshape |]].
  - unfold ret, crawl_turn_events. rewrite <- !app_assoc. reflexivity.
  - unfold crawl_turn_events. split; [exact I |]. split; [exact I |].
    apply replies_agree_app; [exact Hagree | now split].
Qed.

Lemma crawl_results_urls credentials url_list fetches :
  fetches_of credentials url_list fetches ->
  map cs_url (crawl_results url_list fetches) = url_list.
Proof.
  unfold crawl_results.
  induction 1 as [| url run urls runs _ _ IH]; [reflexivity |].
  simpl. now rewrite signal_of_url, IH.
Qed.

(** The whole loop: one fetch for each URL, in input order, and the result
    of each appended in that order. *)
Lemma crawl_loop_run total credentials url_list :
  forall first results auth_urls tr,
  exists fetches,
    for_loop (combine (seq first (List.length url_list)) url_list)
      (crawl_step requests_get total credentials) (results, auth_urls) tr
    = (inr (results ++ crawl_results url_list fetches,
            auth_urls
            ++ map cs_url (filter needs_auth (crawl_results url_list fetches))),
       tr ++ crawl_events total first url_list fetches)
    /\ fetches_of credentials url_list fetches
    /\ replies_agree requests_get tr (crawl_events total first url_list fetches).
Proof.
  induction url_list as [| url rest IH]; intros first results auth_urls tr.
  - exists []. simpl. unfold ret. rewrite !app_nil_r.
    split; [reflexivity |]. split; constructor.
  - cbn [for_loop combine seq List.length]. unfold bind at 1.
    destruct (crawl_step_run total credentials first url results auth_urls tr)
      as (fetched & last & Hstep & Hshape & Hagree).
    rewrite Hstep.
    destruct (IH (S first) (results ++ [signal_of url last])
                (if needs_auth (signal_of url last)
                 then auth_urls ++ [url] else auth_urls)
                (tr ++ crawl_turn_events total first url fetched))
      as (fetches & Hloop & Hfetches & Hagrees).
    rewrite Hloop. exists ((fetched, last) :: fetches).
    split; [| split].
    + unfold crawl_results. cbn [combine map fst snd crawl_events].
      fold (crawl_results rest fetches).
      rewrite <- !app_assoc. cbn [app filter].
      destruct (needs_auth (signal_of url last)); [| reflexivity].
      cbn [map]. now rewrite signal_of_url, <- app_assoc.
    + constructor; [exact Hshape | exact Hfetches].
    + cbn [crawl_events fst]. now apply replies_agree_app.
Qed.

(** A crawl is one fetch for each URL of the list, in input order; its
    results are the results of these fetches and its second list the URLs
    among them that need authentication. *)
Lemma crawl_urls_fetches url_list credentials tr :
  exists fetches,
    crawl_urls requests_get url_list credentials tr
    = (inr (crawl_results url_list fetches,
            map cs_url (filter needs_auth (crawl_results url_list fetches))),
       tr ++ crawl_events (List.length url_list) 0 url_list fetches)
    /\ fetches_of credentials url_list fetches
    /\ replies_agree requests_get tr
         (crawl_events (List.length url_list) 0 url_list fetches).
Proof.
  unfold crawl_urls, enumerate.
  apply (crawl_loop_run (List.length url_list) credentials url_list 0 [] [] tr).
Qed.

Lemma in_filtered_urls (url_list : list string) results url :
  In url (map fst (filter (fun p => needs_auth (snd p))
                     (combine url_list results)))
  <-> exists page,
        In (url, page) (combine url_list results)
        /\ cs_status page = auth_required.
Proof.
  rewrite in_map_iff. split.
  - intros ([u page] & <- & Hin). apply filter_In in Hin as (Hin & Hauth).
    exists page. split; [exact Hin |].
    unfold needs_auth in Hauth. simpl in Hauth.
    now destruct (cs_status page).
  - intros (page & Hin & Hstatus). exists (url, page). split; [reflexivity |].
    apply filter_In. split; [exact Hin |].
    unfold needs_auth. simpl. now rewrite Hstatus.
Qed.

(** C2: for every list of URLs, [crawl_urls] returns, and what it returns
    comes from one fetch for each URL of the list, made in input order:
    the events of the crawl are the turns for the URLs in order, each
    around the fetch of its URL, and the replies recorded are those of the
    HTTP collaborator.  The results are as many as the URLs; the i-th
    result is the result of the fetch of the i-th URL, the one standing for
    the reply to its last attempt, and carries that URL; and the second
    list returned holds exactly the input URLs whose result has status
    [auth_required], in input order. *)
Theorem crawl_urls_preserves_order url_list credentials tr :
  exists results auth_urls new_events fetches,
    crawl_urls requests_get url_list credentials tr
    = (inr (results, auth_urls), tr ++ new_events)
    /\ List.length results = List.length url_list
    /\ map cs_url results = url_list
    /\ auth_urls
       = map fst (filter (fun p => needs_auth (snd p))
                    (combine url_list results))
    /\ (forall url,
          In url auth_urls
          <-> exists page,
                In (url, page) (combine url_list results)
                /\ cs_status page = auth_required)
    /\ fetches_of credentials url_list fetches
    /\ new_events = crawl_events (List.length url_list) 0 url_list fetches
    /\ replies_agree requests_get tr new_events
    /\ results = crawl_results url_list fetches.
Proof.
  destruct (crawl_urls_fetches url_list credentials tr)
    as (fetches & Hrun & Hfetches & Hagree).
  pose proof (crawl_results_urls credentials url_list fetches Hfetches) as Hurls.
  assert (Hauth : map cs_url (filter needs_auth (crawl_results url_list fetches))
                  = map fst (filter (fun p => needs_auth (snd p))
                               (combine url_list
                                  (crawl_results url_list fetches))))
    by now rewrite <- (filter_by_result (crawl_results url_list fetches)), Hurls.
  exists (crawl_results url_list fetches),
    (map cs_url (filter needs_auth (crawl_results url_list fetches))),
    (crawl_events (List.length url_list) 0 url_list fetches), fetches.
  split; [exact Hrun |].
  split; [now rewrite <- (length_map cs_url), Hurls |].
  split; [exact Hurls |].
  split; [exact Hauth |].
  split; [intros url; rewrite Hauth; apply in_filtered_urls |].
  now repeat split.
Qed.

End CrawlFacts.

(** * Facts about the batches *)

Section BatchFacts.

Context {A : Type}.
Implicit Types (items : list A) (n i : nat).

Lemma firstn_plus a b items :
  firstn (a + b) items = firstn a items ++ firstn b (skipn a items).
Proof.
  revert items; induction a as [| a IH]; intros [| x items]; simpl;
    try reflexivity.
  - now rewrite firstn_nil.
  - now rewrite IH.
Qed.

(** A batch is the window of [n] items that starts at [i * n]. *)
Lemma old_batch_window items n i :
  old_batch items n i = firstn n (skipn (i * n) items).
Proof.
  unfold old_batch, slice.
  rewrite skipn_firstn_comm.
  destruct (Nat.le_ge_cases (i * n + n) (List.length items)) as [Hin | Hout].
  - rewrite Nat.min_l by exact Hin. f_equal. lia.
  - rewrite Nat.min_r by exact Hout.
    rewrite (firstn_all2 (n := n)) by (rewrite length_skipn; lia).
    apply firstn_all2. rewrite length_skipn. lia.
Qed.

Lemma windows_concat items n k :
  List.concat (map (old_batch items n) (seq 0 k)) = firstn (k * n) items.
Proof.
  induction k as [| k IH]; [reflexivity |].
  rewrite seq_S, map_app, concat_app, IH. simpl.
  rewrite app_nil_r, old_batch_window.
  replace (n + k * n) with (k * n + n) by lia.
  now rewrite firstn_plus.
Qed.

(** The number of batches is the least [k] with [k * n >= m]. *)
Lemma total_batches_covers items n :
  0 < n -> List.length items <= total_batches items n * n.
Proof.
  intros Hn. unfold total_batches.
  pose proof (Nat.div_mod_eq (List.length items + n - 1) n) as Hdiv.
  pose proof (Nat.mod_upper_bound (List.length items + n - 1) n) as Hmod.
  nia.
Qed.

Lemma total_batches_tight items n :
  0 < n -> 0 < total_batches items n ->
  (total_batches items n - 1) * n < List.length items.
Proof.
  intros Hn Hk. unfold total_batches in *.
  pose proof (Nat.div_mod_eq (List.length items + n - 1) n) as Hdiv.
  nia.
Qed.

Lemma total_batches_ceiling items n :
  0 < n ->
  Z.of_nat (total_batches items n) = Qceiling (fraction (List.length items) n).
Proof.
  intros Hn. unfold Qceiling, Qfloor, fraction, Qopp. simpl Qnum. simpl Qden.
  assert (Hpos : Z.pos (Pos.of_nat n) = Z.of_nat n).
  { lia. }
  rewrite Hpos.
  pose proof (total_batches_covers items n Hn) as Hcover.
  set (k := total_batches items n) in *.
  assert (Hbounds : (Z.of_nat n * (- Z.of_nat k)
                     <= - Z.of_nat (List.length items)
                     < Z.of_nat n * (- Z.of_nat k + 1))%Z).
  { destruct (Nat.eq_dec k 0) as [Hk0 | Hk0].
    - rewrite Hk0 in *. lia.
    - pose proof (total_batches_tight items n Hn ltac:(unfold k in *; lia)) as Ht.
      fold k in Ht. nia. }
  assert (Hq : (- Z.of_nat (List.length items) / Z.of_nat n = - Z.of_nat k)%Z).
  { symmetry. apply Z.div_unique with
      (r := (- Z.of_nat (List.length items) - Z.of_nat n * (- Z.of_nat k))%Z);
      [left |]; lia. }
  rewrite Hq. lia.
Qed.

Lemma batches_concat items n :
  0 < n -> List.concat (batches items n) = items.
Proof.
  intros Hn. unfold batches. rewrite windows_concat. apply firstn_all2.
  now apply total_batches_covers.
Qed.

(** C6: for every list of [m] items and every positive batch size [n],
    the loop of [match_urls] cuts [ceil(m / n)] batches; batch [i] is the
    window of the items that starts at [i * n] and is at most [n] long, so
    the batches are contiguous; every batch is non-empty and of size [n],
    except that the last one may be shorter; and the batches concatenated
    in order are the original list. *)
Theorem batches_partition items n :
  0 < n ->
  Z.of_nat (List.length (batches items n))
  = Qceiling (fraction (List.length items) n)
  /\ (forall i batch,
        nth_error (batches items n) i = Some batch ->
        batch = firstn n (skipn (i * n) items)
        /\ 0 < List.length batch <= n
        /\ (S i < List.length (batches items n) -> List.length batch = n))
  /\ List.concat (batches items n) = items.
Proof.
  intros Hn. unfold batches.
  rewrite length_map, length_seq.
  split; [now apply total_batches_ceiling |]. split.
  - intros i batch Hnth.
    rewrite nth_error_map, nth_error_seq in Hnth.
    destruct (Nat.ltb_spec i (total_batches items n)) as [Hi | Hi];
      [| discriminate].
    injection Hnth as <-. simpl. rewrite old_batch_window.
    split; [reflexivity |].
    rewrite length_firstn, length_skipn.
    pose proof (total_batches_tight items n Hn ltac:(lia)) as Htight.
    split; [nia | intros Hnext; nia].
  - fold (batches items n). now apply batches_concat.
Qed.

End BatchFacts.

(** * Facts about the matching loop *)

Section MatchFacts.

Variable generate_content : Trace -> string -> string -> Exn + option string.
Variable json_loads : string -> Exn + PyVal.

Lemma generate_replies_app tr1 tr2 :
  generate_replies (tr1 ++ tr2) = generate_replies tr1 ++ generate_replies tr2.
Proof. apply flat_map_app. Qed.

Lemma prompts_app tr1 tr2 : prompts (tr1 ++ tr2) = prompts tr1 ++ prompts tr2.
Proof. unfold prompts. now rewrite map_app, flat_map_app. Qed.

(** One turn: the collaborator is asked once, with the prompt of the batch;
    the turn returns, and adds what the reply contributes. *)
Lemma match_step_returns {I} model_name (old_data : list I) build_prompt
    batch_size n_batches batch_num all_matches tr :
  exists reply new_events,
    match_step generate_content json_loads model_name old_data build_prompt
      batch_size n_batches batch_num all_matches tr
    = (inr (all_matches ++ contributed json_loads reply), tr ++ new_events)
    /\ generate_replies new_events = [reply]
    /\ prompts new_events
       = [build_prompt (old_batch old_data batch_size batch_num)].
Proof.
  unfold match_step, bind, tell, try_except, batch_try, bind, generate, lift, ret.
  match goal with
  | |- context [generate_content ?t ?m ?p] =>
      set (reply := generate_content t m p)
  end.
  exists reply. unfold contributed, yield.
  destruct reply as [e | response_text].
  - eexists. rewrite app_nil_r, <- !app_assoc. repeat split.
  - destruct (parse_matches json_loads response_text) as [e | new_items].
    + eexists. rewrite app_nil_r, <- !app_assoc. repeat split.
    + eexists. rewrite <- !app_assoc. repeat split.
Qed.

Lemma match_turns_return {I} model_name (old_data : list I) build_prompt
    batch_size n_batches count :
  forall first all_matches tr,
  exists replies new_events,
    for_loop (seq first count)
      (match_step generate_content json_loads model_name old_data build_prompt
         batch_size n_batches) all_matches tr
    = (inr (all_matches ++ List.concat (map (contributed json_loads) replies)),
       tr ++ new_events)
    /\ generate_replies new_events = replies
    /\ List.length replies = count
    /\ prompts new_events
       = map (fun k => build_prompt (old_batch old_data batch_size k))
           (seq first count).
Proof.
  induction count as [| count IH]; intros first all_matches tr.
  - exists [], []. simpl. unfold ret. now rewrite !app_nil_r.
  - cbn [for_loop seq]. unfold bind at 1.
    destruct (match_step_returns model_name old_data build_prompt batch_size
                n_batches first all_matches tr)
      as (reply & ev1 & Hstep & Hreply & Hprompt).
    rewrite Hstep.
    destruct (IH (S first) (all_matches ++ contributed json_loads reply)
                (tr ++ ev1)) as (replies & ev2 & Hloop & Hreplies & Hlen & Hprompts).
    rewrite Hloop. exists (reply :: replies), (ev1 ++ ev2).
    rewrite generate_replies_app, prompts_app, Hreply, Hreplies, Hprompt, Hprompts.
    simpl. rewrite Hlen, <- !app_assoc. repeat split.
Qed.

Lemma match_loop_returns {I} model_name (old_data : list I) build_prompt tr :
  exists new_events,
    match_loop generate_content json_loads model_name old_data build_prompt tr
    = (inr (List.concat (map (contributed json_loads)
                           (generate_replies new_events))),
       tr ++ new_events)
    /\ List.length (generate_replies new_events)
       = total_batches old_data (batch_size_for model_name)
    /\ prompts new_events
       = map build_prompt (batches old_data (batch_size_for model_name)).
Proof.
  unfold match_loop.
  destruct (match_turns_return model_name old_data build_prompt
              (batch_size_for model_name)
              (total_batches old_data (batch_size_for model_name))
              (total_batches old_data (batch_size_for model_name)) 0 [] tr)
    as (replies & ev & Hloop & Hreplies & Hlen & Hprompts).
  exists ev. rewrite Hreplies, Hloop. simpl. repeat split; [exact Hlen |].
  rewrite Hprompts. unfold batches. now rewrite map_map.
Qed.

Lemma total_batches_map {I J} (f : I -> J) (old_data : list I) batch_size :
  total_batches (map f old_data) batch_size = total_batches old_data batch_size.
Proof. unfold total_batches. now rewrite length_map. Qed.

(** The whole function: it returns, asks once per batch, and its result is
    what the replies contribute, in order. *)
Lemma match_urls_returns model_name data tr :
  exists new_events,
    match_urls generate_content json_loads model_name data tr
    = (inr (List.concat (map (contributed json_loads)
                           (generate_replies new_events))),
       tr ++ new_events)
    /\ List.length (generate_replies new_events) = n_batches_of model_name data.
Proof.
  destruct data as [old_data new_data | old_data new_data]; simpl.
  - destruct (match_loop_returns model_name (map mkUrlItem old_data)
                (fun b => url_prompt b (map mkUrlItem new_data)) tr)
      as (ev & Hrun & Hlen & _).
    exists ev. split; [exact Hrun |]. now rewrite Hlen, total_batches_map.
  - destruct (match_loop_returns model_name (filter is_success old_data)
                (fun b => crawled_prompt b new_data) tr)
      as (ev & Hrun & Hlen & _).
    exists ev. now split.
Qed.

Lemma contributed_of_yield reply items :
  yield json_loads reply = inr items -> contributed json_loads reply = items.
Proof. unfold contributed. now intros ->. Qed.




Lemma batch_size_for_positive model_name : 0 < batch_size_for model_name.
Proof. unfold batch_size_for. destruct (contains _ _); lia. Qed.

Lemma is_success_status item :
  is_success item = true <-> cs_status item = success.
Proof.
  unfold is_success. destruct (cs_status item); simpl; split;
    intros H; try reflexivity; discriminate.
Qed.

Lemma in_successes item items :
  In item (filter is_success items)
  <-> In item items /\ cs_status item = success.
Proof. now rewrite filter_In, is_success_status. Qed.

(** C8: in crawled mode the prompts sent are, batch by batch, the
    template filled with the rendering of the batch and the rendering of
    the new-side items whose status is [success]; the batches are cut from
    the old-side items whose status is [success] and together are exactly
    those items, in order.  So an item is rendered on the old side of some
    prompt exactly when it is an old item with status [success], and on the
    new side of every prompt exactly when it is a new item with status
    [success]: no [failed] or [auth_required] item is in any payload. *)
Theorem crawled_prompts_only_successes model_name old_data new_data tr :
  exists all_matches new_events,
    match_urls generate_content json_loads model_name
      (CrawlResults old_data new_data) tr
    = (inr all_matches, tr ++ new_events)
    /\ prompts new_events
       = map (fun batch =>
                crawled_template (render_items batch)
                  (render_items (filter is_success new_data)))
           (batches (filter is_success old_data) (batch_size_for model_name))
    /\ List.concat (batches (filter is_success old_data)
                      (batch_size_for model_name))
       = filter is_success old_data
    /\ (forall item,
          (exists batch,
              In batch (batches (filter is_success old_data)
                          (batch_size_for model_name))
              /\ In item batch)
          <-> In item old_data /\ cs_status item = success)
    /\ (forall item,
          In item (filter is_success new_data)
          <-> In item new_data /\ cs_status item = success).
Proof.
  destruct (match_loop_returns model_name (filter is_success old_data)
              (fun b => crawled_prompt b new_data) tr)
    as (ev & Hrun & _ & Hprompts).
  pose proof (batches_concat (filter is_success old_data)
                (batch_size_for model_name)
                (batch_size_for_positive model_name)) as Hconcat.
  eexists _, ev. split; [exact Hrun |].
  split; [exact Hprompts |]. split; [exact Hconcat |]. split.
  - intros item. rewrite <- in_successes, <- Hconcat at 1.
    rewrite in_concat. split; intros (batch & H1 & H2); now exists batch.
  - intros item. apply in_successes.
Qed.

(** C9, as the code has it: [match_urls] hands on what the collaborator's
    replies decode to, unchanged.  A value is in the returned list exactly
    when it is an element of the array decoded from one of the replies;
    nothing is validated, clamped or rejected. *)
Theorem match_urls_passes_records_through model_name data tr :
  exists all_matches new_events,
    match_urls generate_content json_loads model_name data tr
    = (inr all_matches, tr ++ new_events)
    /\ (forall m,
          In m all_matches
          <-> exists reply items,
                In reply (generate_replies new_events)
                /\ yield json_loads reply = inr items
                /\ In m items).
Proof.
  destruct (match_urls_returns model_name data tr) as (ev & Hrun & _).
  eexists _, ev. split; [exact Hrun |].
  intros m. rewrite in_concat. split.
  - intros (items & Hitems & Hm).
    apply in_map_iff in Hitems as (reply & Hcontrib & Hreply).
    exists reply, items. split; [exact Hreply |]. split; [| exact Hm].
    unfold contributed in Hcontrib.
    destruct (yield json_loads reply) as [e | new_items]; subst;
      [contradiction | reflexivity].
  - intros (reply & items & Hreply & Hyield & Hm).
    exists items. split; [| exact Hm].
    apply in_map_iff. exists reply.
    split; [now apply contributed_of_yield | exact Hreply].
Qed.

(** C10: with no old item, [match_urls] returns the empty list and leaves
    the trace as it was: no batch is cut and no collaborator is called,
    whatever the new items, the mode and the model. *)
Theorem match_urls_no_old_items model_name new_urls new_results tr :
  match_urls generate_content json_loads model_name (UrlLists [] new_urls) tr
  = (inr [], tr)
  /\ match_urls generate_content json_loads model_name
       (CrawlResults [] new_results) tr
     = (inr [], tr)
  /\ n_batches_of model_name (UrlLists [] new_urls) = 0
  /\ n_batches_of model_name (CrawlResults [] new_results) = 0.
Proof.
  unfold match_urls, match_loop, n_batches_of, total_batches, batch_size_for.
  destruct (contains "flash" model_name); repeat split.
Qed.

End MatchFacts.

(** * Facts about the confidence bands *)

(** A number that is not below a float is not below a smaller float of
    the same sign and exponent. *)
Lemma not_below_smaller c ex k_hi k_lo o_hi o_lo :
  (k_lo < k_hi)%positive ->
  compare_to_float c (S754_finite false k_hi ex) = inr (Some o_hi) ->
  compare_to_float c (S754_finite false k_lo ex) = inr (Some o_lo) ->
  o_hi <> Lt -> o_lo <> Lt.
Proof.
  intros Hk.
  assert (Hint : forall z,
             Z_SF_compare z (S754_finite false k_hi ex) = Some o_hi ->
             Z_SF_compare z (S754_finite false k_lo ex) = Some o_lo ->
             o_hi <> Lt -> o_lo <> Lt).
  { intros z. cbn [Z_SF_compare].
    destruct (0 <=? ex)%Z eqn:Hex; intros [= <-] [= <-] Hhi Hlo; apply Hhi.
    - apply Z.leb_le in Hex.
      pose proof (Z.pow_pos_nonneg 2 ex ltac:(lia) Hex) as Hpow.
      apply Z.compare_lt_iff.
      pose proof (proj1 (Z.compare_lt_iff _ _) Hlo) as Hlt.
      destruct (2 ^ ex)%Z as [| p | p]; try lia.
      apply (Z.lt_trans _ _ _ Hlt). rewrite !Pos2Z.inj_mul.
      apply Z.mul_lt_mono_pos_r; lia.
    - apply Z.compare_lt_iff.
      pose proof (proj1 (Z.compare_lt_iff _ _) Hlo) as Hlt.
      apply (Z.lt_trans _ _ _ Hlt). lia. }
  destruct c as [| b | z | x | | |]; cbn [compare_to_float];
    try discriminate.
  - intros H1 H2. apply (Hint (if b then 1 else 0)%Z); congruence.
  - intros H1 H2. apply (Hint z); congruence.
  - destruct x as [s | s | | s m e]; cbn [SFcompare]; try discriminate.
    + intros [= <-] _ H. now contradiction H.
    + destruct s; intros [= <-] [= <-]; intros H; try discriminate;
        now contradiction H.
    + destruct s; intros [= <-] [= <-]; [intros H; now contradiction H |].
      destruct (Z.compare_spec e ex) as [-> | Hlt | Hgt].
      * change (PosDef.Pos.compare_cont Eq m ?k) with (Pos.compare m k).
        intros Hhi Hlo. apply Hhi.
        apply Pos.compare_lt_iff.
        pose proof (proj1 (Pos.compare_lt_iff _ _) Hlo) as Hlt. lia.
      * intros H. now contradiction H.
      * discriminate.
Qed.

(** No number is at least 0.8 and below 0.6. *)
Lemma not_high_and_low c o8 o6 :
  compare_to_float c float_0_8 = inr (Some o8) ->
  compare_to_float c float_0_6 = inr (Some o6) ->
  o8 <> Lt -> o6 <> Lt.
Proof. apply not_below_smaller. reflexivity. Qed.

Lemma number_is_ordered c f :
  is_number c = true -> f <> S754_nan ->
  exists o, compare_to_float c f = inr (Some o).
Proof.
  intros Hc Hf.
  destruct c as [| b | z | x | | |]; simpl in *; try discriminate.
  - destruct f; simpl; eauto; contradiction.
  - destruct f; simpl; eauto; contradiction.
  - destruct x, f; simpl; eauto; try discriminate; contradiction.
Qed.

(** A record with a numeric confidence is in exactly one band, and the
    three tests of the source decide the bands without raising. *)
Lemma one_band m :
  has_numeric_confidence m = true ->
  is_high m = inr (in_high m)
  /\ is_medium m = inr (in_medium m)
  /\ is_low m = inr (in_low m)
  /\ (if in_high m then 1 else 0) + (if in_medium m then 1 else 0)
     + (if in_low m then 1 else 0) = 1.
Proof.
  unfold has_numeric_confidence, is_high, is_medium, is_low,
    in_high, in_medium, in_low, at_least, below, py_ge, py_lt.
  destruct (getitem m "confidence") as [e | c]; [discriminate |].
  intros Hnum.
  destruct (number_is_ordered c float_0_8 Hnum) as (o8 & H8); [discriminate |].
  destruct (number_is_ordered c float_0_6 Hnum) as (o6 & H6); [discriminate |].
  pose proof (not_high_and_low c o8 o6 H8 H6) as Hband.
  rewrite H8, H6.
  destruct o8, o6; simpl; repeat split; try reflexivity;
    exfalso; now apply Hband.
Qed.

Lemma count_where_decided cond test matches :
  Forall (fun m => cond m = inr (test m)) matches ->
  count_where cond matches = inr (List.length (filter test matches)).
Proof.
  induction 1 as [| m rest Hm _ IH]; simpl; [reflexivity |].
  rewrite Hm, IH. now destruct (test m).
Qed.

Lemma bands_partition matches :
  Forall (fun m => has_numeric_confidence m = true) matches ->
  List.length (filter in_high matches) + List.length (filter in_medium matches)
  + List.length (filter in_low matches) = List.length matches.
Proof.
  induction 1 as [| m rest Hm _ IH]; simpl; [reflexivity |].
  destruct (one_band m Hm) as (_ & _ & _ & Hone).
  destruct (in_high m), (in_medium m), (in_low m); simpl in *; lia.
Qed.

(** C7, for records whose confidence is a number other than NaN: the
    figures are computed without raising; [high] counts the records with
    confidence at least 0.8, [medium] those with confidence at least 0.6
    and below 0.8, [low] those with confidence below 0.6; every record is
    in exactly one band, so the three counts add up to the total; and the
    confidences 0.9, 0.7, 0.3 give total 3 and one record in each band. *)
Theorem summarize_bands :
  (forall matches,
      Forall (fun m => has_numeric_confidence m = true) matches ->
      summarize matches
      = inr {| total := List.length matches;
               high := List.length (filter in_high matches);
               medium := List.length (filter in_medium matches);
               low := List.length (filter in_low matches) |}
      /\ Forall (fun m =>
                   (if in_high m then 1 else 0) + (if in_medium m then 1 else 0)
                   + (if in_low m then 1 else 0) = 1) matches
      /\ List.length (filter in_high matches)
         + List.length (filter in_medium matches)
         + List.length (filter in_low matches) = List.length matches)
  /\ summarize [with_confidence float_0_9; with_confidence float_0_7;
                with_confidence float_0_3]
     = inr {| total := 3; high := 1; medium := 1; low := 1 |}.
Proof.
  split; [| reflexivity].
  intros matches Hnum. split; [| split].
  - unfold summarize, high_conf, medium_conf, low_conf.
    rewrite (count_where_decided is_high in_high),
      (count_where_decided is_medium in_medium),
      (count_where_decided is_low in_low); [reflexivity | | |].
    all: eapply Forall_impl; [| exact Hnum];
      intros m Hm; now destruct (one_band m Hm) as (? & ? & ? & _).
  - eapply Forall_impl; [| exact Hnum].
    intros m Hm; now destruct (one_band m Hm) as (_ & _ & _ & ?).
  - now apply bands_partition.
Qed.

(** The first 100 characters of [long_message]. *)
Example long_message_truncated :
  slice_to 100 long_message
  = "HTTPSConnectionPool(host='old.example', port=443): Max retries exceeded with url: /a (Caused by Name".
Proof. reflexivity. Qed.

(** C3 at a host that cannot be resolved: the fetch returns [failed] with
    the message cut after 100 characters. *)
Lemma fetch_never_raises_witness :
  exists page new_events,
    fetch_page_content always_unreachable "https://old.example/a" 0 3 None []
    = (inr page, new_events)
    /\ cs_status page = failed
    /\ cs_error page = Some (slice_to 100 long_message).
Proof.
  destruct (fetch_never_raises always_unreachable "https://old.example/a" 0 3
              None [])
    as (page & earlier & ua & r & Hrun & _ & _ & _ & Hother).
  exists page, ([] ++ earlier ++ [(CallGet "https://old.example/a" ua None, ReplyPage r)]).
  split; [exact Hrun |].
  apply (Hother (mkExn OtherException long_message)); [| reflexivity].
  vm_compute in Hrun.
  apply (f_equal snd) in Hrun. simpl in Hrun.
  destruct earlier as [| ev earlier]; simpl in Hrun.
  - now injection Hrun.
  - injection Hrun as _ Hrest. now destruct earlier.
Defined.

(** C4 at a URL that always times out, with the default retry budget. *)
Lemma fetch_timeout_attempts_witness :
  (forall h ua,
      raises_timeout (always_timeout h "https://old.example/a" ua None))
  /\ exists new_events,
       fetch always_timeout "https://old.example/a" None []
       = (inr (no_content "https://old.example/a" failed "Timeout"), new_events)
       /\ List.length (attempts new_events) = 4
       /\ sleeps new_events = [inject_Z 1; inject_Z 2; inject_Z 4].
Proof.
  assert (Hdown : forall h ua,
             raises_timeout (always_timeout h "https://old.example/a" ua None))
    by (intros h ua; eexists; split; reflexivity).
  split; [exact Hdown |].
  destruct (fetch_timeout_attempts always_timeout "https://old.example/a" None
              3 [] Hdown) as (ev & Hrun & _ & Hattempts & Hsleeps).
  exists ev. split; [exact Hrun |]. split; [exact Hattempts | exact Hsleeps].
Defined.

(** C5 at a URL answered with 403, with the whole retry budget left. *)
Lemma fetch_auth_required_no_retry_witness :
  exists new_events,
    fetch (always_status 403) "https://old.example/a" None []
    = (inr (no_content "https://old.example/a" auth_required
              "Authentication required (HTTP 403)"), new_events)
    /\ List.length (attempts new_events) = 1
    /\ sleeps new_events = [].
Proof.
  destruct (fetch_auth_required_no_retry (always_status 403)
              "https://old.example/a" 0 3 None []
              (mkExn (HTTPError 403)
                 (fstr [str_of_nat 403;
                        " Client Error for url: https://old.example/a"]))
              403 eq_refl eq_refl (or_intror eq_refl))
    as (ev & Hrun & _ & Hattempts & Hsleeps).
  exists ev. split; [exact Hrun |]. split; [exact Hattempts | exact Hsleeps].
Defined.

(** C2 on a crawl of two URLs, the second of which needs authentication:
    two results in input order, the first from the page served and the
    second with status [auth_required], and the second URL alone in the
    list of URLs needing authentication. *)
Lemma crawl_urls_preserves_order_witness :
  exists new_events,
    crawl_urls (locked_at "https://old.example/b") sample_urls None []
    = (inr ([extract "https://old.example/a" sample_soup;
             no_content "https://old.example/b" auth_required
               "Authentication required (HTTP 403)"],
            ["https://old.example/b"]),
       new_events)
    /\ attempts new_events
       = [CallGet "https://old.example/a" (user_agent 0) None;
          CallGet "https://old.example/b" (user_agent 0) None].
Proof.
  destruct (crawl_urls_preserves_order (locked_at "https://old.example/b")
              sample_urls None [])
    as (results & auth_urls & ev & fetches & Hrun & _).
  exists ev.
  pose proof (f_equal fst Hrun) as Hout.
  pose proof (f_equal snd Hrun) as Hevents.
  cbn [fst snd app] in Hout, Hevents.
  split.
  - rewrite Hrun. cbn [app]. f_equal. rewrite <- Hout. vm_compute. reflexivity.
  - rewrite <- Hevents. vm_compute. reflexivity.
Defined.

(** C6 on seven items in batches of three. *)
Lemma batches_partition_witness :
  0 < 3
  /\ batches [1; 2; 3; 4; 5; 6; 7] 3 = [[1; 2; 3]; [4; 5; 6]; [7]]
  /\ Z.of_nat (List.length (batches [1; 2; 3; 4; 5; 6; 7] 3))
     = Qceiling (7 # 3)
  /\ List.concat (batches [1; 2; 3; 4; 5; 6; 7] 3) = [1; 2; 3; 4; 5; 6; 7].
Proof.
  assert (Hpos : 0 < 3) by lia.
  destruct (batches_partition [1; 2; 3; 4; 5; 6; 7] 3 Hpos)
    as (Hcount & _ & Hconcat).
  split; [exact Hpos |]. split; [reflexivity |].
  split; [exact Hcount | exact Hconcat].
Defined.


(** C7 on the confidences 0.9, 0.7 and 0.3. *)
Lemma summarize_bands_witness :
  Forall (fun m => has_numeric_confidence m = true)
    [with_confidence float_0_9; with_confidence float_0_7;
     with_confidence float_0_3]
  /\ summarize [with_confidence float_0_9; with_confidence float_0_7;
               with_confidence float_0_3]
     = inr {| total := 3; high := 1; medium := 1; low := 1 |}.
Proof.
  assert (Hnum : Forall (fun m => has_numeric_confidence m = true)
                   [with_confidence float_0_9; with_confidence float_0_7;
                    with_confidence float_0_3])
    by (repeat constructor).
  split; [exact Hnum |].
  destruct summarize_bands as (Hall & _).
  destruct (Hall _ Hnum) as (Hsum & _ & _).
  exact Hsum.
Defined.

(** Against C7 as stated: a record whose confidence is NaN is counted in
    the total and in none of the three bands. *)
Lemma summarize_nan_in_no_band :
  summarize [with_confidence S754_nan]
  = inr {| total := 1; high := 0; medium := 0; low := 0 |}
  /\ ~ (forall matches s,
          summarize matches = inr s -> high s + medium s + low s = total s).
Proof.
  split; [reflexivity |].
  intros Hall. specialize (Hall [with_confidence S754_nan] _ eq_refl).
  discriminate Hall.
Qed.

(** Against C9 as stated: a reply carrying a confidence of 1.5 is decoded
    and returned as it is. *)
Lemma match_urls_returns_overconfident :
  fst (match_urls overconfident_generate overconfident_json_loads
         "gemini-3-flash-preview"
         (UrlLists ["https://old.example/a"] ["https://new.example/a"]) [])
  = inr [overconfident_match]
  /\ valid_record sample_match = true
  /\ valid_record overconfident_match = false
  /\ ~ (forall generate_content json_loads model_name data tr all_matches tr',
          match_urls generate_content json_loads model_name data tr
          = (inr all_matches, tr') ->
          forallb valid_record all_matches = true).
Proof.
  split; [reflexivity |]. split; [reflexivity |]. split; [reflexivity |].
  intros Hall.
  specialize (Hall overconfident_generate overconfident_json_loads
                "gemini-3-flash-preview"
                (UrlLists ["https://old.example/a"] ["https://new.example/a"])
                [] _ _ eq_refl).
  discriminate Hall.
Qed.

(** * Facts about the rest of the program *)

(** ** Strings *)

Lemma rstrip_app_space s w :
  (forall c, has_char c w = true -> isspace c = true) ->
  rstrip (String.append s w) = rstrip s.
Proof.
  intros Hw. induction s as [| c s IH]; simpl.
  - induction w as [| a w IHw]; simpl; [reflexivity |].
    rewrite IHw.
    + rewrite (Hw a); [reflexivity |]. simpl. now rewrite Ascii.eqb_refl.
    + intros c Hc. apply Hw. simpl. rewrite Hc. apply orb_true_r.
  - now rewrite IH.
Qed.

Lemma rstrip_cons_kept c s :
  isspace c = false -> rstrip (String c s) = String c (rstrip s).
Proof. intros Hc. simpl. destruct (rstrip s); [now rewrite Hc | reflexivity]. Qed.

Lemma rstrip_idempotent s : rstrip (rstrip s) = rstrip s.
Proof.
  induction s as [| c s IH]; [reflexivity |]. simpl.
  destruct (rstrip s) as [| k kept] eqn:Hkept.
  - destruct (isspace c) eqn:Hc; [reflexivity |]. simpl. now rewrite Hc.
  - change (rstrip (String c (String k kept))) with
      (match rstrip (String k kept) with
       | EmptyString => if isspace c then EmptyString else String c EmptyString
       | String a b => String c (String a b)
       end).
    now rewrite IH.
Qed.

Lemma lstrip_head s :
  lstrip s = EmptyString
  \/ exists c rest, lstrip s = String c rest /\ isspace c = false.
Proof.
  induction s as [| c s IH]; simpl; [now left |].
  destruct (isspace c) eqn:Hc; [exact IH | right; now exists c, s].
Qed.

Lemma strip_idempotent s : strip (strip s) = strip s.
Proof.
  unfold strip. destruct (lstrip_head s) as [-> | (c & rest & -> & Hc)];
    [reflexivity |].
  rewrite (rstrip_cons_kept _ _ Hc). simpl lstrip. rewrite Hc.
  rewrite (rstrip_cons_kept _ _ Hc). now rewrite rstrip_idempotent.
Qed.

Lemma lstrip_length s : String.length (lstrip s) <= String.length s.
Proof.
  induction s as [| c s IH]; simpl; [lia |].
  destruct (isspace c); simpl; lia.
Qed.

Lemma rstrip_length s : String.length (rstrip s) <= String.length s.
Proof.
  induction s as [| c s IH]; simpl; [lia |].
  destruct (rstrip s); [destruct (isspace c) |]; simpl in *; lia.
Qed.

(** A non-empty string that [strip] leaves alone starts with a character
    that is not white space, and is left alone by [rstrip]. *)
Lemma stripped_head u :
  strip u = u -> u <> EmptyString ->
  (exists c rest, u = String c rest /\ isspace c = false) /\ rstrip u = u.
Proof.
  intros Hfix Hne. destruct u as [| c rest]; [contradiction |].
  destruct (isspace c) eqn:Hc.
  - exfalso. unfold strip in Hfix. simpl lstrip in Hfix. rewrite Hc in Hfix.
    pose proof (rstrip_length (lstrip rest)) as H1.
    pose proof (lstrip_length rest) as H2.
    rewrite Hfix in H1. simpl in H1. lia.
  - split; [now exists c, rest |].
    unfold strip in Hfix. simpl lstrip in Hfix. now rewrite Hc in Hfix.
Qed.

Lemma has_char_lstrip c s : has_char c (lstrip s) = true -> has_char c s = true.
Proof.
  induction s as [| a s IH]; simpl; [discriminate |].
  destruct (isspace a); simpl; [| trivial].
  intros H. rewrite (IH H). apply orb_true_r.
Qed.

Lemma has_char_rstrip c s : has_char c (rstrip s) = true -> has_char c s = true.
Proof.
  induction s as [| a s IH]; simpl; [discriminate |].
  destruct (rstrip s) as [| k kept].
  - destruct (isspace a); simpl; [discriminate |].
    rewrite orb_false_r. intros ->. reflexivity.
  - simpl in *. destruct (Ascii.eqb a c); [reflexivity |]. exact IH.
Qed.

Lemma has_char_strip c s : has_char c s = false -> has_char c (strip s) = false.
Proof.
  intros Hs. destruct (has_char c (strip s)) eqn:H; [| reflexivity].
  apply has_char_rstrip, has_char_lstrip in H. congruence.
Qed.

Lemma split_on_nonempty sep s : split_on sep s <> [].
Proof.
  destruct s as [| c s]; simpl; [discriminate |].
  destruct (Ascii.eqb c sep); [discriminate |].
  destruct (split_on sep s); discriminate.
Qed.

(** No piece of a split holds the separator. *)
Lemma split_on_pieces sep s :
  Forall (fun piece => has_char sep piece = false) (split_on sep s).
Proof.
  induction s as [| c s IH]; simpl; [repeat constructor |].
  destruct (Ascii.eqb c sep) eqn:Hc; [now constructor |].
  destruct (split_on sep s) as [| piece pieces]; [repeat constructor; simpl; now rewrite Hc |].
  inversion IH as [| ? ? Hpiece Hrest]; subst.
  constructor; [simpl; now rewrite Hc | exact Hrest].
Qed.

Lemma split_on_whole sep s :
  has_char sep s = false -> split_on sep s = [s].
Proof.
  induction s as [| c s IH]; simpl; [reflexivity |].
  destruct (Ascii.eqb c sep); simpl; [discriminate |].
  intros Hs. now rewrite (IH Hs).
Qed.

Lemma split_on_app sep p rest :
  has_char sep p = false ->
  split_on sep (String.append p (String sep rest)) = p :: split_on sep rest.
Proof.
  induction p as [| c p IH]; simpl.
  - now rewrite Ascii.eqb_refl.
  - destruct (Ascii.eqb c sep); simpl; [discriminate |].
    intros Hp. now rewrite (IH Hp).
Qed.

Lemma split_on_join sep parts :
  parts <> [] ->
  Forall (fun p => has_char sep p = false) parts ->
  split_on sep (join (String sep EmptyString) parts) = parts.
Proof.
  intros Hne Hparts. induction Hparts as [| p rest Hp Hrest IH];
    [contradiction |].
  destruct rest as [| q rest].
  - simpl. now apply split_on_whole.
  - change (join (String sep EmptyString) (p :: q :: rest))
      with (String.append p (String sep (join (String sep EmptyString) (q :: rest)))).
    rewrite (split_on_app _ _ _ Hp). f_equal. apply IH. discriminate.
Qed.

Lemma rstrip_app_fixed a b :
  rstrip b = b -> b <> EmptyString ->
  rstrip (String.append a b) = String.append a b.
Proof.
  intros Hb Hne. induction a as [| c a IH]; simpl; [exact Hb |].
  rewrite IH. destruct (String.append a b) eqn:Hab; [| reflexivity].
  destruct a; simpl in Hab; [contradiction | discriminate].
Qed.

(** ** Reading the URL lists *)

Lemma keeps_clean u : clean_url u -> keeps_line u = true.
Proof.
  intros (Hne & Hstrip & _ & Hhash). unfold keeps_line.
  rewrite Hstrip, Hhash. destruct u; [contradiction | reflexivity].
Qed.

Lemma join_clean_fixed urls :
  urls <> [] -> Forall clean_url urls ->
  join nl urls <> EmptyString
  /\ rstrip (join nl urls) = join nl urls
  /\ lstrip (join nl urls) = join nl urls.
Proof.
  intros Hne Hclean. induction Hclean as [| u rest Hu Hrest IH];
    [contradiction |].
  destruct Hu as (Hu & Hstrip & _).
  destruct (stripped_head u Hstrip Hu) as ((c & t & -> & Hc) & Hr).
  destruct rest as [| v rest].
  - cbn [join]. repeat split; [discriminate | exact Hr |].
    cbn [lstrip]. now rewrite Hc.
  - destruct IH as (Hjne & Hjr & _); [discriminate |].
    change (join nl (String c t :: v :: rest))
      with (String.append (String c t) (String "010" (join nl (v :: rest)))).
    repeat split; [discriminate | | simpl; now rewrite Hc].
    apply rstrip_app_fixed; [| discriminate].
    change (rstrip (String "010" (join nl (v :: rest))))
      with (match rstrip (join nl (v :: rest)) with
            | EmptyString => EmptyString
            | String a b => String "010" (String a b)
            end).
    rewrite Hjr. destruct (join nl (v :: rest)); [contradiction | reflexivity].
Qed.

(** X1: whatever the text, every URL that [parse_urls] returns is not
    empty, has no white space at either end and holds no line feed, the
    character the text is split at; and a text made of white space only
    gives no URL. *)
Theorem parse_urls_lines text :
  Forall (fun u => u <> EmptyString /\ strip u = u /\ has_char "010" u = false)
    (parse_urls text)
  /\ ((forall c, has_char c text = true -> isspace c = true) ->
      parse_urls text = []).
Proof.
  split.
  - unfold parse_urls. apply Forall_forall. intros u Hu.
    apply in_map_iff in Hu as (line & <- & Hline).
    apply filter_In in Hline as (Hin & Hkeep).
    unfold keeps_line in Hkeep. apply andb_true_iff in Hkeep as (Hne & _).
    split; [destruct (strip line); [discriminate | discriminate] |].
    split; [apply strip_idempotent |].
    apply has_char_strip.
    pose proof (split_on_pieces "010" (strip text)) as Hpieces.
    rewrite Forall_forall in Hpieces. now apply Hpieces.
  - intros Hblank. unfold parse_urls.
    assert (Hl : lstrip text = EmptyString).
    { induction text as [| c text IH]; simpl; [reflexivity |].
      rewrite (Hblank c) by (simpl; now rewrite Ascii.eqb_refl).
      apply IH. intros a Ha. apply Hblank. simpl. rewrite Ha. apply orb_true_r. }
    assert (Hs : strip text = EmptyString) by (unfold strip; now rewrite Hl).
    rewrite Hs. reflexivity.
Qed.

(** The lines are split at line feeds only: a carriage return between two
    URLs leaves them in one entry. *)
Example parse_urls_keeps_carriage_return :
  parse_urls (String.append "https://old.example/a"
                (String "013" "https://old.example/b"))
  = [String.append "https://old.example/a"
       (String "013" "https://old.example/b")].
Proof. reflexivity. Qed.

(** X2: a list of clean URLs (not empty, no white space at the ends, no
    line break, not starting with [#]) written one per line is read back
    as it is. *)
Theorem parse_urls_round_trip urls :
  Forall clean_url urls -> parse_urls (join nl urls) = urls.
Proof.
  intros Hclean. destruct urls as [| u rest]; [reflexivity |].
  destruct (join_clean_fixed (u :: rest)) as (_ & Hr & Hl);
    [discriminate | exact Hclean |].
  assert (Hs : strip (join nl (u :: rest)) = join nl (u :: rest))
    by (unfold strip; now rewrite Hl, Hr).
  unfold parse_urls. rewrite Hs.
  change nl with (String "010" EmptyString).
  rewrite split_on_join; [| discriminate |].
  - rewrite forallb_filter_id.
    + rewrite <- (map_id (u :: rest)) at 2. apply map_ext_in.
      intros v Hv. rewrite Forall_forall in Hclean. now apply Hclean.
    + apply forallb_forall. intros v Hv. apply keeps_clean.
      rewrite Forall_forall in Hclean. now apply Hclean.
  - eapply Forall_impl; [| exact Hclean]. now intros v (_ & _ & Hnl & _).
Qed.

(** ** The fetcher in general *)

Section FetcherShape.

Variable requests_get :
  Trace -> string -> string -> option Credentials -> Exn + Soup.

(** Every fetch returns the result standing for the reply to its last
    attempt, after events of the shape [fetch_events]. *)
Lemma fetch_shape url credentials budget :
  forall retry_count max_retries tr,
    max_retries - retry_count <= budget ->
    exists new_events last,
      fetch_page_content requests_get url retry_count max_retries credentials tr
      = (inr (signal_of url last), tr ++ new_events)
      /\ fetch_events url credentials max_retries retry_count new_events last.
Proof.
  induction budget as [| budget IH]; intros rc mr tr Hb.
  all: destruct (requests_get tr url (user_agent rc) credentials)
         as [e | soup] eqn:Hget.
  all: try (rewrite (fetch_on_page _ _ _ _ _ _ _ Hget);
            exists [attempt_event requests_get url rc credentials tr], (inr soup);
            unfold attempt_event; rewrite Hget;
            split; [reflexivity | constructor; now left]).
  all: destruct (exc_class e) as [| code |] eqn:Hcls.
  all: try (rewrite (fetch_on_other _ _ _ _ _ _ _ Hget Hcls);
            exists [attempt_event requests_get url rc credentials tr], (inl e);
            unfold attempt_event; rewrite Hget; simpl; rewrite Hcls;
            split; [reflexivity | constructor; left; simpl; now rewrite Hcls]).
  all: try (destruct (auth_status code) eqn:Hauth;
            [ rewrite (fetch_on_auth_status _ _ _ _ _ _ _ _ Hget Hcls Hauth);
              exists [attempt_event requests_get url rc credentials tr], (inl e);
              unfold attempt_event; rewrite Hget; simpl; rewrite Hcls, Hauth;
              split; [reflexivity
                     | constructor; left; simpl; now rewrite Hcls, Hauth]
            | ]).
  - rewrite (fetch_on_timeout_last _ _ _ _ _ _ _ Hget Hcls) by lia.
    exists [attempt_event requests_get url rc credentials tr], (inl e).
    unfold attempt_event; rewrite Hget; simpl; rewrite Hcls.
    split; [reflexivity | constructor; right; lia].
  - rewrite (fetch_on_status_last _ _ _ _ _ _ _ _ Hget Hcls Hauth) by lia.
    exists [attempt_event requests_get url rc credentials tr], (inl e).
    unfold attempt_event; rewrite Hget; simpl; rewrite Hcls, Hauth.
    split; [reflexivity | constructor; right; lia].
  - destruct (lt_dec rc mr) as [Hlt | Hge].
    + rewrite (fetch_on_timeout_retry _ _ _ _ _ _ _ Hget Hcls Hlt).
      destruct (IH (rc + 1) mr
                  (tr ++ [attempt_event requests_get url rc credentials tr]
                      ++ [(CallSleep (inject_Z (2 ^ Z.of_nat rc)), ReplyNone)]))
        as (ev & last & Hrun & Hshape); [lia |].
      rewrite Hrun.
      exists (attempt_event requests_get url rc credentials tr
              :: (CallSleep (inject_Z (2 ^ Z.of_nat rc)), ReplyNone) :: ev), last.
      split; [now rewrite <- app_assoc |].
      unfold attempt_event. rewrite Hget.
      apply fetch_retries; [simpl; now rewrite Hcls | exact Hlt |].
      now replace (S rc) with (rc + 1) by lia.
    + rewrite (fetch_on_timeout_last _ _ _ _ _ _ _ Hget Hcls Hge).
      exists [attempt_event requests_get url rc credentials tr], (inl e).
      unfold attempt_event; rewrite Hget; simpl; rewrite Hcls.
      split; [reflexivity | constructor; now right].
  - destruct (lt_dec rc mr) as [Hlt | Hge];
      [destruct (retryable_status code) eqn:Hretry |].
    + rewrite (fetch_on_status_retry _ _ _ _ _ _ _ _ Hget Hcls Hauth Hlt Hretry).
      destruct (IH (rc + 1) mr
                  (tr ++ [attempt_event requests_get url rc credentials tr]
                      ++ [(CallSleep (inject_Z (3 ^ Z.of_nat rc)), ReplyNone)]))
        as (ev & last & Hrun & Hshape); [lia |].
      rewrite Hrun.
      exists (attempt_event requests_get url rc credentials tr
              :: (CallSleep (inject_Z (3 ^ Z.of_nat rc)), ReplyNone) :: ev), last.
      split; [now rewrite <- app_assoc |].
      unfold attempt_event. rewrite Hget.
      apply fetch_retries;
        [simpl; now rewrite Hcls, Hauth, Hretry | exact Hlt |].
      now replace (S rc) with (rc + 1) by lia.
    + rewrite (fetch_on_status_last _ _ _ _ _ _ _ _ Hget Hcls Hauth)
        by (intros [_ H]; congruence).
      exists [attempt_event requests_get url rc credentials tr], (inl e).
      unfold attempt_event; rewrite Hget; simpl; rewrite Hcls, Hauth.
      split; [reflexivity
             | constructor; left; simpl; now rewrite Hcls, Hauth, Hretry].
    + rewrite (fetch_on_status_last _ _ _ _ _ _ _ _ Hget Hcls Hauth)
        by (intros [H _]; contradiction).
      exists [attempt_event requests_get url rc credentials tr], (inl e).
      unfold attempt_event; rewrite Hget; simpl; rewrite Hcls, Hauth.
      split; [reflexivity | constructor; now right].
Qed.

End FetcherShape.

Lemma fetch_events_attempts url credentials max_retries retry_count ev last :
  fetch_events url credentials max_retries retry_count ev last ->
  attempts ev
  = map (fun k => CallGet url (user_agent k) credentials)
      (seq retry_count (List.length (attempts ev)))
  /\ 1 <= List.length (attempts ev)
  /\ List.length (attempts ev) + retry_count <= Nat.max max_retries retry_count + 1
  /\ List.length (sleeps ev) + 1 = List.length (attempts ev).
Proof.
  induction 1 as [rc last Hstop | rc r base rest last Hbase Hlt _ IH].
  - cbn. repeat split; lia.
  - destruct IH as (Hcalls & Hone & Hmax & Hsleeps).
    unfold attempts, sleeps in *. simpl.
    split; [f_equal; exact Hcalls | repeat split; lia].
Qed.

Lemma fetch_events_pauses url credentials max_retries retry_count ev last :
  fetch_events url credentials max_retries retry_count ev last ->
  exists bases,
    Forall (fun b => b = 2%Z \/ b = 3%Z) bases
    /\ sleeps ev
       = map (fun bk => inject_Z (fst bk ^ Z.of_nat (snd bk)))
           (combine bases (seq retry_count (List.length bases))).
Proof.
  induction 1 as [rc last Hstop | rc r base rest last Hbase Hlt _ IH].
  - exists []. split; [constructor | reflexivity].
  - destruct IH as (bases & Hbases & Hsleeps).
    exists (base :: bases). split.
    + constructor; [| exact Hbases].
      destruct r as [e | soup]; simpl in Hbase; [| discriminate].
      destruct (exc_class e) as [| code |]; try discriminate.
      * left. congruence.
      * destruct (auth_status code); [discriminate |].
        destruct (retryable_status code); [right; congruence | discriminate].
    + unfold sleeps in *. cbn. now rewrite Hsleeps.
Qed.

Lemma retryable_not_auth code :
  retryable_status code = true -> auth_status code = false.
Proof.
  unfold retryable_status, auth_status. simpl.
  destruct (Nat.eqb_spec code 401) as [-> | _]; [discriminate |].
  destruct (Nat.eqb_spec code 403) as [-> | _]; [discriminate | reflexivity].
Qed.

Lemma slice_to_length n s : String.length (slice_to n s) <= n.
Proof.
  unfold slice_to. revert s; induction n as [| n IH]; intros [| c s]; simpl;
    try lia.
  specialize (IH s). lia.
Qed.

Lemma strip_empty : strip EmptyString = EmptyString.
Proof. reflexivity. Qed.

(** The fields of a result are tidy: the content is at most 500 characters
    long and title, heading and description have no white space at either
    end. *)
Lemma signal_of_tidy url r :
  String.length (cs_content (signal_of url r)) <= 500
  /\ strip (cs_title (signal_of url r)) = cs_title (signal_of url r)
  /\ strip (cs_heading (signal_of url r)) = cs_heading (signal_of url r)
  /\ strip (cs_description (signal_of url r)) = cs_description (signal_of url r).
Proof.
  destruct r as [e | soup]; simpl.
  - destruct (exc_class e) as [| code |]; [| destruct (auth_status code) |];
      simpl; repeat split; lia.
  - split; [apply slice_to_length |].
    split; [destruct (soup_title soup); [apply strip_idempotent | reflexivity] |].
    split; [destruct (soup_h1 soup); [apply strip_idempotent | reflexivity] |].
    destruct (soup_meta_description soup) as [[c |] |];
      [apply strip_idempotent | reflexivity | reflexivity].
Qed.

Section FetcherMore.

Variable requests_get :
  Trace -> string -> string -> option Credentials -> Exn + Soup.


(** X4: a fetch follows the replies it gets.  Every attempt but the
    last was answered by a timeout or by an HTTP status that is retried,
    while the attempt number was below [max_retries], and is followed by
    one pause, of [2 ^ k] seconds after a timeout at attempt [k] and of
    [3 ^ k] seconds after a retried status; the last attempt was answered
    by something that is not retried, or was made with the budget used up;
    and the result is the one standing for the reply to the last attempt.
    So the pauses are powers of 2 or 3 whose exponents go up by one. *)
Theorem fetch_follows_replies url retry_count max_retries credentials tr :
  exists new_events last bases,
    fetch_page_content requests_get url retry_count max_retries credentials tr
    = (inr (signal_of url last), tr ++ new_events)
    /\ fetch_events url credentials max_retries retry_count new_events last
    /\ Forall (fun b => b = 2%Z \/ b = 3%Z) bases
    /\ sleeps new_events
       = map (fun bk => inject_Z (fst bk ^ Z.of_nat (snd bk)))
           (combine bases (seq retry_count (List.length bases))).
Proof.
  destruct (fetch_shape requests_get url credentials
              (max_retries - retry_count) retry_count max_retries tr
              (Nat.le_refl _)) as (ev & last & Hrun & Hshape).
  destruct (fetch_events_pauses _ _ _ _ _ _ Hshape) as (bases & Hbases & Hsleeps).
  now exists ev, last, bases.
Qed.

Lemma fetch_all_statuses url credentials code
    (Hdown : forall h ua, raises_status code (requests_get h url ua credentials))
    (Hretry : retryable_status code = true) budget :
  forall retry_count max_retries tr,
    max_retries - retry_count <= budget ->
    retry_count <= max_retries ->
    exists new_events,
      fetch_page_content requests_get url retry_count max_retries credentials tr
      = (inr (no_content url failed (fstr ["HTTP "; str_of_nat code])),
         tr ++ new_events)
      /\ map fst new_events
         = status_schedule url credentials retry_count max_retries.
Proof.
  pose proof (retryable_not_auth code Hretry) as Hauth.
  induction budget as [| budget IH]; intros rc mr tr Hb Hle.
  all: destruct (Hdown tr (user_agent rc)) as (e & Hget & Hcls).
  - rewrite (fetch_on_status_last _ _ _ _ _ _ _ _ Hget Hcls Hauth) by lia.
    eexists; split; [reflexivity |].
    unfold status_schedule. replace (mr - rc) with 0 by lia.
    replace mr with rc by lia. reflexivity.
  - destruct (lt_dec rc mr) as [Hlt | Hge].
    + rewrite (fetch_on_status_retry _ _ _ _ _ _ _ _ Hget Hcls Hauth Hlt Hretry).
      destruct (IH (rc + 1) mr
                  (tr ++ [attempt_event requests_get url rc credentials tr]
                      ++ [(CallSleep (inject_Z (3 ^ Z.of_nat rc)), ReplyNone)]))
        as (ev & Hrun & Hcalls); [lia | lia |].
      rewrite Hrun.
      exists (attempt_event requests_get url rc credentials tr
              :: (CallSleep (inject_Z (3 ^ Z.of_nat rc)), ReplyNone) :: ev).
      split; [now rewrite <- app_assoc |].
      simpl. rewrite Hcalls. unfold status_schedule.
      replace (mr - rc) with (S (mr - (rc + 1))) by lia.
      replace (rc + 1) with (S rc) by lia. reflexivity.
    + rewrite (fetch_on_status_last _ _ _ _ _ _ _ _ Hget Hcls Hauth) by tauto.
      eexists; split; [reflexivity |].
      unfold status_schedule. replace (mr - rc) with 0 by lia.
      replace mr with rc by lia. reflexivity.
Qed.

Lemma attempts_status_schedule url credentials n :
  forall retry_count,
    filter is_get
      (flat_map (fun k => [CallGet url (user_agent k) credentials;
                           CallSleep (inject_Z (3 ^ Z.of_nat k))])
         (seq retry_count n))
    = map (fun k => CallGet url (user_agent k) credentials) (seq retry_count n).
Proof.
  induction n as [| n IH]; intros rc; simpl; [reflexivity |].
  now rewrite IH.
Qed.

Lemma sleeps_status_schedule url credentials n :
  forall retry_count,
    flat_map (fun c => match c with CallSleep d => [d] | _ => [] end)
      (flat_map (fun k => [CallGet url (user_agent k) credentials;
                           CallSleep (inject_Z (3 ^ Z.of_nat k))])
         (seq retry_count n))
    = map (fun k => inject_Z (3 ^ Z.of_nat k)) (seq retry_count n).
Proof.
  induction n as [| n IH]; intros rc; simpl; [reflexivity |].
  now rewrite IH.
Qed.

(** X5: when every request for a URL is answered with the same HTTP
    status among 429, 500, 502, 503 and 504, a fetch started at attempt 0
    makes exactly [max_retries + 1] attempts, pauses [3 ^ k] seconds before
    retrying attempt [k], and returns status [failed] with the error
    detail "HTTP" followed by the status. *)
Theorem fetch_status_retries url credentials code max_retries tr
    (Hdown : forall h ua, raises_status code (requests_get h url ua credentials))
    (Hretry : retryable_status code = true) :
  exists new_events,
    fetch_page_content requests_get url 0 max_retries credentials tr
    = (inr (no_content url failed (fstr ["HTTP "; str_of_nat code])),
       tr ++ new_events)
    /\ map fst new_events = status_schedule url credentials 0 max_retries
    /\ List.length (attempts new_events) = max_retries + 1
    /\ sleeps new_events
       = map (fun k => inject_Z (3 ^ Z.of_nat k)) (seq 0 max_retries).
Proof.
  destruct (fetch_all_statuses url credentials code Hdown Hretry max_retries
              0 max_retries tr) as (ev & Hrun & Hcalls); [lia | lia |].
  exists ev. split; [exact Hrun |]. split; [exact Hcalls |].
  unfold attempts, sleeps. rewrite Hcalls. unfold status_schedule.
  rewrite Nat.sub_0_r. split.
  - rewrite filter_app, attempts_status_schedule, length_app, length_map,
      length_seq. reflexivity.
  - rewrite flat_map_app, sleeps_status_schedule. simpl. apply app_nil_r.
Qed.

(** X6: an HTTP error whose status is neither 401 nor 403 ends the fetch
    at once, with status [failed] and the error detail "HTTP" followed by
    the status, when the status is not one that is retried or when the
    attempt number has reached [max_retries]: one request, no pause. *)
Theorem fetch_status_not_retried url retry_count max_retries credentials
    tr e code :
  requests_get tr url (user_agent retry_count) credentials = inl e ->
  exc_class e = HTTPError code ->
  auth_status code = false ->
  retryable_status code = false \/ max_retries <= retry_count ->
  fetch_page_content requests_get url retry_count max_retries credentials tr
  = (inr (no_content url failed (fstr ["HTTP "; str_of_nat code])),
     tr ++ [(CallGet url (user_agent retry_count) credentials,
             ReplyPage (inl e))]).
Proof.
  intros Hget Hcls Hauth Hstop.
  rewrite (fetch_on_status_last _ _ _ _ _ _ _ _ Hget Hcls Hauth).
  - unfold attempt_event. now rewrite Hget.
  - intros [Hlt Hretry]. destruct Hstop as [Hno | Hle]; [congruence | lia].
Qed.

(** X7: a timeout is not final while the budget lasts: when an attempt
    times out and the next one, made after the pause, is answered with a
    page, the fetch returns the signals of that page with status
    [success], after two requests and one pause of [2 ^ retry_count]. *)
Theorem fetch_recovers_after_timeout url retry_count max_retries credentials
    tr e soup :
  requests_get tr url (user_agent retry_count) credentials = inl e ->
  exc_class e = Timeout ->
  retry_count < max_retries ->
  requests_get
    (tr ++ [(CallGet url (user_agent retry_count) credentials, ReplyPage (inl e));
            (CallSleep (inject_Z (2 ^ Z.of_nat retry_count)), ReplyNone)])
    url (user_agent (retry_count + 1)) credentials = inr soup ->
  fetch_page_content requests_get url retry_count max_retries credentials tr
  = (inr (extract url soup),
     tr ++ [(CallGet url (user_agent retry_count) credentials, ReplyPage (inl e));
            (CallSleep (inject_Z (2 ^ Z.of_nat retry_count)), ReplyNone);
            (CallGet url (user_agent (retry_count + 1)) credentials,
             ReplyPage (inr soup))])
  /\ cs_status (extract url soup) = success.
Proof.
  intros Hget Hcls Hlt Hnext. split; [| reflexivity].
  rewrite (fetch_on_timeout_retry _ _ _ _ _ _ _ Hget Hcls Hlt).
  unfold attempt_event. rewrite Hget.
  change ([(CallGet url (user_agent retry_count) credentials, ReplyPage (inl e))]
          ++ [(CallSleep (inject_Z (2 ^ Z.of_nat retry_count)), ReplyNone)])
    with [(CallGet url (user_agent retry_count) credentials, ReplyPage (inl e));
          (CallSleep (inject_Z (2 ^ Z.of_nat retry_count)), ReplyNone)].
  rewrite (fetch_on_page _ _ _ _ _ _ _ Hnext).
  unfold attempt_event. rewrite Hnext, <- app_assoc. reflexivity.
Qed.

(** X8: the result of every fetch is tidy: its content is at most 500
    characters long, and its title, heading and description carry no
    white space at either end. *)
Theorem fetch_result_tidy url retry_count max_retries credentials tr :
  exists page new_events,
    fetch_page_content requests_get url retry_count max_retries credentials tr
    = (inr page, tr ++ new_events)
    /\ String.length (cs_content page) <= 500
    /\ strip (cs_title page) = cs_title page
    /\ strip (cs_heading page) = cs_heading page
    /\ strip (cs_description page) = cs_description page.
Proof.
  destruct (fetch_shape requests_get url credentials
              (max_retries - retry_count) retry_count max_retries tr
              (Nat.le_refl _)) as (ev & last & Hrun & _).
  exists (signal_of url last), ev. split; [exact Hrun |].
  apply signal_of_tidy.
Qed.

End FetcherMore.

(** ** Quotients of integers in binary64 *)

Section Binary64.

Local Open Scope Z_scope.

Lemma digits2_pos_range p :
  2 ^ (Z.pos (digits2_pos p) - 1) <= Z.pos p < 2 ^ Z.pos (digits2_pos p).
Proof.
  induction p as [p IH | p IH |]; cbn [digits2_pos].
  - rewrite Pos2Z.inj_succ.
    replace (Z.succ (Z.pos (digits2_pos p)) - 1) with (Z.succ (Z.pos (digits2_pos p) - 1)) by lia.
    rewrite !Z.pow_succ_r by lia. lia.
  - rewrite Pos2Z.inj_succ.
    replace (Z.succ (Z.pos (digits2_pos p)) - 1) with (Z.succ (Z.pos (digits2_pos p) - 1)) by lia.
    rewrite !Z.pow_succ_r by lia. lia.
  - simpl. lia.
Qed.

Lemma digits2_pos_unique p k :
  2 ^ (k - 1) <= Z.pos p < 2 ^ k -> 0 < k -> Z.pos (digits2_pos p) = k.
Proof.
  intros [Hlo Hhi] Hk. pose proof (digits2_pos_range p) as [Dlo Dhi].
  set (d := Z.pos (digits2_pos p)) in *.
  assert (Hd : 0 < d) by (unfold d; lia).
  destruct (Z.lt_trichotomy d k) as [Hlt | [Heq | Hgt]]; [| exact Heq |].
  - exfalso. assert (2 ^ d <= 2 ^ (k - 1)) by (apply Z.pow_le_mono_r; lia). lia.
  - exfalso. assert (2 ^ k <= 2 ^ (d - 1)) by (apply Z.pow_le_mono_r; lia). lia.
Qed.

Lemma round_nearest_even_bounds m l :
  m <= round_nearest_even m l <= m + 1.
Proof.
  destruct l as [| []]; simpl; try lia. destruct (Z.even m); lia.
Qed.

Lemma shr_m_of_loc m l : shr_m (shr_record_of_loc m l) = m.
Proof. destruct l as [| []]; reflexivity. Qed.

Lemma shr_1_half m r s :
  0 <= m -> shr_m (shr_1 {| shr_m := m; shr_r := r; shr_s := s |}) = Z.div2 m.
Proof.
  intros Hm. destruct m as [| p | p]; [reflexivity | | lia].
  destruct p; reflexivity.
Qed.

Lemma shr_1_of_loc_half m l :
  0 <= m -> shr_m (shr_1 (shr_record_of_loc m l)) = Z.div2 m.
Proof. destruct l as [| []]; apply shr_1_half. Qed.

(** Rounding a mantissa that is already on 53 bits leaves it alone. *)
Lemma round_exact p e :
  4503599627370496 <= Z.pos p < 9007199254740992 -> -1000 <= e <= 900 ->
  shr_fexp 53 1024 (Z.pos p) e loc_Exact
  = ({| shr_m := Z.pos p; shr_r := false; shr_s := false |}, e).
Proof.
  intros Hp He. unfold shr_fexp.
  assert (Hd : Zdigits2 (Z.pos p) = 53).
  { simpl. apply digits2_pos_unique; [| lia]. simpl. lia. }
  rewrite Hd.
  replace (fexp 53 1024 (53 + e) - e) with 0 by (unfold fexp, emin; lia).
  reflexivity.
Qed.

(** The second rounding step: a mantissa on 53 bits stays, and [2 ^ 53]
    becomes [2 ^ 52] with the exponent raised by one. *)
Lemma round_carry r e :
  4503599627370496 <= r <= 9007199254740992 -> -1000 <= e <= 900 ->
  exists m ef,
    shr_fexp 53 1024 r e loc_Exact
    = ({| shr_m := Z.pos m; shr_r := false; shr_s := false |}, ef)
    /\ ((ef = e /\ Z.pos m = r /\ r < 9007199254740992)
        \/ (ef = e + 1 /\ m = 4503599627370496%positive
            /\ r = 9007199254740992)).
Proof.
  intros Hr He. destruct (Z.eq_dec r 9007199254740992) as [-> | Hne].
  - exists 4503599627370496%positive, (e + 1). split; [| right; repeat split].
    unfold shr_fexp.
    change (Zdigits2 9007199254740992) with 54.
    replace (fexp 53 1024 (54 + e) - e) with 1 by (unfold fexp, emin; lia).
    reflexivity.
  - destruct r as [| p | p]; try lia.
    exists p, e. split; [apply round_exact; lia | left; repeat split; lia].
Qed.

Lemma round_aux_range q e l :
  4503599627370496 <= q < 18014398509481984 -> -1000 <= e <= 800 ->
  exists m ef,
    binary_round_aux 53 1024 false q e l = S754_finite false m ef
    /\ (q < 9007199254740992 ->
        ef = e \/ (ef = e + 1 /\ m = 4503599627370496%positive))
    /\ (ef <= e + 1 \/ (ef = e + 2 /\ m = 4503599627370496%positive)).
Proof.
  intros Hq He. destruct q as [| p | p]; try lia.
  unfold binary_round_aux.
  destruct (Z_lt_le_dec (Z.pos p) 9007199254740992) as [Hsmall | Hbig].
  - assert (H1 : shr_fexp 53 1024 (Z.pos p) e l
                 = (shr_record_of_loc (Z.pos p) l, e)).
    { unfold shr_fexp.
      assert (Hd : Zdigits2 (Z.pos p) = 53).
      { simpl. apply digits2_pos_unique; [| lia]. simpl. lia. }
      rewrite Hd.
      replace (fexp 53 1024 (53 + e) - e) with 0 by (unfold fexp, emin; lia).
      reflexivity. }
    rewrite H1, shr_m_of_loc.
    pose proof (round_nearest_even_bounds (Z.pos p)
                  (loc_of_shr_record (shr_record_of_loc (Z.pos p) l))) as Hr1.
    set (r1 := round_nearest_even _ _) in *.
    destruct (round_carry r1 e ltac:(lia) ltac:(lia))
      as (m & ef & H2 & Hcases).
    rewrite H2. cbn [shr_m].
    exists m, ef.
    replace (ef <=? 1024 - 53) with true
      by (symmetry; apply Z.leb_le; lia).
    split; [reflexivity |]. split; intros; destruct Hcases as [(-> & _) | (-> & -> & _)]; auto; lia.
  - assert (H1 : shr_fexp 53 1024 (Z.pos p) e l
                 = (shr_1 (shr_record_of_loc (Z.pos p) l), e + 1)).
    { unfold shr_fexp.
      assert (Hd : Zdigits2 (Z.pos p) = 54).
      { simpl. apply digits2_pos_unique; [| lia]. simpl. lia. }
      rewrite Hd.
      replace (fexp 53 1024 (54 + e) - e) with 1 by (unfold fexp, emin; lia).
      reflexivity. }
    rewrite H1, shr_1_of_loc_half by lia.
    pose proof (round_nearest_even_bounds (Z.div2 (Z.pos p))
                  (loc_of_shr_record (shr_1 (shr_record_of_loc (Z.pos p) l))))
      as Hr1.
    assert (Hhalf : 4503599627370496 <= Z.div2 (Z.pos p) < 9007199254740992).
    { rewrite Z.div2_div. split.
      - apply Z.div_le_lower_bound; lia.
      - apply Z.div_lt_upper_bound; lia. }
    set (r1 := round_nearest_even _ _) in *.
    destruct (round_carry r1 (e + 1) ltac:(lia) ltac:(lia))
      as (m & ef & H2 & Hcases).
    rewrite H2. cbn [shr_m].
    exists m, ef.
    replace (ef <=? 1024 - 53) with true
      by (symmetry; apply Z.leb_le; lia).
    split; [reflexivity |]. split; [lia |].
    destruct Hcases as [(-> & _) | (-> & -> & _)]; [left; lia | right; split; [lia | reflexivity]].
Qed.

Lemma round_aux_exact p e :
  4503599627370496 <= Z.pos p < 9007199254740992 -> -1000 <= e <= 900 ->
  binary_round_aux 53 1024 false (Z.pos p) e loc_Exact = S754_finite false p e.
Proof.
  intros Hp He. unfold binary_round_aux.
  rewrite (round_exact p e Hp He). cbn [shr_m loc_of_shr_record round_nearest_even].
  rewrite (round_exact p e Hp He). cbn [shr_m].
  replace (e <=? 1024 - 53) with true by (symmetry; apply Z.leb_le; lia).
  reflexivity.
Qed.

Lemma iter_xO p k : Z.pos (Pos.iter xO p k) = Z.pos p * 2 ^ Z.pos k.
Proof.
  induction k as [| k IH] using Pos.peano_ind.
  - simpl. lia.
  - rewrite Pos.iter_succ, Pos2Z.inj_succ, Z.pow_succ_r by lia.
    rewrite Pos2Z.inj_xO, IH. lia.
Qed.

(** [float(n)] for a positive [n] below [2 ^ 53]: the mantissa is [n]
    shifted to 53 bits. *)
Lemma float_of_nat_normal n :
  (0 < n)%nat -> Z.of_nat n < 9007199254740992 ->
  exists m e,
    float_of_nat n = S754_finite false m e
    /\ 4503599627370496 <= Z.pos m < 9007199254740992
    /\ -52 <= e <= 0
    /\ Z.pos m = Z.of_nat n * 2 ^ (- e).
Proof.
  intros Hpos Hn. unfold float_of_nat, binary_normalize.
  destruct (Z.of_nat n) as [| p | p] eqn:Hp; try lia.
  unfold binary_round, shl_align.
  pose proof (digits2_pos_range p) as [Dlo Dhi].
  set (d := Z.pos (digits2_pos p)) in *.
  assert (Hd1 : 1 <= d) by (unfold d; lia).
  assert (Hd53 : d <= 53).
  { destruct (Z_le_gt_dec d 53) as [H | H]; [exact H | exfalso].
    assert (2 ^ 53 <= 2 ^ (d - 1)) by (apply Z.pow_le_mono_r; lia).
    change (2 ^ 53) with 9007199254740992 in *. lia. }
  replace (fexp 53 1024 (d + 0) - 0) with (d - 53)
    by (unfold fexp, emin; lia).
  replace (fexp 53 1024 (d + 0)) with (d - 53)
    by (unfold fexp, emin; lia).
  destruct (d - 53) as [| k | k] eqn:Hk; try lia.
  - assert (Hd : d = 53) by lia. rewrite Hd in *.
    change (2 ^ (53 - 1)) with 4503599627370496 in Dlo.
    exists p, 0. split; [apply round_aux_exact; lia |].
    split; [lia |]. split; [lia |]. simpl. lia.
  - assert (Hshift : Z.pos k = 53 - d) by lia.
    pose proof (iter_xO p k) as Hm.
    assert (Hpow : 2 ^ (d - 1) * 2 ^ Z.pos k = 4503599627370496).
    { rewrite <- Z.pow_add_r by lia. now replace (d - 1 + Z.pos k) with 52 by lia. }
    assert (Hpow' : 2 ^ d * 2 ^ Z.pos k = 9007199254740992).
    { rewrite <- Z.pow_add_r by lia. now replace (d + Z.pos k) with 53 by lia. }
    assert (Hk0 : 0 < 2 ^ Z.pos k) by (apply Z.pow_pos_nonneg; lia).
    exists (Pos.iter xO p k), (Z.neg k).
    split; [apply round_aux_exact; [nia | lia] |].
    split; [nia |]. split; [lia |].
    rewrite Hm. now replace (- Z.neg k) with (Z.pos k) by lia.
Qed.

Lemma new_location_exact n : new_location n 0 = loc_Exact.
Proof.
  unfold new_location, new_location_even, new_location_odd.
  now destruct (Z.even n).
Qed.

Lemma div_core_normal m1 e1 m2 e2 :
  4503599627370496 <= Z.pos m1 < 9007199254740992 ->
  4503599627370496 <= Z.pos m2 < 9007199254740992 ->
  -52 <= e1 <= 0 -> -52 <= e2 <= 0 ->
  SFdiv_core_binary 53 1024 (Z.pos m1) e1 (Z.pos m2) e2
  = (let '(q, r) := Z.div_eucl (Z.pos m1 * 9007199254740992) (Z.pos m2) in
     (q, e1 - e2 - 53, new_location (Z.pos m2) r)).
Proof.
  intros H1 H2 He1 He2. unfold SFdiv_core_binary.
  assert (Hd1 : Zdigits2 (Z.pos m1) = 53)
    by (simpl; apply digits2_pos_unique; [simpl; lia | lia]).
  assert (Hd2 : Zdigits2 (Z.pos m2) = 53)
    by (simpl; apply digits2_pos_unique; [simpl; lia | lia]).
  rewrite Hd1, Hd2.
  replace (Z.min (fexp 53 1024 (53 + e1 - (53 + e2))) (e1 - e2))
    with (e1 - e2 - 53) by (unfold fexp, emin; lia).
  replace (e1 - e2 - (e1 - e2 - 53)) with 53 by lia.
  cbv zeta.
  change (match 53 with
          | 0 => Z.pos m1
          | Z.pos _ => Z.shiftl (Z.pos m1) 53
          | Z.neg _ => 0
          end) with (Z.shiftl (Z.pos m1) 53).
  rewrite Z.shiftl_mul_pow2 by lia.
  change (2 ^ 53) with 9007199254740992. reflexivity.
Qed.

(** The quotient of a positive integer by one that is at least as large,
    both below [2 ^ 53], is a positive float that is at most 1. *)
Lemma truediv_shape a b :
  (0 < a <= b)%nat -> Z.of_nat b < 9007199254740992 ->
  exists m e,
    truediv a b = S754_finite false m e
    /\ (e < -52 \/ (e = -52 /\ m = 4503599627370496%positive)).
Proof.
  intros Hab Hb. unfold truediv.
  destruct (float_of_nat_normal a) as (m1 & e1 & -> & Hm1 & He1 & Hv1); [lia | lia |].
  destruct (float_of_nat_normal b) as (m2 & e2 & -> & Hm2 & He2 & Hv2); [lia | lia |].
  assert (Hle : e1 <= e2).
  { destruct (Z_le_gt_dec e1 e2) as [H | H]; [exact H | exfalso].
    assert (Hsplit : 2 ^ (- e2) = 2 ^ (- e1) * 2 ^ (e1 - e2)).
    { rewrite <- Z.pow_add_r by lia. f_equal. lia. }
    assert (Htwo : 2 ^ 1 <= 2 ^ (e1 - e2)) by (apply Z.pow_le_mono_r; lia).
    change (2 ^ 1) with 2 in Htwo.
    assert (Hp : 0 < 2 ^ (- e1)) by (apply Z.pow_pos_nonneg; lia).
    assert (Hab' : Z.of_nat a <= Z.of_nat b) by lia.
    nia. }
  assert (Heq : e1 = e2 -> Z.pos m1 <= Z.pos m2).
  { intros ->. rewrite Hv1, Hv2.
    apply Z.mul_le_mono_nonneg_r; [apply Z.pow_nonneg; lia | lia]. }
  simpl SFdiv. rewrite (div_core_normal m1 e1 m2 e2 Hm1 Hm2 He1 He2).
  pose proof (Z_div_mod (Z.pos m1 * 9007199254740992) (Z.pos m2) ltac:(lia))
    as Hdiv.
  destruct (Z.div_eucl (Z.pos m1 * 9007199254740992) (Z.pos m2)) as (q, r).
  destruct Hdiv as (Hdiv & Hr).
  assert (Hq : 4503599627370496 <= q < 18014398509481984) by nia.
  destruct (Z.eq_dec e1 e2) as [Hsame | Hdiff];
    [destruct (Z.eq_dec (Z.pos m1) (Z.pos m2)) as [Hm | Hm] |].
  - assert (q = 9007199254740992 /\ r = 0) as (-> & ->).
    { apply (Z.div_mod_unique (Z.pos m2)); [left; lia | left; lia |].
      rewrite <- Hdiv, Hm. lia. }
    rewrite new_location_exact. subst e2.
    replace (e1 - e1 - 53) with (-53) by lia.
    exists 4503599627370496%positive, (-52).
    split; [reflexivity | right; now split].
  - specialize (Heq Hsame). subst e2.
    replace (e1 - e1 - 53) with (-53) by lia.
    destruct (round_aux_range q (-53) (new_location (Z.pos m2) r) Hq ltac:(lia))
      as (m & ef & Hround & Hsmall & _).
    exists m, ef. split; [exact Hround |].
    assert (Hq53 : q < 9007199254740992) by nia.
    destruct (Hsmall Hq53) as [-> | (-> & ->)]; [left; lia | right; now split].
  - destruct (round_aux_range q (e1 - e2 - 53) (new_location (Z.pos m2) r)
                Hq ltac:(lia))
      as (m & ef & Hround & _ & Hany).
    exists m, ef. split; [exact Hround |].
    destruct Hany as [H | (-> & ->)]; [left; lia |].
    destruct (Z.eq_dec (e1 - e2 - 53 + 2) (-52)) as [H | H];
      [right; now split | left; lia].
Qed.

Lemma truediv_in_range a b :
  (0 < a <= b)%nat -> Z.of_nat b < 9007199254740992 ->
  in_unit_range (truediv a b) = true.
Proof.
  intros Hab Hb.
  destruct (truediv_shape a b Hab Hb) as (m & e & -> & He).
  unfold in_unit_range, SFltb, SFleb, float_0, float_1. cbn [SFcompare andb].
  destruct He as [He | (-> & ->)].
  - now rewrite (proj2 (Z.compare_lt_iff e (-52)) He).
  - reflexivity.
Qed.

(** The quotient of a positive integer below [2 ^ 53] by itself is 1.0. *)
Lemma truediv_diag n :
  (0 < n)%nat -> Z.of_nat n < 9007199254740992 -> truediv n n = float_1.
Proof.
  intros Hpos Hn. unfold truediv.
  destruct (float_of_nat_normal n Hpos Hn) as (m & e & -> & Hm & He & _).
  simpl SFdiv. rewrite (div_core_normal m e m e Hm Hm He He).
  pose proof (Z_div_mod (Z.pos m * 9007199254740992) (Z.pos m) ltac:(lia))
    as Hdiv.
  destruct (Z.div_eucl (Z.pos m * 9007199254740992) (Z.pos m)) as (q, r).
  destruct Hdiv as (Hdiv & Hr).
  assert (q = 9007199254740992 /\ r = 0) as (-> & ->).
  { apply (Z.div_mod_unique (Z.pos m)); [left; lia | left; lia |].
    rewrite <- Hdiv. lia. }
  rewrite new_location_exact.
  replace (e - e - 53) with (-53) by lia. reflexivity.
Qed.

End Binary64.

(** ** The crawl loop in general *)

Lemma attempts_app tr1 tr2 : attempts (tr1 ++ tr2) = attempts tr1 ++ attempts tr2.
Proof. unfold attempts. now rewrite map_app, filter_app. Qed.

Lemma sleeps_app tr1 tr2 : sleeps (tr1 ++ tr2) = sleeps tr1 ++ sleeps tr2.
Proof. unfold sleeps. now rewrite map_app, flat_map_app. Qed.

Lemma progress_values_app tr1 tr2 :
  progress_values (tr1 ++ tr2) = progress_values tr1 ++ progress_values tr2.
Proof. unfold progress_values. now rewrite map_app, flat_map_app. Qed.

Lemma error_reports_app tr1 tr2 :
  error_reports (tr1 ++ tr2) = error_reports tr1 ++ error_reports tr2.
Proof. unfold error_reports. now rewrite map_app, flat_map_app. Qed.

Lemma prompts_append tr1 tr2 : prompts (tr1 ++ tr2) = prompts tr1 ++ prompts tr2.
Proof. unfold prompts. now rewrite map_app, flat_map_app. Qed.

Lemma replies_append tr1 tr2 :
  generate_replies (tr1 ++ tr2) = generate_replies tr1 ++ generate_replies tr2.
Proof. apply flat_map_app. Qed.

(** A fetch calls nothing but the HTTP collaborator and [time.sleep]. *)
Lemma fetch_events_quiet url credentials max_retries retry_count ev last :
  fetch_events url credentials max_retries retry_count ev last ->
  progress_values ev = [] /\ prompts ev = [] /\ error_reports ev = []
  /\ generate_replies ev = [].
Proof.
  induction 1 as [rc last Hstop | rc r base rest last Hbase Hlt _ IH];
    [now repeat split |].
  destruct IH as (H1 & H2 & H3 & H4).
  unfold progress_values, prompts, error_reports, generate_replies in *.
  simpl. now rewrite H1, H2, H3, H4.
Qed.

(** Every progress value of a loop of [n] turns is the quotient by [n] of
    a positive integer that is at most [n], and the last one is [n / n];
    so, for [n] below [2 ^ 53], every value is above 0 and at most 1, and
    the last one is 1. *)
Lemma progress_steps_operands n :
  List.length (progress_steps n) = n
  /\ Forall (fun v => exists a, 0 < a <= n /\ v = truediv a n) (progress_steps n)
  /\ (0 < n -> last (progress_steps n) S754_nan = truediv n n)
  /\ ((Z.of_nat n < 9007199254740992)%Z ->
      Forall (fun v => in_unit_range v = true) (progress_steps n)
      /\ (0 < n -> last (progress_steps n) S754_nan = float_1)).
Proof.
  assert (Hlast : 0 < n -> last (progress_steps n) S754_nan = truediv n n).
  { unfold progress_steps. intros Hn. destruct n as [| n]; [lia |].
    rewrite seq_S, map_app. cbn [map]. rewrite last_last.
    now replace (0 + n + 1) with (S n) by lia. }
  unfold progress_steps in *.
  split; [now rewrite length_map, length_seq |]. split; [| split; [exact Hlast |]].
  - apply Forall_forall. intros v Hv.
    apply in_map_iff in Hv as (i & <- & Hi). apply in_seq in Hi.
    exists (i + 1). split; [lia | reflexivity].
  - intros Hsmall. split.
    + apply Forall_forall. intros v Hv.
      apply in_map_iff in Hv as (i & <- & Hi). apply in_seq in Hi.
      apply truediv_in_range; [lia | exact Hsmall].
    + intros Hn. rewrite (Hlast Hn). now apply truediv_diag.
Qed.

Lemma crawl_turn_readings total i url fetched :
  attempts (crawl_turn_events total i url fetched) = attempts fetched
  /\ progress_values (crawl_turn_events total i url fetched)
     = truediv (i + 1) total :: progress_values fetched
  /\ prompts (crawl_turn_events total i url fetched) = prompts fetched
  /\ generate_replies (crawl_turn_events total i url fetched)
     = generate_replies fetched.
Proof.
  unfold crawl_turn_events, attempts, progress_values, prompts,
    generate_replies.
  simpl. rewrite !map_app, filter_app, !flat_map_app. simpl.
  now rewrite !app_nil_r.
Qed.

Section CrawlShape.

Variable requests_get :
  Trace -> string -> string -> option Credentials -> Exn + Soup.

Lemma crawl_step_shape total credentials i url results auth_urls tr :
  exists fetched last,
    crawl_step requests_get total credentials (i, url) (results, auth_urls) tr
    = (inr (results ++ [signal_of url last],
            if needs_auth (signal_of url last)
            then auth_urls ++ [url] else auth_urls),
       tr ++ crawl_turn_events total i url fetched)
    /\ fetch_events url credentials 3 0 fetched last.
Proof.
  unfold crawl_step, bind, tell, fetch.
  match goal with
  | |- context [fetch_page_content requests_get url 0 3 credentials ?t] =>
      destruct (fetch_shape requests_get url credentials 3 0 3 t
                  (Nat.le_refl _)) as (ev & last & Hrun & Hshape)
  end.
  rewrite Hrun. exists ev, last. split; [| exact Hshape].
  unfold ret, crawl_turn_events. rewrite <- !app_assoc. reflexivity.
Qed.

(** The whole loop: the turns in input order, each around a fetch of at
    most four attempts. *)
Lemma crawl_loop_shape total credentials url_list :
  forall first results auth_urls tr,
  exists fetched new_events counts,
    for_loop (combine (seq first (List.length url_list)) url_list)
      (crawl_step requests_get total credentials) (results, auth_urls) tr
    = (inr (results ++ fetched,
            auth_urls ++ map cs_url (filter needs_auth fetched)),
       tr ++ new_events)
    /\ map cs_url fetched = url_list
    /\ List.length counts = List.length url_list
    /\ Forall (fun c => 1 <= c <= 4) counts
    /\ attempts new_events
       = List.concat (map (fun uc => tries (fst uc) credentials (snd uc))
                        (combine url_list counts))
    /\ progress_values new_events
       = map (fun i => truediv (i + 1) total)
           (seq first (List.length url_list))
    /\ prompts new_events = [] /\ generate_replies new_events = [].
Proof.
  induction url_list as [| url rest IH]; intros first results auth_urls tr.
  - exists [], [], []. simpl. unfold ret. rewrite !app_nil_r.
    repeat split. constructor.
  - cbn [for_loop combine seq List.length]. unfold bind at 1.
    destruct (crawl_step_shape total credentials first url results auth_urls tr)
      as (ev1 & last & Hstep & Hshape).
    rewrite Hstep.
    destruct (IH (S first) (results ++ [signal_of url last])
                (if needs_auth (signal_of url last)
                 then auth_urls ++ [url] else auth_urls)
                (tr ++ crawl_turn_events total first url ev1))
      as (fetched & ev2 & counts & Hloop & Hurls & Hlen & Hcounts & Hatt & Hprog
          & Hprompts & Hreplies).
    rewrite Hloop.
    destruct (fetch_events_attempts _ _ _ _ _ _ Hshape)
      as (Hcalls & Hone & Hmax & _).
    destruct (fetch_events_quiet _ _ _ _ _ _ Hshape) as (Hq1 & Hq2 & _ & Hq4).
    exists (signal_of url last :: fetched),
      (crawl_turn_events total first url ev1 ++ ev2),
      (List.length (attempts ev1) :: counts).
    split.
    { rewrite <- !app_assoc. simpl.
      destruct (needs_auth (signal_of url last)); simpl; [| reflexivity].
      now rewrite signal_of_url, <- app_assoc. }
    split; [simpl; now rewrite signal_of_url, Hurls |].
    split; [simpl; now rewrite Hlen |].
    split; [constructor; [simpl in Hmax; lia | exact Hcounts] |].
    destruct (crawl_turn_readings total first url ev1) as (Ht1 & Ht2 & Ht3 & Ht4).
    rewrite attempts_app, progress_values_app, prompts_append, replies_append.
    rewrite Hatt, Hprog, Hprompts, Hreplies, Ht1, Ht2, Ht3, Ht4, Hq1, Hq2, Hq4.
    repeat split. cbn [map List.concat combine fst snd].
    f_equal. exact Hcalls.
Qed.

End CrawlShape.

(** The crawl of a list calls nothing but the HTTP collaborator, for the
    URLs of the list, the status text, the progress bar and [time.sleep]. *)
Lemma crawl_events_readings credentials url_list fetches total :
  forall first,
    fetches_of credentials url_list fetches ->
    prompts (crawl_events total first url_list fetches) = []
    /\ generate_replies (crawl_events total first url_list fetches) = []
    /\ Forall (fun c => exists url ua,
                  c = CallGet url ua credentials /\ In url url_list)
         (attempts (crawl_events total first url_list fetches)).
Proof.
  intros first Hfetches. revert first.
  induction Hfetches as [| url run urls runs Hrun _ IH]; intros first.
  - repeat split. constructor.
  - destruct (IH (S first)) as (Hprompts & Hreplies & Htargets).
    destruct (crawl_turn_readings total first url (fst run))
      as (Ht1 & _ & Ht3 & Ht4).
    destruct (fetch_events_quiet _ _ _ _ _ _ Hrun) as (_ & Hq2 & _ & Hq4).
    destruct (fetch_events_attempts _ _ _ _ _ _ Hrun) as (Hcalls & _).
    cbn [crawl_events].
    rewrite prompts_append, replies_append, attempts_app.
    rewrite Ht1, Ht3, Ht4, Hq2, Hq4, Hprompts, Hreplies.
    repeat split. apply Forall_app. split.
    + rewrite Hcalls. apply Forall_forall. intros c Hc.
      apply in_map_iff in Hc as (k & <- & _).
      exists url, (user_agent k). split; [reflexivity | now left].
    + eapply Forall_impl; [| exact Htargets].
      intros c (u & ua & -> & Hin). exists u, ua.
      split; [reflexivity | now right].
Qed.

Lemma tries_total (credentials : option Credentials) url_list :
  forall counts,
    List.length counts = List.length url_list ->
    Forall (fun c => 1 <= c <= 4) counts ->
    List.length url_list
    <= List.length
         (List.concat (map (fun uc => tries (fst uc) credentials (snd uc))
                         (combine url_list counts)))
    <= 4 * List.length url_list.
Proof.
  induction url_list as [| url rest IH]; intros [| c counts] Hlen Hcounts;
    simpl in *; try lia.
  inversion Hcounts as [| ? ? Hc Hrest]; subst.
  specialize (IH counts ltac:(lia) Hrest).
  rewrite length_app. unfold tries at 1 3. rewrite length_map, length_seq. lia.
Qed.

Section CrawlMore.

Variable requests_get :
  Trace -> string -> string -> option Credentials -> Exn + Soup.

(** X9: a crawl sends its requests URL by URL in input order: the
    requests are, for each URL of the list in turn, between one and four
    attempts at that URL, numbered from 0, all with the credentials of the
    crawl.  So a crawl of [n] URLs sends between [n] and [4 * n] requests,
    none for a URL outside the list, and never calls the inference
    collaborator. *)
Theorem crawl_requests_in_order url_list credentials tr :
  exists results auth_urls new_events counts,
    crawl_urls requests_get url_list credentials tr
    = (inr (results, auth_urls), tr ++ new_events)
    /\ List.length counts = List.length url_list
    /\ Forall (fun c => 1 <= c <= 4) counts
    /\ attempts new_events
       = List.concat (map (fun uc => tries (fst uc) credentials (snd uc))
                        (combine url_list counts))
    /\ List.length url_list <= List.length (attempts new_events)
       <= 4 * List.length url_list
    /\ prompts new_events = [].
Proof.
  unfold crawl_urls, enumerate.
  destruct (crawl_loop_shape requests_get (List.length url_list) credentials
              url_list 0 [] [] tr)
    as (fetched & ev & counts & Hloop & _ & Hlen & Hcounts & Hatt & _
        & Hprompts & _).
  exists fetched, (map cs_url (filter needs_auth fetched)), ev, counts.
  split; [exact Hloop |]. split; [exact Hlen |]. split; [exact Hcounts |].
  split; [exact Hatt |]. split; [| exact Hprompts].
  rewrite Hatt. now apply tries_total.
Qed.

(** X10: the progress values a crawl of [n] URLs reports are the
    binary64 quotients [1 / n], [2 / n], ..., [n / n], in this order, one
    for each URL: every value is the quotient by [n] of a positive integer
    that is at most [n], and the last one is [n / n].  For a list of fewer
    than [2 ^ 53] URLs every value is above 0 and at most 1, which is
    inside the range the progress bar accepts, and the last one is 1.  A
    crawl of no URL reports nothing and calls nothing, so the division by
    the number of URLs is never made with 0. *)
Theorem crawl_progress_in_range url_list credentials tr :
  (exists results auth_urls new_events,
      crawl_urls requests_get url_list credentials tr
      = (inr (results, auth_urls), tr ++ new_events)
      /\ progress_values new_events = progress_steps (List.length url_list)
      /\ List.length (progress_values new_events) = List.length url_list
      /\ Forall (fun v => exists a,
                    0 < a <= List.length url_list
                    /\ v = truediv a (List.length url_list))
           (progress_values new_events)
      /\ (url_list <> [] ->
          last (progress_values new_events) S754_nan
          = truediv (List.length url_list) (List.length url_list))
      /\ ((Z.of_nat (List.length url_list) < 9007199254740992)%Z ->
          Forall (fun v => in_unit_range v = true) (progress_values new_events)
          /\ (url_list <> [] ->
              last (progress_values new_events) S754_nan = float_1)))
  /\ crawl_urls requests_get [] credentials tr = (inr ([], []), tr).
Proof.
  split; [| reflexivity].
  unfold crawl_urls, enumerate.
  destruct (crawl_loop_shape requests_get (List.length url_list) credentials
              url_list 0 [] [] tr)
    as (fetched & ev & counts & Hloop & _ & _ & _ & _ & Hprog & _).
  exists fetched, (map cs_url (filter needs_auth fetched)), ev.
  split; [exact Hloop |].
  fold (progress_steps (List.length url_list)) in Hprog. rewrite Hprog.
  destruct (progress_steps_operands (List.length url_list))
    as (Hlen & Hrange & Hlast & Hunit).
  assert (Hsome : url_list <> [] -> 0 < List.length url_list)
    by (destruct url_list; [contradiction | simpl; lia]).
  split; [reflexivity |]. split; [exact Hlen |]. split; [exact Hrange |].
  split; [intros Hne; apply Hlast, Hsome, Hne |].
  intros Hsmall. destruct (Hunit Hsmall) as (Hin & Hone).
  split; [exact Hin | intros Hne; apply Hone, Hsome, Hne].
Qed.

End CrawlMore.

(** ** The matching loop in general *)

Lemma match_turn_readings {I} json_loads model_name (old_data : list I)
    build_prompt batch_size n_batches batch_num reply :
  let turn := match_turn_events json_loads model_name old_data build_prompt
                batch_size n_batches batch_num reply in
  generate_replies turn = [reply]
  /\ prompts turn = [build_prompt (old_batch old_data batch_size batch_num)]
  /\ progress_values turn = [truediv (batch_num + 1) n_batches]
  /\ attempts turn = []
  /\ error_reports turn
     = match yield json_loads reply with
       | inl e => [batch_error batch_num e]
       | inr _ => []
       end
  /\ sleeps turn
     = match yield json_loads reply with
       | inl _ => []
       | inr _ => [3 # 2]
       end.
Proof.
  unfold match_turn_events, generate_replies, prompts, progress_values,
    attempts, error_reports, sleeps.
  destruct (yield json_loads reply); simpl; repeat split.
Qed.

Section MatchShape.

Variable generate_content : Trace -> string -> string -> Exn + option string.
Variable json_loads : string -> Exn + PyVal.

Lemma match_step_events {I} model_name (old_data : list I) build_prompt
    batch_size n_batches batch_num all_matches tr :
  exists reply,
    match_step generate_content json_loads model_name old_data build_prompt
      batch_size n_batches batch_num all_matches tr
    = (inr (all_matches ++ contributed json_loads reply),
       tr ++ match_turn_events json_loads model_name old_data build_prompt
               batch_size n_batches batch_num reply).
Proof.
  unfold match_step, bind, tell, try_except, batch_try, bind, generate, lift, ret.
  match goal with
  | |- context [generate_content ?t ?m ?p] =>
      set (reply := generate_content t m p)
  end.
  exists reply. unfold match_turn_events, contributed, yield, batch_error.
  destruct reply as [e | response_text].
  - rewrite app_nil_r, <- !app_assoc. reflexivity.
  - destruct (parse_matches json_loads response_text) as [e | new_items].
    + rewrite app_nil_r, <- !app_assoc. reflexivity.
    + rewrite <- !app_assoc. reflexivity.
Qed.

Lemma match_turns_events {I} model_name (old_data : list I) build_prompt
    batch_size n_batches count :
  forall first all_matches tr,
  exists replies,
    for_loop (seq first count)
      (match_step generate_content json_loads model_name old_data build_prompt
         batch_size n_batches) all_matches tr
    = (inr (all_matches ++ List.concat (map (contributed json_loads) replies)),
       tr ++ flat_map
               (fun kr => match_turn_events json_loads model_name old_data
                            build_prompt batch_size n_batches (fst kr) (snd kr))
               (combine (seq first count) replies))
    /\ List.length replies = count.
Proof.
  induction count as [| count IH]; intros first all_matches tr.
  - exists []. simpl. unfold ret. now rewrite !app_nil_r.
  - cbn [for_loop seq]. unfold bind at 1.
    destruct (match_step_events model_name old_data build_prompt batch_size
                n_batches first all_matches tr) as (reply & Hstep).
    rewrite Hstep.
    destruct (IH (S first) (all_matches ++ contributed json_loads reply)
                (tr ++ match_turn_events json_loads model_name old_data
                         build_prompt batch_size n_batches first reply))
      as (replies & Hloop & Hlen).
    rewrite Hloop. exists (reply :: replies).
    split; [| simpl; now rewrite Hlen].
    cbn [map List.concat combine flat_map fst snd].
    now rewrite <- !app_assoc.
Qed.

End MatchShape.

Lemma match_turns_readings {I} json_loads model_name (old_data : list I)
    build_prompt batch_size n_batches replies :
  forall first,
  let turns :=
    flat_map (fun kr => match_turn_events json_loads model_name old_data
                          build_prompt batch_size n_batches (fst kr) (snd kr))
      (combine (seq first (List.length replies)) replies) in
  generate_replies turns = replies
  /\ prompts turns
     = map (fun k => build_prompt (old_batch old_data batch_size k))
         (seq first (List.length replies))
  /\ progress_values turns
     = map (fun i => truediv (i + 1) n_batches)
         (seq first (List.length replies))
  /\ attempts turns = []
  /\ error_reports turns = failure_reports json_loads first replies
  /\ sleeps turns = success_pauses json_loads replies
  /\ List.length (error_reports turns) + List.length (sleeps turns)
     = List.length replies.
Proof.
  induction replies as [| reply replies IH]; intros first; [now repeat split |].
  destruct (IH (S first)) as (H1 & H2 & H3 & H4 & H5 & H6 & H7).
  destruct (match_turn_readings json_loads model_name old_data build_prompt
              batch_size n_batches first reply)
    as (T1 & T2 & T3 & T4 & T5 & T6).
  cbn [List.length seq combine flat_map fst snd map].
  rewrite replies_append, prompts_append, progress_values_app, attempts_app,
    error_reports_app, sleeps_app.
  rewrite H1, H2, H3, H4, H5, H6, T1, T2, T3, T4, T5, T6.
  rewrite H5, H6 in H7.
  unfold failure_reports, success_pauses.
  cbn [List.length seq combine flat_map fst snd map].
  repeat split.
  rewrite !length_app.
  unfold failure_reports, success_pauses in H7.
  destruct (yield json_loads reply); simpl; lia.
Qed.

Lemma batches_map {I J} (f : I -> J) (items : list I) n :
  batches (map f items) n = map (map f) (batches items n).
Proof.
  unfold batches. rewrite total_batches_map, map_map.
  apply map_ext. intros k. unfold old_batch, slice.
  now rewrite length_map, firstn_map, skipn_map.
Qed.

Section MatchMore.

Variable generate_content : Trace -> string -> string -> Exn + option string.
Variable json_loads : string -> Exn + PyVal.

(** Everything the loop does, read off its events. *)
Lemma match_loop_readings {I} model_name (old_data : list I) build_prompt tr :
  exists new_events,
    match_loop generate_content json_loads model_name old_data build_prompt tr
    = (inr (List.concat (map (contributed json_loads)
                           (generate_replies new_events))),
       tr ++ new_events)
    /\ List.length (generate_replies new_events)
       = total_batches old_data (batch_size_for model_name)
    /\ prompts new_events
       = map build_prompt (batches old_data (batch_size_for model_name))
    /\ progress_values new_events
       = progress_steps (total_batches old_data (batch_size_for model_name))
    /\ attempts new_events = []
    /\ error_reports new_events
       = failure_reports json_loads 0 (generate_replies new_events)
    /\ sleeps new_events = success_pauses json_loads (generate_replies new_events)
    /\ List.length (error_reports new_events) + List.length (sleeps new_events)
       = total_batches old_data (batch_size_for model_name).
Proof.
  unfold match_loop.
  set (n := total_batches old_data (batch_size_for model_name)).
  destruct (match_turns_events generate_content json_loads model_name old_data
              build_prompt (batch_size_for model_name) n n 0 [] tr)
    as (replies & Hloop & Hlen).
  destruct (match_turns_readings json_loads model_name old_data build_prompt
              (batch_size_for model_name) n replies 0)
    as (H1 & H2 & H3 & H4 & H5 & H6 & H7).
  rewrite Hlen in *.
  eexists. rewrite Hloop. rewrite H1. simpl app at 1.
  split; [reflexivity |]. split; [exact Hlen |].
  split; [rewrite H2; unfold batches; fold n; now rewrite map_map |].
  split; [exact H3 |]. split; [exact H4 |]. split; [exact H5 |].
  split; [exact H6 | exact H7].
Qed.

(** X11: in URL-only mode the prompts sent are, batch by batch, the
    template filled with the URLs of the batch, one per line, and with all
    the new URLs, one per line; the batches are cut from the old URLs and
    together are exactly the old URLs, in order.  So every old URL is in
    one prompt, every prompt holds the whole list of new URLs, and no page
    is requested. *)
Theorem url_prompts_cover_all model_name old_urls new_urls tr :
  exists all_matches new_events,
    match_urls generate_content json_loads model_name
      (UrlLists old_urls new_urls) tr
    = (inr all_matches, tr ++ new_events)
    /\ prompts new_events
       = map (fun batch => url_template (join nl batch) (join nl new_urls))
           (batches old_urls (batch_size_for model_name))
    /\ List.concat (batches old_urls (batch_size_for model_name)) = old_urls
    /\ attempts new_events = [].
Proof.
  destruct (match_loop_readings model_name (map mkUrlItem old_urls)
              (fun b => url_prompt b (map mkUrlItem new_urls)) tr)
    as (ev & Hrun & _ & Hprompts & _ & Hatt & _).
  eexists _, ev. split; [exact Hrun |].
  split; [| split; [apply batches_concat, batch_size_for_positive | exact Hatt]].
  rewrite Hprompts, batches_map, map_map. apply map_ext. intros batch.
  unfold url_prompt. rewrite !map_map. simpl. now rewrite !map_id.
Qed.

(** The readings that do not depend on the mode. *)
Lemma match_urls_readings model_name data tr :
  exists new_events,
    match_urls generate_content json_loads model_name data tr
    = (inr (List.concat (map (contributed json_loads)
                           (generate_replies new_events))),
       tr ++ new_events)
    /\ List.length (generate_replies new_events) = n_batches_of model_name data
    /\ progress_values new_events = progress_steps (n_batches_of model_name data)
    /\ attempts new_events = []
    /\ error_reports new_events
       = failure_reports json_loads 0 (generate_replies new_events)
    /\ sleeps new_events = success_pauses json_loads (generate_replies new_events)
    /\ List.length (error_reports new_events) + List.length (sleeps new_events)
       = n_batches_of model_name data.
Proof.
  destruct data as [old_data new_data | old_data new_data]; simpl.
  - destruct (match_loop_readings model_name (map mkUrlItem old_data)
                (fun b => url_prompt b (map mkUrlItem new_data)) tr)
      as (ev & Hrun & Hlen & _ & Hprog & Hatt & Herr & Hsleep & Hsum).
    rewrite total_batches_map in *. now exists ev.
  - destruct (match_loop_readings model_name (filter is_success old_data)
                (fun b => crawled_prompt b new_data) tr)
      as (ev & Hrun & Hlen & _ & Hprog & Hatt & Herr & Hsleep & Hsum).
    now exists ev.
Qed.

(** X12: the progress values a matching run of [n] batches reports are
    the binary64 quotients [1 / n], [2 / n], ..., [n / n], in this order,
    whatever the replies: every value is the quotient by [n] of a positive
    integer that is at most [n], so no division is by 0, and the last one
    is [n / n].  For fewer than [2 ^ 53] batches every value is above 0 and
    at most 1, which is inside the range the progress bar accepts, and the
    last one is 1. *)
Theorem match_progress_in_range model_name data tr :
  exists all_matches new_events,
    match_urls generate_content json_loads model_name data tr
    = (inr all_matches, tr ++ new_events)
    /\ progress_values new_events = progress_steps (n_batches_of model_name data)
    /\ List.length (progress_values new_events) = n_batches_of model_name data
    /\ Forall (fun v => exists a,
                  0 < a <= n_batches_of model_name data
                  /\ v = truediv a (n_batches_of model_name data))
         (progress_values new_events)
    /\ (0 < n_batches_of model_name data ->
        last (progress_values new_events) S754_nan
        = truediv (n_batches_of model_name data) (n_batches_of model_name data))
    /\ ((Z.of_nat (n_batches_of model_name data) < 9007199254740992)%Z ->
        Forall (fun v => in_unit_range v = true) (progress_values new_events)
        /\ (0 < n_batches_of model_name data ->
            last (progress_values new_events) S754_nan = float_1)).
Proof.
  destruct (match_urls_readings model_name data tr)
    as (ev & Hrun & _ & Hprog & _).
  eexists _, ev. split; [exact Hrun |]. rewrite Hprog.
  destruct (progress_steps_operands (n_batches_of model_name data))
    as (Hlen & Hrange & Hlast & Hunit).
  split; [reflexivity |]. split; [exact Hlen |]. split; [exact Hrange |].
  split; [exact Hlast | exact Hunit].
Qed.


End MatchMore.

(** ** Code fences *)

(** Text without a backquote holds no fence: replacing a fence in it, and
    in what follows it, leaves it as it is. *)
Lemma replace_from_plain old' new s rest :
  has_char "`" s = false ->
  replace_from (String "`" old') new 0 (String.append s rest)
  = String.append s (replace_from (String "`" old') new 0 rest).
Proof.
  induction s as [| c s IH]; [reflexivity |].
  cbn [has_char String.append]. intros Hs.
  apply orb_false_iff in Hs as (Hc & Hs).
  cbn [replace_from startswith].
  rewrite Ascii.eqb_sym, Hc. cbn [andb]. now rewrite (IH Hs).
Qed.

Lemma strip_padded s w :
  (forall c, has_char c w = true -> isspace c = true) ->
  strip (String.append s w) = strip s.
Proof.
  intros Hw. unfold strip. induction s as [| c s IH].
  - cbn [String.append lstrip].
    assert (Hl : lstrip w = EmptyString).
    { induction w as [| a w IHw]; [reflexivity |]. cbn [lstrip].
      rewrite (Hw a) by (simpl; now rewrite Ascii.eqb_refl).
      apply IHw. intros b Hb. apply Hw. simpl. rewrite Hb. apply orb_true_r. }
    now rewrite Hl.
  - cbn [String.append lstrip]. destruct (isspace c) eqn:Hc; [exact IH |].
    change (String c (String.append s w)) with (String.append (String c s) w).
    now apply rstrip_app_space.
Qed.

Lemma nl_is_space c : has_char c nl = true -> isspace c = true.
Proof.
  unfold nl. cbn [has_char]. rewrite orb_false_r. intros H.
  apply Ascii.eqb_eq in H. now subst.
Qed.

Lemma clean_plain payload :
  has_char "`" payload = false -> clean (Some payload) = inr (strip payload).
Proof.
  intros Hp. unfold clean, replace. do 2 f_equal.
  pose proof (replace_from_plain "``json" EmptyString payload EmptyString Hp) as H1.
  pose proof (replace_from_plain "``" EmptyString payload EmptyString Hp) as H2.
  assert (Hnil : forall s, String.append s EmptyString = s)
    by (induction s as [| c s IH]; simpl; now rewrite ?IH).
  rewrite Hnil in H1, H2. cbn [replace_from] in H1, H2. rewrite Hnil in H1, H2.
  now rewrite H1, H2.
Qed.

Lemma clean_fenced_json payload :
  has_char "`" payload = false ->
  clean (Some (fstr ["```json"; nl; payload; nl; "```"])) = inr (strip payload).
Proof.
  intros Hp. unfold clean, replace, fstr, nl. cbn [fold_right].
  f_equal.
  cbn [String.append replace_from startswith Ascii.eqb Bool.eqb andb
       String.length Nat.sub].
  rewrite (replace_from_plain "``json" EmptyString payload _ Hp).
  cbn [String.append replace_from startswith Ascii.eqb Bool.eqb andb
       String.length Nat.sub].
  rewrite (replace_from_plain "``" EmptyString payload _ Hp).
  cbn [String.append replace_from startswith Ascii.eqb Bool.eqb andb
       String.length Nat.sub].
  unfold strip at 1. cbn [lstrip]. change (isspace "010") with true. cbn iota.
  apply (strip_padded payload nl nl_is_space).
Qed.

Lemma clean_fenced_bare payload :
  has_char "`" payload = false ->
  clean (Some (fstr ["```"; nl; payload; nl; "```"])) = inr (strip payload).
Proof.
  intros Hp. unfold clean, replace, fstr, nl. cbn [fold_right].
  f_equal.
  cbn [String.append replace_from startswith Ascii.eqb Bool.eqb andb
       String.length Nat.sub].
  rewrite (replace_from_plain "``json" EmptyString payload _ Hp).
  cbn [String.append replace_from startswith Ascii.eqb Bool.eqb andb
       String.length Nat.sub].
  rewrite (replace_from_plain "``" EmptyString payload _ Hp).
  cbn [String.append replace_from startswith Ascii.eqb Bool.eqb andb
       String.length Nat.sub].
  unfold strip at 1. cbn [lstrip]. change (isspace "010") with true. cbn iota.
  apply (strip_padded payload nl nl_is_space).
Qed.

Section Fences.

Variable json_loads : string -> Exn + PyVal.

(** X14: a code fence around a reply makes no difference.  For a
    payload that holds no backquote, the reply that wraps the payload in a
    fence opened by [```json] or by [```], each marker on a line of its
    own, is cleaned to the payload without the white space around it, as
    the bare payload is; so it is decoded to the same matches, or fails
    with the same exception. *)
Theorem fenced_reply_is_payload payload :
  has_char "`" payload = false ->
  clean (Some (fstr ["```json"; nl; payload; nl; "```"])) = inr (strip payload)
  /\ clean (Some (fstr ["```"; nl; payload; nl; "```"])) = inr (strip payload)
  /\ clean (Some payload) = inr (strip payload)
  /\ parse_matches json_loads (Some (fstr ["```json"; nl; payload; nl; "```"]))
     = parse_matches json_loads (Some payload)
  /\ parse_matches json_loads (Some (fstr ["```"; nl; payload; nl; "```"]))
     = parse_matches json_loads (Some payload).
Proof.
  intros Hp. unfold parse_matches.
  rewrite (clean_fenced_json payload Hp), (clean_fenced_bare payload Hp),
    (clean_plain payload Hp).
  repeat split.
Qed.

End Fences.

(** ** When the results view and the export raise *)

Lemma comparable_bands m :
  comparable m = true ->
  exists h md l,
    is_high m = inr h /\ is_medium m = inr md /\ is_low m = inr l
    /\ (if h then 1 else 0) + (if md then 1 else 0) + (if l then 1 else 0) <= 1.
Proof.
  intros Hm.
  destruct (has_numeric_confidence m) eqn:Hnum.
  - destruct (one_band m Hnum) as (H1 & H2 & H3 & Hone).
    exists (in_high m), (in_medium m), (in_low m). repeat split; trivial. lia.
  - exists false, false, false.
    unfold comparable, has_numeric_confidence, is_high, is_medium, is_low in *.
    destruct (getitem m "confidence") as [e | c]; [discriminate |].
    destruct c as [| b | z | x | | |]; try discriminate.
    destruct x; try discriminate. repeat split. simpl. lia.
Qed.

Lemma not_comparable_raises m :
  comparable m = false -> exists e, is_high m = inl e.
Proof.
  unfold comparable, is_high.
  destruct (getitem m "confidence") as [e | c]; [eauto |].
  destruct c; try discriminate; intros _; eexists; reflexivity.
Qed.

Lemma count_where_raises cond matches m e :
  In m matches -> cond m = inl e ->
  exists e', count_where cond matches = inl e'.
Proof.
  induction matches as [| m0 rest IH]; [contradiction |].
  intros [-> | Hin] Hm; simpl.
  - rewrite Hm. eauto.
  - destruct (cond m0); [eauto |].
    destruct (IH Hin Hm) as (e' & ->). eauto.
Qed.

Lemma counts_of_comparable matches :
  forallb comparable matches = true ->
  exists h md l,
    high_conf matches = inr h /\ medium_conf matches = inr md
    /\ low_conf matches = inr l /\ h + md + l <= List.length matches.
Proof.
  unfold high_conf, medium_conf, low_conf.
  induction matches as [| m rest IH]; simpl.
  - intros _. exists 0, 0, 0. repeat split. lia.
  - intros Hall. apply andb_true_iff in Hall as (Hm & Hrest).
    destruct (IH Hrest) as (h & md & l & -> & -> & -> & Hsum).
    destruct (comparable_bands m Hm) as (bh & bm & bl & -> & -> & -> & Hone).
    eexists _, _, _. repeat split. lia.
Qed.

Lemma summarize_of_incomparable matches m :
  In m matches -> comparable m = false -> exists e, summarize matches = inl e.
Proof.
  intros Hin Hm. destruct (not_comparable_raises m Hm) as (e & He).
  destruct (count_where_raises is_high matches m e Hin He) as (e' & Hraise).
  unfold summarize, high_conf. rewrite Hraise. eauto.
Qed.

(** X15: the figures of the results view are computed exactly when
    every record carries a [confidence] that is a number (NaN included):
    then the total is the number of records and the three bands together
    count each record at most once; when some record has no [confidence],
    or one that is not a number, or is not a dictionary at all, the
    computation raises. *)
Theorem summarize_raises_exactly matches :
  (forallb comparable matches = true ->
   exists s, summarize matches = inr s
             /\ total s = List.length matches
             /\ high s + medium s + low s <= total s)
  /\ (forallb comparable matches = false ->
      exists e, summarize matches = inl e).
Proof.
  split.
  - intros Hall.
    destruct (counts_of_comparable matches Hall)
      as (h & md & l & Hh & Hm & Hl & Hsum).
    unfold summarize. rewrite Hh, Hm, Hl. eexists. repeat split. exact Hsum.
  - intros Hsome.
    assert (Hex : exists m, In m matches /\ comparable m = false).
    { induction matches as [| m rest IH]; [discriminate |].
      simpl in Hsome. destruct (comparable m) eqn:Hm.
      - destruct (IH Hsome) as (m' & Hin & Hm'). exists m'. split; [now right | exact Hm'].
      - exists m. split; [now left | exact Hm]. }
    destruct Hex as (m & Hin & Hm). now apply (summarize_of_incomparable matches m).
Qed.

Section ObjectReply.

Variable generate_content : Trace -> string -> string -> Exn + option string.
Variable json_loads : string -> Exn + PyVal.

(** X16: when a reply decodes to a JSON object with at least one key
    instead of an array, [match_urls] takes the keys of the object as if
    they were matches, and the results view then raises on the list it
    returns. *)
Theorem object_reply_breaks_summary model_name data tr :
  exists all_matches new_events,
    match_urls generate_content json_loads model_name data tr
    = (inr all_matches, tr ++ new_events)
    /\ (forall response_text text key value entries,
          In (inr response_text) (generate_replies new_events) ->
          clean response_text = inr text ->
          json_loads text = inr (PyDict ((key, value) :: entries)) ->
          In (PyStr key) all_matches
          /\ exists e, summarize all_matches = inl e).
Proof.
  destruct (match_urls_returns generate_content json_loads model_name data tr)
    as (ev & Hrun & _).
  eexists _, ev. split; [exact Hrun |].
  intros response_text text key value entries Hin Hclean Hjson.
  assert (Hkey : In (PyStr key)
                   (List.concat (map (contributed json_loads)
                                   (generate_replies ev)))).
  { apply in_concat. exists (contributed json_loads (inr response_text)).
    split; [now apply in_map |].
    unfold contributed, yield, parse_matches. rewrite Hclean, Hjson.
    simpl. now left. }
  split; [exact Hkey |].
  now apply (summarize_of_incomparable _ (PyStr key)).
Qed.

End ObjectReply.

Section ExportFacts.

Variable csv_row : list PyVal -> string.

Lemma exportable_values m :
  exportable m = true -> exists values, export_values m = inr values.
Proof.
  unfold exportable, has_key, export_values.
  destruct (getitem m "oldUrl"); [discriminate |].
  destruct (getitem m "newUrl"); [discriminate |].
  destruct (getitem m "confidence"); [discriminate |].
  destruct (getitem m "reason"); [discriminate |]. eauto.
Qed.

Lemma not_exportable_raises m :
  exportable m = false -> exists e, export_values m = inl e.
Proof.
  unfold exportable, has_key, export_values.
  destruct (getitem m "oldUrl"); [eauto |].
  destruct (getitem m "newUrl"); [eauto |].
  destruct (getitem m "confidence"); [eauto |].
  destruct (getitem m "reason"); [eauto | discriminate].
Qed.

(** X17: the export returns a table exactly when every record can be
    read at the four keys [oldUrl], [newUrl], [confidence] and [reason]:
    then the table is the header row followed by one row per record, in
    the order of the list; when some record lacks a key, or is not a
    dictionary, the export raises and no table is returned. *)
Theorem export_csv_raises_exactly matches :
  (forallb exportable matches = true ->
   export_csv csv_row matches
   = inr (String.append (csv_header csv_row)
            (fold_right String.append EmptyString (rows_of csv_row matches)))
   /\ List.length (rows_of csv_row matches) = List.length matches)
  /\ (forallb exportable matches = false ->
      exists e, export_csv csv_row matches = inl e).
Proof.
  unfold export_csv. split.
  - intros Hall.
    assert (Hrows : export_rows csv_row matches
                    = inr (fold_right String.append EmptyString
                             (rows_of csv_row matches))
                    /\ List.length (rows_of csv_row matches)
                       = List.length matches).
    { induction matches as [| m rest IH]; [now split |].
      simpl in Hall. apply andb_true_iff in Hall as (Hm & Hrest).
      destruct (IH Hrest) as (IHrows & IHlen).
      destruct (exportable_values m Hm) as (values & Hvalues).
      unfold rows_of in *. simpl. rewrite Hvalues, IHrows. simpl.
      now rewrite IHlen. }
    destruct Hrows as (-> & Hlen). now split.
  - intros Hsome.
    assert (Hraise : exists e, export_rows csv_row matches = inl e).
    { induction matches as [| m rest IH]; [discriminate |].
      simpl in Hsome. simpl. destruct (exportable m) eqn:Hm.
      - destruct (exportable_values m Hm) as (values & ->).
        destruct (IH Hsome) as (e & ->). eauto.
      - destruct (not_exportable_raises m Hm) as (e & ->). eauto. }
    destruct Hraise as (e & ->). eauto.
Qed.

End ExportFacts.

(** ** The handler of the start button *)

Lemma tries_target (credentials : option Credentials) url_list :
  forall counts,
    Forall (fun c => exists url ua,
                c = CallGet url ua credentials /\ In url url_list)
      (List.concat (map (fun uc => tries (fst uc) credentials (snd uc))
                      (combine url_list counts))).
Proof.
  induction url_list as [| url rest IH]; intros [| c counts]; simpl;
    try constructor.
  apply Forall_app. split.
  - unfold tries. apply Forall_forall. intros call Hcall.
    apply in_map_iff in Hcall as (k & <- & _). exists url, (user_agent k).
    split; [reflexivity | now left].
  - eapply Forall_impl; [| apply IH].
    intros call (u & ua & -> & Hin). exists u, ua. split; [reflexivity | now right].
Qed.

Section HandlerFacts.

Variable requests_get :
  Trace -> string -> string -> option Credentials -> Exn + Soup.
Variable generate_content : Trace -> string -> string -> Exn + option string.
Variable json_loads : string -> Exn + PyVal.
Variable new_client : string -> Exn + unit.

(** A crawl, with everything the handler needs to know about it. *)
Lemma crawl_urls_run url_list credentials tr :
  exists results new_events,
    crawl_urls requests_get url_list credentials tr
    = (inr (results, map cs_url (filter needs_auth results)), tr ++ new_events)
    /\ map cs_url results = url_list
    /\ Forall (fun c => exists url ua,
                   c = CallGet url ua credentials /\ In url url_list)
         (attempts new_events)
    /\ prompts new_events = []
    /\ generate_replies new_events = [].
Proof.
  unfold crawl_urls, enumerate.
  destruct (crawl_loop_shape requests_get (List.length url_list) credentials
              url_list 0 [] [] tr)
    as (fetched & ev & counts & Hloop & Hurls & _ & _ & Hatt & _
        & Hprompts & Hreplies).
  exists fetched, ev. split; [exact Hloop |]. split; [exact Hurls |].
  split; [rewrite Hatt; apply tries_target |]. now split.
Qed.

Lemma crawl_column_old url_list credentials s tr :
  exists results new_events,
    crawl_column requests_get url_list credentials
      set_crawl_results_old st_crawl_results_old s tr
    = (inr tt,
       set_auth_required_urls
         (st_auth_required_urls s ++ map cs_url (filter needs_auth results))
         (set_crawl_results_old results s),
       tr ++ new_events)
    /\ map cs_url results = url_list
    /\ Forall (fun c => exists url ua,
                   c = CallGet url ua credentials /\ In url url_list)
         (attempts new_events)
    /\ prompts new_events = []
    /\ generate_replies new_events = [].
Proof.
  destruct (crawl_urls_run url_list credentials tr)
    as (results & ev & Hrun & Hurls & Hatt & Hprompts & Hreplies).
  exists results, ev. split; [| now repeat split].
  unfold crawl_column, rbind, run, get, modify, rret. rewrite Hrun.
  cbn [st_crawl_results_old set_crawl_results_old].
  destruct (filter needs_auth results) as [| page pages]; [| reflexivity].
  simpl. rewrite app_nil_r. reflexivity.
Qed.

Lemma crawl_column_new url_list credentials s tr :
  exists results new_events,
    crawl_column requests_get url_list credentials
      set_crawl_results_new st_crawl_results_new s tr
    = (inr tt,
       set_auth_required_urls
         (st_auth_required_urls s ++ map cs_url (filter needs_auth results))
         (set_crawl_results_new results s),
       tr ++ new_events)
    /\ map cs_url results = url_list
    /\ Forall (fun c => exists url ua,
                   c = CallGet url ua credentials /\ In url url_list)
         (attempts new_events)
    /\ prompts new_events = []
    /\ generate_replies new_events = [].
Proof.
  destruct (crawl_urls_run url_list credentials tr)
    as (results & ev & Hrun & Hurls & Hatt & Hprompts & Hreplies).
  exists results, ev. split; [| now repeat split].
  unfold crawl_column, rbind, run, get, modify, rret. rewrite Hrun.
  cbn [st_crawl_results_new set_crawl_results_new].
  destruct (filter needs_auth results) as [| page pages]; [| reflexivity].
  simpl. rewrite app_nil_r. reflexivity.
Qed.


(** Pressed while no run is in progress, with a key and both files, the
    button runs the handler on the URLs read from the two files. *)
Lemma start_button_runs api_key model_choice old_text new_text crawl_enabled
    s tr :
  st_processing s = false -> api_key <> EmptyString ->
  start_button requests_get generate_content json_loads new_client
    true api_key model_choice (Some old_text) (Some new_text) crawl_enabled s tr
  = start_matching requests_get generate_content json_loads new_client
      api_key model_choice (parse_urls old_text) (parse_urls new_text)
      crawl_enabled s tr.
Proof.
  intros Hidle Hkey. unfold start_button, start_button_disabled.
  rewrite Hidle. now destruct api_key.
Qed.


Lemma crawl_column_old_fetches url_list credentials s tr :
  exists fetches,
    crawl_column requests_get url_list credentials
      set_crawl_results_old st_crawl_results_old s tr
    = (inr tt,
       set_auth_required_urls
         (st_auth_required_urls s
          ++ map cs_url (filter needs_auth (crawl_results url_list fetches)))
         (set_crawl_results_old (crawl_results url_list fetches) s),
       tr ++ crawl_events (List.length url_list) 0 url_list fetches)
    /\ fetches_of credentials url_list fetches
    /\ replies_agree requests_get tr
         (crawl_events (List.length url_list) 0 url_list fetches).
Proof.
  destruct (crawl_urls_fetches requests_get url_list credentials tr)
    as (fetches & Hrun & Hfetches & Hagree).
  exists fetches. split; [| now split].
  unfold crawl_column, rbind, run, get, modify, rret. rewrite Hrun.
  cbn [st_crawl_results_old set_crawl_results_old].
  destruct (filter needs_auth (crawl_results url_list fetches))
    as [| page pages]; [| reflexivity].
  simpl. rewrite app_nil_r. reflexivity.
Qed.

Lemma crawl_column_new_fetches url_list credentials s tr :
  exists fetches,
    crawl_column requests_get url_list credentials
      set_crawl_results_new st_crawl_results_new s tr
    = (inr tt,
       set_auth_required_urls
         (st_auth_required_urls s
          ++ map cs_url (filter needs_auth (crawl_results url_list fetches)))
         (set_crawl_results_new (crawl_results url_list fetches) s),
       tr ++ crawl_events (List.length url_list) 0 url_list fetches)
    /\ fetches_of credentials url_list fetches
    /\ replies_agree requests_get tr
         (crawl_events (List.length url_list) 0 url_list fetches).
Proof.
  destruct (crawl_urls_fetches requests_get url_list credentials tr)
    as (fetches & Hrun & Hfetches & Hagree).
  exists fetches. split; [| now split].
  unfold crawl_column, rbind, run, get, modify, rret. rewrite Hrun.
  cbn [st_crawl_results_new set_crawl_results_new].
  destruct (filter needs_auth (crawl_results url_list fetches))
    as [| page pages]; [| reflexivity].
  simpl. rewrite app_nil_r. reflexivity.
Qed.

(** X20: a run with crawling goes through its phases in order and
    hands on only what it crawled.  First comes the crawl of the old URLs:
    one fetch for each old URL, in input order, with the credentials of the
    session; then the crawl of the new URLs, in the same way; then the
    matching, which requests no page.  Every request of the first phase is
    for an old URL and every request of the second for a new URL, the
    replies recorded are those of the HTTP collaborator, and neither crawl
    asks anything of the inference collaborator.  The session holds the
    result of the fetch of each old URL and of each new URL, in input
    order; its list of URLs needing authentication is the old and then the
    new URLs whose result is [auth_required]; and the prompts are built
    from the results of this run whose status is [success], so no page that
    failed or needs authentication is in any prompt. *)
Theorem start_matching_crawled api_key model_choice old_urls new_urls s tr :
  new_client api_key = inr tt ->
  exists results_old results_new ev_old ev_new ev_match fetches_old fetches_new,
    start_matching requests_get generate_content json_loads new_client
      api_key model_choice old_urls new_urls true s tr
    = (mkSession
         (List.concat (map (contributed json_loads)
                         (generate_replies ev_match)))
         results_old results_new false true
         (map cs_url (filter needs_auth results_old)
          ++ map cs_url (filter needs_auth results_new))
         (st_credentials s),
       tr ++ ev_old ++ ev_new ++ ev_match)
    /\ map cs_url results_old = old_urls
    /\ map cs_url results_new = new_urls
    /\ prompts ev_old = [] /\ prompts ev_new = [] /\ attempts ev_match = []
    /\ prompts ev_match
       = map (fun batch =>
                crawled_template (render_items batch)
                  (render_items (filter is_success results_new)))
           (batches (filter is_success results_old)
              (batch_size_for model_choice))
    /\ fetches_of (st_credentials s) old_urls fetches_old
    /\ ev_old = crawl_events (List.length old_urls) 0 old_urls fetches_old
    /\ results_old = crawl_results old_urls fetches_old
    /\ fetches_of (st_credentials s) new_urls fetches_new
    /\ ev_new = crawl_events (List.length new_urls) 0 new_urls fetches_new
    /\ results_new = crawl_results new_urls fetches_new
    /\ replies_agree requests_get tr (ev_old ++ ev_new)
    /\ Forall (fun c => exists url ua,
                  c = CallGet url ua (st_credentials s) /\ In url old_urls)
         (attempts ev_old)
    /\ Forall (fun c => exists url ua,
                  c = CallGet url ua (st_credentials s) /\ In url new_urls)
         (attempts ev_new)
    /\ generate_replies ev_old = [] /\ generate_replies ev_new = [].
Proof.
  intros Hclient.
  set (s0 := set_auth_required_urls []
               (set_matches []
                  (set_processing_complete false (set_processing true s)))).
  destruct (crawl_column_old_fetches old_urls (st_credentials s0) s0 tr)
    as (fetches_old & Hold & Hfetches_old & Hagree_old).
  set (results_old := crawl_results old_urls fetches_old) in *.
  set (ev_old := crawl_events (List.length old_urls) 0 old_urls fetches_old) in *.
  set (s1 := set_auth_required_urls
               (st_auth_required_urls s0
                ++ map cs_url (filter needs_auth results_old))
               (set_crawl_results_old results_old s0)) in *.
  destruct (crawl_column_new_fetches new_urls (st_credentials s0) s1
              (tr ++ ev_old))
    as (fetches_new & Hnew & Hfetches_new & Hagree_new).
  set (results_new := crawl_results new_urls fetches_new) in *.
  set (ev_new := crawl_events (List.length new_urls) 0 new_urls fetches_new) in *.
  destruct (match_loop_readings generate_content json_loads model_choice
              (filter is_success results_old)
              (fun b => crawled_prompt b results_new)
              ((tr ++ ev_old) ++ ev_new))
    as (ev_match & Hmatch & _ & Hprompts & _ & Hatt & _).
  destruct (crawl_events_readings (st_credentials s) old_urls fetches_old
              (List.length old_urls) 0 Hfetches_old)
    as (Hp_old & Hr_old & Ha_old).
  destruct (crawl_events_readings (st_credentials s) new_urls fetches_new
              (List.length new_urls) 0 Hfetches_new)
    as (Hp_new & Hr_new & Ha_new).
  exists results_old, results_new, ev_old, ev_new, ev_match,
    fetches_old, fetches_new.
  split.
  { unfold start_matching, start_try, rbind, run, lift, rret, modify, get.
    rewrite Hclient. fold s0. rewrite Hold. fold s1. rewrite Hnew.
    cbn [st_crawl_results_old st_crawl_results_new set_auth_required_urls
         set_crawl_results_new].
    unfold match_urls.
    change (st_crawl_results_old s1) with results_old.
    rewrite Hmatch. rewrite <- !app_assoc. reflexivity. }
  split; [exact (crawl_results_urls _ _ _ Hfetches_old) |].
  split; [exact (crawl_results_urls _ _ _ Hfetches_new) |].
  split; [exact Hp_old |]. split; [exact Hp_new |]. split; [exact Hatt |].
  split; [exact Hprompts |].
  split; [exact Hfetches_old |]. split; [reflexivity |]. split; [reflexivity |].
  split; [exact Hfetches_new |]. split; [reflexivity |]. split; [reflexivity |].
  split; [now apply replies_agree_app |].
  now repeat split.
Qed.

(** X21: the requests of a run with crawling carry the credentials of
    the sidebar and no others: the pair of the two fields when both are
    filled in, and no authentication at all when the user name or the
    password is left empty. *)
Theorem start_matching_credentials auth_username auth_password api_key
    model_choice old_urls new_urls s tr :
  new_client api_key = inr tt ->
  exists final new_events,
    start_matching requests_get generate_content json_loads new_client
      api_key model_choice old_urls new_urls true
      (set_credentials (sidebar_credentials auth_username auth_password) s) tr
    = (final, tr ++ new_events)
    /\ Forall (fun c => exists url ua,
                   c = CallGet url ua
                         (sidebar_credentials auth_username auth_password)
                   /\ In url (old_urls ++ new_urls))
         (attempts new_events)
    /\ (auth_username = EmptyString \/ auth_password = EmptyString ->
        sidebar_credentials auth_username auth_password = None)
    /\ (auth_username <> EmptyString -> auth_password <> EmptyString ->
        sidebar_credentials auth_username auth_password
        = Some (mkCredentials auth_username auth_password)).
Proof.
  intros Hclient.
  set (creds := sidebar_credentials auth_username auth_password).
  set (s0 := set_auth_required_urls []
               (set_matches []
                  (set_processing_complete false
                     (set_processing true (set_credentials creds s))))).
  destruct (crawl_column_old old_urls creds s0 tr)
    as (results_old & ev_old & Hold & _ & Hatt_old & _).
  set (s1 := set_auth_required_urls
               (st_auth_required_urls s0
                ++ map cs_url (filter needs_auth results_old))
               (set_crawl_results_old results_old s0)) in *.
  destruct (crawl_column_new new_urls creds s1 (tr ++ ev_old))
    as (results_new & ev_new & Hnew & _ & Hatt_new & _).
  destruct (match_loop_readings generate_content json_loads model_choice
              (filter is_success results_old)
              (fun b => crawled_prompt b results_new)
              ((tr ++ ev_old) ++ ev_new))
    as (ev_match & Hmatch & _ & _ & _ & Hatt & _).
  eexists _, (ev_old ++ ev_new ++ ev_match). split; [| split; [| split]].
  - unfold start_matching, start_try, rbind, run, lift, rret, modify, get.
    rewrite Hclient. fold creds. fold s0.
    change (st_credentials s0) with creds. rewrite Hold. fold s1. rewrite Hnew.
    cbn [st_crawl_results_old st_crawl_results_new set_auth_required_urls
         set_crawl_results_new].
    unfold match_urls.
    change (st_crawl_results_old s1) with results_old.
    rewrite Hmatch. rewrite <- !app_assoc. reflexivity.
  - rewrite !attempts_app, Hatt, app_nil_r. apply Forall_app. split.
    + eapply Forall_impl; [| exact Hatt_old].
      intros c (u & ua & -> & Hin). exists u, ua.
      split; [reflexivity | apply in_or_app; now left].
    + eapply Forall_impl; [| exact Hatt_new].
      intros c (u & ua & -> & Hin). exists u, ua.
      split; [reflexivity | apply in_or_app; now right].
  - unfold sidebar_credentials. intros [-> | ->]; [reflexivity |].
    now destruct auth_username.
  - unfold sidebar_credentials. intros Hu Hp.
    destruct auth_username; [contradiction |].
    destruct auth_password; [contradiction | reflexivity].
Qed.

End HandlerFacts.

(** * The properties above on sample inputs *)

(** X1 on a text of blanks and line breaks. *)
Lemma parse_urls_lines_witness :
  parse_urls (String " " (String "010" (String "009" EmptyString))) = [].
Proof.
  apply (proj2 (parse_urls_lines _)).
  intros c Hc. cbn [has_char] in Hc. rewrite orb_false_r in Hc.
  repeat (apply orb_true_iff in Hc as [Hc | Hc]);
    apply Ascii.eqb_eq in Hc; now subst.
Defined.

(** X2 on two URLs. *)
Lemma parse_urls_round_trip_witness :
  Forall clean_url sample_urls
  /\ parse_urls (join nl sample_urls) = sample_urls.
Proof.
  assert (Hclean : Forall clean_url sample_urls).
  { repeat constructor; discriminate. }
  split; [exact Hclean | exact (parse_urls_round_trip _ Hclean)].
Defined.

(** X5 at a URL always answered with 503, with the default budget. *)
Lemma fetch_status_retries_witness :
  exists new_events,
    fetch (always_status 503) "https://old.example/a" None []
    = (inr (no_content "https://old.example/a" failed "HTTP 503"), new_events)
    /\ List.length (attempts new_events) = 4
    /\ sleeps new_events = [inject_Z 1; inject_Z 3; inject_Z 9].
Proof.
  assert (Hdown : forall h ua,
             raises_status 503
               (always_status 503 h "https://old.example/a" ua None))
    by (intros h ua; eexists; split; reflexivity).
  destruct (fetch_status_retries (always_status 503) "https://old.example/a"
              None 503 3 [] Hdown eq_refl)
    as (ev & Hrun & _ & Hattempts & Hsleeps).
  exists ev. split; [exact Hrun |]. split; [exact Hattempts | exact Hsleeps].
Defined.

(** X6 at a URL answered with 404. *)
Lemma fetch_status_not_retried_witness :
  exists reply,
    fetch (always_status 404) "https://old.example/a" None []
    = (inr (no_content "https://old.example/a" failed "HTTP 404"),
       [(CallGet "https://old.example/a" (user_agent 0) None, reply)]).
Proof.
  eexists.
  apply (fetch_status_not_retried (always_status 404) "https://old.example/a"
           0 3 None []
           (mkExn (HTTPError 404)
              (fstr [str_of_nat 404;
                     " Client Error for url: https://old.example/a"]))
           404 eq_refl eq_refl eq_refl (or_introl eq_refl)).
Defined.

(** X7 at a URL that times out once and is then served. *)
Lemma fetch_recovers_after_timeout_witness :
  exists new_events,
    fetch slow_start "https://old.example/a" None []
    = (inr (mkSignal "https://old.example/a" "Old page" EmptyString EmptyString
              "first second third" success None), new_events)
    /\ List.length (attempts new_events) = 2.
Proof.
  destruct (fetch_recovers_after_timeout slow_start "https://old.example/a"
              0 3 None []
              (mkExn Timeout "Read timed out. (read timeout=15)") sample_soup
              eq_refl eq_refl ltac:(lia) eq_refl) as (Hrun & _).
  eexists. split; [exact Hrun | reflexivity].
Defined.

(** X10 on a crawl of three URLs that need authentication: the values
    are the binary64 numbers written [0.3333333333333333],
    [0.6666666666666666] and [1.0]. *)
Lemma crawl_progress_in_range_witness :
  exists results auth_urls new_events,
    crawl_urls (always_status 403)
      ["https://old.example/a"; "https://old.example/b"; "https://old.example/c"]
      None []
    = (inr (results, auth_urls), new_events)
    /\ progress_values new_events
       = [S754_finite false 6004799503160661 (-54);
          S754_finite false 6004799503160661 (-53);
          S754_finite false 4503599627370496 (-52)]
    /\ Forall (fun v => in_unit_range v = true) (progress_values new_events)
    /\ last (progress_values new_events) S754_nan = float_1.
Proof.
  destruct (crawl_progress_in_range (always_status 403)
              ["https://old.example/a"; "https://old.example/b";
               "https://old.example/c"] None [])
    as ((results & auth_urls & ev & Hrun & Hprog & _ & _ & _ & Hunit) & _).
  destruct (Hunit eq_refl) as (Hin & Hone).
  exists results, auth_urls, ev. split; [exact Hrun |]. split.
  - rewrite Hprog. vm_compute. reflexivity.
  - split; [exact Hin | apply Hone; discriminate].
Defined.

(** X12 on the run of 51 URLs in two batches: the values are [0.5] and
    [1.0]. *)
Lemma match_progress_in_range_witness :
  exists all_matches new_events,
    match_urls flaky_generate sample_json_loads "gemini-3-pro-preview"
      (UrlLists (sample_old_urls 51) ["https://new.example/a"]) []
    = (inr all_matches, new_events)
    /\ progress_values new_events
       = [S754_finite false 4503599627370496 (-53);
          S754_finite false 4503599627370496 (-52)]
    /\ Forall (fun v => in_unit_range v = true) (progress_values new_events)
    /\ last (progress_values new_events) S754_nan = float_1.
Proof.
  destruct (match_progress_in_range flaky_generate sample_json_loads
              "gemini-3-pro-preview"
              (UrlLists (sample_old_urls 51) ["https://new.example/a"]) [])
    as (all_matches & ev & Hrun & Hprog & _ & _ & _ & Hunit).
  destruct (Hunit eq_refl) as (Hin & Hone).
  exists all_matches, ev. split; [exact Hrun |]. split.
  - rewrite Hprog. vm_compute. reflexivity.
  - split; [exact Hin | apply Hone; vm_compute; lia].
Defined.

(** X14 on the sample array. *)
Lemma fenced_reply_is_payload_witness :
  has_char "`" sample_match_text = false
  /\ parse_matches sample_json_loads
       (Some (fstr ["```json"; nl; sample_match_text; nl; "```"]))
     = inr [sample_match].
Proof.
  assert (Hplain : has_char "`" sample_match_text = false) by reflexivity.
  split; [exact Hplain |].
  destruct (fenced_reply_is_payload sample_json_loads sample_match_text Hplain)
    as (_ & _ & _ & Hjson & _).
  rewrite Hjson. reflexivity.
Defined.

(** X15 on a list with a NaN, and on a list holding a string. *)
Lemma summarize_raises_exactly_witness :
  (exists s, summarize [with_confidence float_0_9; with_confidence S754_nan]
             = inr s /\ total s = 2 /\ high s + medium s + low s <= total s)
  /\ (exists e, summarize [with_confidence float_0_9; PyStr "oldUrl"] = inl e).
Proof.
  split.
  - exact (proj1 (summarize_raises_exactly
                    [with_confidence float_0_9; with_confidence S754_nan])
             eq_refl).
  - exact (proj2 (summarize_raises_exactly
                    [with_confidence float_0_9; PyStr "oldUrl"]) eq_refl).
Defined.

(** X16 on a reply that is an object with the key [matches]. *)
Lemma object_reply_breaks_summary_witness :
  exists all_matches new_events,
    match_urls object_generate object_json_loads "gemini-3-flash-preview"
      (UrlLists sample_urls ["https://new.example/a"]) []
    = (inr all_matches, new_events)
    /\ In (PyStr "matches") all_matches
    /\ exists e, summarize all_matches = inl e.
Proof.
  destruct (object_reply_breaks_summary object_generate object_json_loads
              "gemini-3-flash-preview"
              (UrlLists sample_urls ["https://new.example/a"]) [])
    as (all_matches & ev & Hrun & Hobject).
  exists all_matches, ev. split; [exact Hrun |].
  apply (Hobject (Some object_text) object_text "matches" (PyList []) []);
    [| reflexivity | reflexivity].
  apply (f_equal snd) in Hrun. simpl snd in Hrun. rewrite <- Hrun.
  vm_compute. now left.
Defined.

(** X17 on a record of four strings, and on a string. *)
Lemma export_csv_raises_exactly_witness :
  export_csv plain_row [text_record]
  = inr (String.append "Old URL,New URL,Confidence,Reason"
           (String "013" (String "010"
              (String.append
                 "https://old.example/a,https://new.example/a,0.95,slug match"
                 (String "013" (String "010" EmptyString))))))
  /\ exists e, export_csv plain_row [PyStr "oldUrl"] = inl e.
Proof.
  split.
  - destruct (proj1 (export_csv_raises_exactly plain_row [text_record])
                eq_refl) as (Htable & _).
    rewrite Htable. reflexivity.
  - apply (proj2 (export_csv_raises_exactly plain_row _)). reflexivity.
Defined.



(** X20 on a run with crawling in which one of the two old pages needs
    authentication: that URL is listed, the requests are those for the two
    old URLs and then the one for the new URL, and the only prompt is built
    from the old page and the new page that were served. *)
Lemma start_matching_crawled_witness :
  exists final new_events,
    start_matching (locked_at "https://old.example/b") flaky_generate
      sample_json_loads any_client "key" "gemini-3-flash-preview"
      sample_urls ["https://new.example/a"] true earlier_session []
    = (final, new_events)
    /\ st_auth_required_urls final = ["https://old.example/b"]
    /\ attempts new_events
       = [CallGet "https://old.example/a" (user_agent 0) None;
          CallGet "https://old.example/b" (user_agent 0) None;
          CallGet "https://new.example/a" (user_agent 0) None]
    /\ prompts new_events
       = [crawled_template
            (render_items [extract "https://old.example/a" sample_soup])
            (render_items [extract "https://new.example/a" sample_soup])].
Proof.
  destruct (start_matching_crawled (locked_at "https://old.example/b")
              flaky_generate sample_json_loads any_client "key"
              "gemini-3-flash-preview" sample_urls ["https://new.example/a"]
              earlier_session [] eq_refl)
    as (results_old & results_new & ev_old & ev_new & ev_match & fetches_old
        & fetches_new & Hrun & _).
  eexists _, _. split; [exact Hrun |].
  pose proof (f_equal fst Hrun) as Hfinal.
  pose proof (f_equal snd Hrun) as Hevents.
  cbn [fst snd] in Hfinal, Hevents.
  rewrite <- Hfinal, <- Hevents. vm_compute. repeat split.
Defined.

(** X21 with a user name and no password: no request is authenticated. *)
Lemma start_matching_credentials_witness :
  exists final new_events,
    start_matching (always_status 403) flaky_generate sample_json_loads
      any_client "key" "gemini-3-flash-preview"
      ["https://old.example/a"] ["https://new.example/a"] true
      (set_credentials (sidebar_credentials "editor" EmptyString)
         fresh_session) []
    = (final, new_events)
    /\ Forall (fun c => exists url ua, c = CallGet url ua None)
         (attempts new_events).
Proof.
  destruct (start_matching_credentials (always_status 403) flaky_generate
              sample_json_loads any_client "editor" EmptyString "key"
              "gemini-3-flash-preview"
              ["https://old.example/a"] ["https://new.example/a"]
              fresh_session [] eq_refl)
    as (final & ev & Hrun & Hatt & Hnone & _).
  exists final, ev. split; [exact Hrun |].
  rewrite (Hnone (or_intror eq_refl)) in Hatt.
  eapply Forall_impl; [| exact Hatt].
  intros c (url & ua & -> & _). now exists url, ua.
Defined.
